(** * freephil: the parameter tree, variable substitution, extract/format
      and fetch of [freephil/common.py], as a shallow embedding.

    Python objects are rendered as follows.
    - [str] is [string]; [None]-able attributes are [option]s.
    - [definition] and [scope] are the two variants of [object]; the children
      of a scope ([objects]) are held by value, in declaration order.
    - [primary_parent_scope] is a non-owning back reference: it is an address
      into a [heap] of scope objects, so that [full_path], [alias_path] and
      [lexical_get] walk the same parent chain as the Python code.
    - Object identity ([is]) between siblings is their position in the
      parent's [objects] list.
    - An exception is a value of [exn], one constructor per [raise] site,
      carrying the data the message interpolates; functions that can raise
      return [result]. Warnings are collected beside the result ([M]).
    - Loops over parent links and the mutual recursion of variable lookup
      are not structurally bounded in Python; they take a recursion budget
      and raise [RecursionError] when it is spent, as the interpreter does.
    - The scratch slot [tmp] only feeds [track_unused_definitions] and is not
      part of the values studied here; it is left out. *)

From stdpp Require Import gmap strings list.
From Stdlib Require Import ZArith Ascii Lia.

Local Open Scope string_scope.
Local Open Scope list_scope.
Local Open Scope Z_scope.
Local Open Scope nat_scope.
Set Warnings "-register-all".

(** ** Python string operations used by the code *)

Definition startswith (s p : string) : bool := String.prefix p s.

Definition endswith (s p : string) : bool :=
  (String.length p <=? String.length s) &&
  String.eqb
    (String.substring (String.length s - String.length p) (String.length p) s) p.

(** [s.split(sep)] for a one-character separator: every occurrence splits,
    empty pieces are kept. *)
Fixpoint split (sep : ascii) (s : string) : list string :=
  match s with
  | EmptyString => [EmptyString]
  | String c s' =>
      if Ascii.eqb c sep then EmptyString :: split sep s'
      else match split sep s' with
           | [] => [String c EmptyString]
           | w :: ws => String c w :: ws
           end
  end.

Definition join (sep : string) (l : list string) : string := String.concat sep l.

(** [s[n:]] *)
Fixpoint str_drop (n : nat) (s : string) : string :=
  match n, s with
  | O, _ => s
  | S n', String _ s' => str_drop n' s'
  | S _, EmptyString => EmptyString
  end.

Definition str_in (x : string) (l : list string) : bool :=
  existsb (String.eqb x) l.

Definition dot : ascii := "."%char.

(** [bool(x)] of an attribute that is [None], [True] or [False]. *)
Definition truthy (b : option bool) : bool :=
  match b with Some true => true | _ => false end.

(** The double quote character, as a one-character string. *)
Definition dquote : string := String (ascii_of_nat 34) EmptyString.
Definition squote : string := "'".

(** Modelled from the spec: the tables [standard_identifier_start_characters]
    and [standard_identifier_continuation_characters] of the tokens module
    are not among the sources; a variable name "consumes standard-identifier
    characters": a letter or underscore first, then also digits and dots. *)
Definition standard_identifier_start_characters (c : ascii) : bool :=
  let n := nat_of_ascii c in
  (n =? 95) || ((65 <=? n) && (n <=? 90)) || ((97 <=? n) && (n <=? 122)).

Definition standard_identifier_continuation_characters (c : ascii) : bool :=
  let n := nat_of_ascii c in
  standard_identifier_start_characters c || (n =? 46) || ((48 <=? n) && (n <=? 57)).

(** ** Exceptions and warnings *)

(** Token/Word: raw text, an optional quoting style and the source location.
    Modelled from the spec: [tokenizer.word] is an external collaborator. *)
Record word := mk_word {
  value : string;
  quote_token : option string;
  line_number : option nat;
  source_info : option string }.

Definition plain_word (v : string) : word := mk_word v None None None.

Inductive exn :=
  (* RuntimeError('Reserved identifier: "<name>"<where_str>') *)
  | ReservedIdentifier (name where_str : string)
  (* RuntimeError('Reserved identifier: "include"<where_str>') *)
  | ReservedInclude (where_str : string)
  (* RuntimeError('Incompatible parameter objects: definition ... vs. scope ...') *)
  | IncompatibleDefinitionScope (dname dwhere sname swhere : string)
  (* RuntimeError('Incompatible parameter objects: scope ... vs. definition ...') *)
  | IncompatibleScopeDefinition (sname swhere dname dwhere : string)
  (* RuntimeError('Duplicate definitions in master (first not marked with .multiple=True): ...') *)
  | DuplicateDefinitions (path1 where1 path2 where2 : string)
  (* RuntimeError('Not a definition: $<var><where>') *)
  | NotADefinition (var : string) (w : word)
  (* RuntimeError('Undefined variable: $<var><where>') *)
  | UndefinedVariable (var : string) (w : word)
  (* word.raise_syntax_error(<message>) *)
  | SyntaxError (message : string) (w : word)
  (* RuntimeError('.type=... does not have a from_words method...') *)
  | NoFromWords (where_str : string)
  (* RuntimeError('.type=... does not have an as_words method...') *)
  | NoAsWords (where_str : string)
  (* whatever a converter plugin raises *)
  | ConverterError (message : string)
  | AssertionError
  | TypeError
  | AttributeError
  | IndexError
  | RecursionError.

Inductive result (A : Type) :=
  | Ok (a : A)
  | Raise (e : exn).
Arguments Ok {A} a.
Arguments Raise {A} e.

Definition bind {A B} (m : result A) (f : A -> result B) : result B :=
  match m with Ok a => f a | Raise e => Raise e end.

Notation "x <- m ;; k" := (bind m (fun x => k))
  (at level 20, m at level 99, k at level 200, only parsing).
Notation "' p <- m ;; k" := (bind m (fun p => k))
  (at level 20, p pattern, m at level 99, k at level 200, only parsing).

(** [warnings.warn(message, category)] *)
Inductive warning_category := PhilDeprecationWarning.
Record warning := mk_warning {
  category : warning_category;
  message : string }.

(** A computation that may warn and then return or raise: the warnings issued
    so far are kept when an exception propagates. *)
Record M (A : Type) := mkM {
  warnings : list warning;
  outcome : result A }.
Arguments mkM {A} warnings outcome.
Arguments warnings {A} m.
Arguments outcome {A} m.

Definition ret {A} (a : A) : M A := mkM [] (Ok a).
Definition bindM {A B} (m : M A) (f : A -> M B) : M B :=
  match outcome m with
  | Ok a => mkM (warnings m ++ warnings (f a)) (outcome (f a))
  | Raise e => mkM (warnings m) (Raise e)
  end.

Notation "x <~ m ;; k" := (bindM m (fun x => k))
  (at level 20, m at level 99, k at level 200, only parsing).

Definition lift {A} (r : result A) : M A := mkM [] r.
Definition warn (cat : warning_category) (msg : string) : M unit :=
  mkM [mk_warning cat msg] (Ok tt).

(** ** Reserved identifiers (common.py, is_reserved_identifier) *)

Definition is_reserved_identifier (s : string) : bool :=
  if String.length s <? 5 then false
  else startswith s "__" && endswith s "__".

Section Phil.

(** Converter instances bound by [.type=] and the values they produce are
    plugin code: both are left abstract. *)
Context {conv pyval : Type}.

Definition addr := nat.

(** ** The tree model (common.py, classes definition and scope) *)

Record definition := mk_definition {
  def_name : string;
  def_words : list word;
  def_primary_id : option nat;
  def_primary_parent_scope : option addr;
  def_is_disabled : bool;
  def_is_template : Z;
  def_where_str : string;
  def_merge_names : bool;
  def_help : option string;
  def_caption : option string;
  def_short_caption : option string;
  def_optional : option bool;
  def_type : option conv;
  def_multiple : option bool;
  def_input_size : option Z;
  def_style : option string;
  def_expert_level : option Z;
  def_deprecated : option bool;
  def_alias : option string }.

(** The attributes of a scope other than its children. [call] is the
    expression of the bound callable. *)
Record scope_header := mk_scope_header {
  scope_name : string;
  scope_primary_id : option nat;
  scope_primary_parent_scope : option addr;
  scope_is_disabled : bool;
  scope_is_template : Z;
  scope_where_str : string;
  scope_merge_names : bool;
  scope_style : option string;
  scope_help : option string;
  scope_caption : option string;
  scope_short_caption : option string;
  scope_optional : option bool;
  scope_call : option string;
  scope_multiple : option bool;
  scope_sequential_format : option string;
  scope_disable_add : option bool;
  scope_disable_delete : option bool;
  scope_expert_level : option Z;
  scope_alias : option string }.

Inductive object :=
  | Def (d : definition)
  | Scope (h : scope_header) (objects : list object).

(** Attributes read on either kind of node. *)
Definition name (o : object) : string :=
  match o with Def d => def_name d | Scope h _ => scope_name h end.
Definition is_disabled (o : object) : bool :=
  match o with Def d => def_is_disabled d | Scope h _ => scope_is_disabled h end.
Definition is_template (o : object) : Z :=
  match o with Def d => def_is_template d | Scope h _ => scope_is_template h end.
Definition multiple (o : object) : option bool :=
  match o with Def d => def_multiple d | Scope h _ => scope_multiple h end.
Definition optional (o : object) : option bool :=
  match o with Def d => def_optional d | Scope h _ => scope_optional h end.
Definition primary_id (o : object) : option nat :=
  match o with Def d => def_primary_id d | Scope h _ => scope_primary_id h end.
Definition primary_parent_scope (o : object) : option addr :=
  match o with
  | Def d => def_primary_parent_scope d
  | Scope h _ => scope_primary_parent_scope h
  end.
Definition where_str (o : object) : string :=
  match o with Def d => def_where_str d | Scope h _ => scope_where_str h end.
Definition merge_names (o : object) : bool :=
  match o with Def d => def_merge_names d | Scope h _ => scope_merge_names h end.
Definition alias (o : object) : option string :=
  match o with Def d => def_alias d | Scope h _ => scope_alias h end.
(** [scope.deprecated] is the class attribute [False]. *)
Definition deprecated (o : object) : bool :=
  match o with Def d => truthy (def_deprecated d) | Scope _ _ => false end.
Definition is_definition (o : object) : bool :=
  match o with Def _ => true | Scope _ _ => false end.
Definition is_scope (o : object) : bool :=
  match o with Def _ => false | Scope _ _ => true end.
Definition objects (o : object) : list object :=
  match o with Def _ => [] | Scope _ l => l end.

(** What [extract] produces. [PyList] is a plain Python list,
    [PyExtractList] a [scope_extract_list] with its [__phil_optional__] tag,
    [PyExtract] a [scope_extract] with its [__phil_name__], [__phil_call__]
    and its instance dictionary in insertion order; [PyVal] is a scalar made
    by a converter. [__phil_parent__] only serves error messages and is left
    out. *)
Inductive pyobj :=
  | PyNone
  | PyAuto
  | PyStr (s : string)
  | PyVal (v : pyval)
  | PyList (items : list pyobj)
  | PyExtractList (phil_optional : option bool) (items : list pyobj)
  | PyExtract (phil_name : string) (phil_call : option string)
              (attrs : list (string * pyobj)).

(** What [strings_from_words] returns: [None], [Auto] or a list of [str]. *)
Inductive strings_value :=
  | SNone
  | SAuto
  | SStrings (l : list string).

Definition py_of_strings (v : strings_value) : pyobj :=
  match v with
  | SNone => PyNone
  | SAuto => PyAuto
  | SStrings l => PyList (map PyStr l)
  end.

Definition strings_value_eqb (a b : strings_value) : bool :=
  match a, b with
  | SNone, SNone => true
  | SAuto, SAuto => true
  | SStrings l1, SStrings l2 =>
      (length l1 =? length l2) && forallb (fun p => String.eqb p.1 p.2) (zip l1 l2)
  | _, _ => false
  end.

(** The external collaborators: converter plugins and the library operations
    the tree code calls but does not define. *)
Class Collaborators := {
  (* [self.type.phil_type] *)
  phil_type : conv -> string;
  (* [getattr(self.type, "fetch", None)]; the flag is [ignore_errors], passed
     to the choice family only *)
  type_fetch :
    conv -> option (list word -> definition -> option bool -> result (option definition));
  (* [self.type.from_words], absent when the attribute lookup fails *)
  type_from_words : conv -> option (list word -> definition -> result pyobj);
  (* [self.type.as_words] *)
  type_as_words : conv -> option (pyobj -> definition -> result (list word));
  (* [converters.strings_from_words], the value of an untyped definition *)
  strings_from_words : list word -> strings_value;
  (* [converters.strings_as_words], its inverse direction *)
  strings_as_words : pyobj -> result (list word);
  (* [converters.is_standard_identifier] *)
  is_standard_identifier : string -> bool;
  (* [str(word)] of the tokenizer *)
  word_str : word -> string;
  (* whether [sequential_format % 0] evaluates to a string *)
  format_int : string -> bool }.

Context `{Collaborators}.

(** The scope objects that [primary_parent_scope] can refer to, and the
    process environment ([os.environ]). *)
Variable heap : addr -> option object.
Variable environ : string -> option string.

(** Following a back reference. An address outside the heap stands for no
    Python object; reading through it fails like a missing attribute. *)
Definition deref (a : option addr) : result (option object) :=
  match a with
  | None => Ok None
  | Some a => match heap a with
              | Some o => Ok (Some o)
              | None => Raise AttributeError
              end
  end.

(** ** Construction (definition.__init__, scope.__init__) *)

Definition definition_init (d : definition) : result definition :=
  if is_reserved_identifier (def_name d) then
    Raise (ReservedIdentifier (def_name d) (def_where_str d))
  else if negb (String.eqb (def_name d) "include")
          && str_in "include" (split dot (def_name d)) then
    Raise (ReservedInclude (def_where_str d))
  else Ok d.

Definition scope_init (h : scope_header) (objs : option (list object))
  : result object :=
  let objs := match objs with None => [] | Some l => l end in
  if is_reserved_identifier (scope_name h) then
    Raise (ReservedIdentifier (scope_name h) (scope_where_str h))
  else if str_in "include" (split dot (scope_name h)) then
    Raise (ReservedInclude (scope_where_str h))
  else match scope_sequential_format h with
       | Some f => if format_int f then Ok (Scope h objs) else Raise AssertionError
       | None => Ok (Scope h objs)
       end.


(** ** Copies (definition.copy, definition.customized_copy, scope.copy,
       scope.customized_copy) *)

Definition def_set_is_template (d : definition) (t : Z) : definition :=
  mk_definition (def_name d) (def_words d) (def_primary_id d)
    (def_primary_parent_scope d) (def_is_disabled d) t (def_where_str d)
    (def_merge_names d) (def_help d) (def_caption d) (def_short_caption d)
    (def_optional d) (def_type d) (def_multiple d) (def_input_size d)
    (def_style d) (def_expert_level d) (def_deprecated d) (def_alias d).

Definition def_set_name_words (d : definition) (n : string) (ws : list word)
  : definition :=
  mk_definition n ws (def_primary_id d)
    (def_primary_parent_scope d) (def_is_disabled d) (def_is_template d)
    (def_where_str d)
    (def_merge_names d) (def_help d) (def_caption d) (def_short_caption d)
    (def_optional d) (def_type d) (def_multiple d) (def_input_size d)
    (def_style d) (def_expert_level d) (def_deprecated d) (def_alias d).

Definition scope_set_is_template (h : scope_header) (t : Z) : scope_header :=
  mk_scope_header (scope_name h) (scope_primary_id h)
    (scope_primary_parent_scope h) (scope_is_disabled h) t
    (scope_where_str h) (scope_merge_names h) (scope_style h) (scope_help h)
    (scope_caption h) (scope_short_caption h) (scope_optional h)
    (scope_call h) (scope_multiple h) (scope_sequential_format h)
    (scope_disable_add h) (scope_disable_delete h) (scope_expert_level h)
    (scope_alias h).

Definition scope_set_name (h : scope_header) (n : string) : scope_header :=
  mk_scope_header n (scope_primary_id h)
    (scope_primary_parent_scope h) (scope_is_disabled h) (scope_is_template h)
    (scope_where_str h) (scope_merge_names h) (scope_style h) (scope_help h)
    (scope_caption h) (scope_short_caption h) (scope_optional h)
    (scope_call h) (scope_multiple h) (scope_sequential_format h)
    (scope_disable_add h) (scope_disable_delete h) (scope_expert_level h)
    (scope_alias h).

(** [self.copy()] passes every slot back to the constructor, which checks the
    name again. *)
Definition definition_copy (d : definition) : result definition :=
  definition_init d.

Definition definition_customized_copy (d : definition)
    (new_name : option string) (new_words : option (list word))
  : result definition :=
  r <- definition_copy d;;
  let n := match new_name with Some n => n | None => def_name r end in
  let ws := match new_words with Some ws => ws | None => def_words r end in
  Ok (def_set_is_template (def_set_name_words r n ws) 0%Z).

Definition scope_copy (h : scope_header) (objs : list object) : result object :=
  scope_init h (Some objs).

Definition scope_customized_copy (h : scope_header) (objs : list object)
    (new_name : option string) (new_objects : option (list object))
  : result object :=
  r <- scope_copy h objs;;
  match r with
  | Scope h' objs' =>
      let h1 := match new_name with Some n => scope_set_name h' n | None => h' end in
      let objs1 := match new_objects with Some l => l | None => objs' end in
      Ok (Scope (scope_set_is_template h1 0%Z) objs1)
  | Def _ => Raise TypeError
  end.

Definition object_copy (o : object) : result object :=
  match o with
  | Def d => d' <- definition_copy d;; Ok (Def d')
  | Scope h objs => scope_copy h objs
  end.

Definition set_is_template (o : object) (t : Z) : object :=
  match o with
  | Def d => Def (def_set_is_template d t)
  | Scope h objs => Scope (scope_set_is_template h t) objs
  end.

(** ** Paths (common.py, full_path and alias_path) *)

Fixpoint full_path_loop (fuel : nat) (pps : option addr) (acc : list string)
  : result (list string) :=
  p <- deref pps;;
  match p with
  | None => Ok acc
  | Some s =>
      if String.eqb (name s) "" then Ok acc
      else match fuel with
           | O => Raise RecursionError
           | S fuel' =>
               full_path_loop fuel' (primary_parent_scope s) (acc ++ [name s])
           end
  end.

Definition full_path (fuel : nat) (self : object) : result string :=
  l <- full_path_loop fuel (primary_parent_scope self) [name self];;
  Ok (join "." (rev l)).

Fixpoint alias_path_loop (fuel : nat) (pps : option addr) (acc : list string)
  : result (list string * bool) :=
  p <- deref pps;;
  match p with
  | None => Ok (acc, false)
  | Some s =>
      match alias s with
      | Some a => Ok (acc ++ [a], true)
      | None =>
          if String.eqb (name s) "" then Ok (acc, false)
          else match fuel with
               | O => Raise RecursionError
               | S fuel' =>
                   alias_path_loop fuel' (primary_parent_scope s) (acc ++ [name s])
               end
      end
  end.

Definition alias_path (fuel : nat) (self : object) : result (option string) :=
  match alias self with
  | Some a => Ok (Some a)
  | None =>
      '(l, have_alias) <- alias_path_loop fuel (primary_parent_scope self) [name self];;
      if have_alias : bool then Ok (Some (join "." (rev l))) else Ok None
  end.

(** ** Variable substitution (common.py, variable_substitution_proxy) *)

Record variable_substitution_fragment := mk_fragment {
  is_variable : bool;
  fragment_value : string }.

Record proxy := mk_proxy {
  proxy_word : word;
  force_string : bool;
  have_variables : bool;
  fragments : list variable_substitution_fragment }.

(** Where the scanner of [__init__] stands: in the outer loop, just after a
    [$], inside [$(...)], or inside a [$name] run. *)
Inductive scan_state := InText | AfterDollar | InParen | InName.

Definition append_char (s : string) (c : ascii) : string :=
  s +:+ String c EmptyString.

(** The [if len(fragment_value) > 0: self.fragments.append(...)] step. *)
Definition flush_literal (fv : string) (frs : list variable_substitution_fragment)
  : list variable_substitution_fragment :=
  if 0 <? String.length fv then frs ++ [mk_fragment false fv] else frs.

(** The character loop of [__init__]. [cs] is what the character iterator
    has not yet produced, [fv] is [fragment_value], [frs] is [self.fragments]
    and [hv] is [self.have_variables]. A [$name] run that stops at a character
    hands that same character to the outer loop. *)
Fixpoint scan (w : word) (st : scan_state) (cs : list ascii) (fv : string)
    (frs : list variable_substitution_fragment) (hv : bool)
  : result (list variable_substitution_fragment * bool) :=
  match cs with
  | [] =>
      match st with
      | InText => Ok (flush_literal fv frs, hv)
      | AfterDollar => Raise (SyntaxError "$ must be followed by an identifier: " w)
      | InParen => Raise (SyntaxError ("missing " +:+ dquote +:+ ")" +:+ dquote +:+ ": ") w)
      | InName => Ok (frs ++ [mk_fragment true fv], hv)
      end
  | c :: cs' =>
      let text c cs' fv frs hv :=
        if Ascii.eqb c "$" then scan w AfterDollar cs' "" (flush_literal fv frs) true
        else match cs' with
             | c' :: cs'' =>
                 if Ascii.eqb c "\" && Ascii.eqb c' "$"
                 then scan w InText cs'' (append_char (append_char fv c) c') frs hv
                 else scan w InText cs' (append_char fv c) frs hv
             | [] => scan w InText cs' (append_char fv c) frs hv
             end in
      match st with
      | InText => text c cs' fv frs hv
      | AfterDollar =>
          if Ascii.eqb c "(" then scan w InParen cs' fv frs hv
          else if negb (standard_identifier_start_characters c)
          then Raise (SyntaxError "improper variable name " w)
          else scan w InName cs' (String c EmptyString) frs hv
      | InParen =>
          if Ascii.eqb c ")" then
            let offs := if startswith fv "." then 1 else 0 in
            if negb (is_standard_identifier (str_drop offs fv))
            then Raise (SyntaxError "improper variable name " w)
            else scan w InText cs' "" (frs ++ [mk_fragment true fv]) hv
          else scan w InParen cs' (append_char fv c) frs hv
      | InName =>
          if Ascii.eqb c "." || negb (standard_identifier_continuation_characters c)
          then text c cs' "" (frs ++ [mk_fragment true fv]) hv
          else scan w InName cs' (append_char fv c) frs hv
      end
  end.

Definition variable_substitution_proxy (w : word) : result proxy :=
  '(frs, hv) <- scan w InText (String.list_ascii_of_string (value w)) "" [] false;;
  Ok (mk_proxy w
        (match quote_token w with Some _ => true | None => false end
         || (1 <? length frs))
        hv frs).

(** [tokenizer.word(value=v, quote_token=...)] with the double quote as
    quote token. *)
Definition quoted_word (v : string) : word := mk_word v (Some dquote) None None.

(** What [resolve_variables] stores in [fragment.result]: one word, or the
    list of words of a variable that is spliced in. *)
Inductive fragment_result :=
  | ResWord (w : word)
  | ResWords (ws : list word).

Definition get_new_words (p : proxy) (results : list fragment_result)
  : result (list word) :=
  if negb (have_variables p) then Ok [proxy_word p]
  else if negb (force_string p) then
    match results with
    | ResWords ws :: _ => Ok ws
    | ResWord _ :: _ => Raise TypeError
    | [] => Raise IndexError
    end
  else
    vs <- (fix values (rs : list fragment_result) : result (list string) :=
             match rs with
             | [] => Ok []
             | ResWord w :: rs' => vs <- values rs';; Ok (value w :: vs)
             | ResWords _ :: _ => Raise AttributeError
             end) results;;
    Ok [quoted_word (join "" vs)].

(** ** Lexical lookup (scope.lexical_get) *)

Fixpoint root_scope (fuel : nat) (self : object) : result object :=
  p <- deref (primary_parent_scope self);;
  match p with
  | None => Ok self
  | Some s =>
      match fuel with
      | O => Raise RecursionError
      | S fuel' => root_scope fuel' s
      end
  end.

(** The [for object in self.objects] loop that collects the candidates. *)
Fixpoint lexical_candidates (objs : list object) (path : string)
    (stop_id : option nat) (candidates : list object) : result (list object) :=
  match objs with
  | [] => Ok candidates
  | o :: rest =>
      let continue :=
        if is_definition o then
          if String.eqb (name o) path
          then lexical_candidates rest path stop_id (candidates ++ [o])
          else lexical_candidates rest path stop_id candidates
        else if String.eqb (name o) path || startswith path (name o +:+ ".")
          then lexical_candidates rest path stop_id (candidates ++ [o])
          else lexical_candidates rest path stop_id candidates in
      match primary_id o with
      | None => continue
      | Some i =>
          match stop_id with
          | None => Raise TypeError
          | Some stop => if stop <=? i then Ok candidates else continue
          end
      end
  end.

Fixpoint lexical_get (fuel : nat) (self : object) (path : string)
    (stop_id : option nat) (search_up : bool) : result (option object) :=
  match fuel with
  | O => Raise RecursionError
  | S fuel' =>
      '(self, path) <-
        (if startswith path "."
         then r <- root_scope fuel' self;; Ok (r, str_drop 1 path)
         else Ok (self, path));;
      candidates <- lexical_candidates (objects self) path stop_id [];;
      found <-
        (fix pop (cands : list object) : result (option object) :=
           match cands with
           | [] => Ok None
           | o :: cands' =>
               if String.eqb (name o) path then Ok (Some o)
               else
                 r <- lexical_get fuel' o
                        (str_drop (String.length (name o) + 1) path) stop_id false;;
                 match r with
                 | Some x => Ok (Some x)
                 | None => pop cands'
                 end
           end) (rev candidates);;
      match found with
      | Some o => Ok (Some o)
      | None =>
          if negb search_up then Ok None
          else
            p <- deref (primary_parent_scope self);;
            match p with
            | None => Ok None
            | Some s => lexical_get fuel' s path stop_id true
            end
      end
  end.

(** ** definition.resolve_variables *)

(** The lexical lookup of one variable: [None] when the definition has no
    parent scope or [lexical_get] finds nothing. *)
Definition lookup_variable (fuel : nat) (self : definition) (path : string)
  : result (option object) :=
  pps <- deref (def_primary_parent_scope self);;
  match pps with
  | None => Ok None
  | Some parent => lexical_get fuel parent path (def_primary_id self) true
  end.

(** One pass of the inner [for fragment in substitution_proxy.fragments]
    loop body. [recur] is the call [substitution_source.resolve_variables()]. *)
Definition resolve_fragment (fuel : nat)
    (recur : definition -> result definition)
    (self : definition) (diff_mode : bool) (w : word) (p : proxy)
    (fragment : variable_substitution_fragment) : result fragment_result :=
  if negb (is_variable fragment) then
    Ok (ResWord (quoted_word (fragment_value fragment)))
  else
    substitution_source <- lookup_variable fuel self (fragment_value fragment);;
    variable_words <-
      match substitution_source with
      | None => Ok None
      | Some (Scope _ _) => Raise (NotADefinition (fragment_value fragment) w)
      | Some (Def src) => r <- recur src;; Ok (Some (def_words r))
      end;;
    variable_words <-
      match variable_words with
      | Some ws => Ok ws
      | None =>
          let env_var :=
            if diff_mode then Some ("$" +:+ fragment_value fragment)
            else environ (fragment_value fragment) in
          match env_var with
          | Some v =>
              Ok [mk_word v (Some dquote) None
                    (Some ("environment: " +:+ dquote +:+ fragment_value fragment
                           +:+ dquote))]
          | None => Raise (UndefinedVariable (fragment_value fragment) w)
          end
      end;;
    if negb (force_string p) then Ok (ResWords variable_words)
    else Ok (ResWord (quoted_word (join " " (map value variable_words)))).

Fixpoint resolve_fragments (fuel : nat)
    (recur : definition -> result definition)
    (self : definition) (diff_mode : bool) (w : word) (p : proxy)
    (frs : list variable_substitution_fragment) : result (list fragment_result) :=
  match frs with
  | [] => Ok []
  | f :: frs' =>
      r <- resolve_fragment fuel recur self diff_mode w p f;;
      rs <- resolve_fragments fuel recur self diff_mode w p frs';;
      Ok (r :: rs)
  end.

(** The body of the [for word in self.words] loop: the words that are
    appended to [new_words]. *)
Definition resolve_word (fuel : nat)
    (recur : definition -> result definition)
    (self : definition) (diff_mode : bool) (w : word) : result (list word) :=
  if match quote_token w with Some q => String.eqb q squote | None => false end
  then Ok [w]
  else
    p <- variable_substitution_proxy w;;
    results <- resolve_fragments fuel recur self diff_mode w p (fragments p);;
    get_new_words p results.

Fixpoint resolve_words (fuel : nat)
    (recur : definition -> result definition)
    (self : definition) (diff_mode : bool) (ws : list word) : result (list word) :=
  match ws with
  | [] => Ok []
  | w :: ws' =>
      nw <- resolve_word fuel recur self diff_mode w;;
      rest <- resolve_words fuel recur self diff_mode ws';;
      Ok (nw ++ rest)
  end.

Fixpoint resolve_variables (fuel : nat) (self : definition) (diff_mode : bool)
  : result definition :=
  let recur src :=
    match fuel with
    | O => Raise RecursionError
    | S fuel' => resolve_variables fuel' src false
    end in
  new_words <- resolve_words fuel recur self diff_mode (def_words self);;
  definition_customized_copy self None (Some new_words).

(** ** Lookup by path (scope.get_without_substitution, scope.get) *)

Fixpoint get_without_substitution (fuel : nat) (self : object) (path : string)
    (alias_path : option string) : result (list object) :=
  match self with
  | Def d =>
      if def_is_disabled d
         || (negb (String.eqb (def_name d) path)
             && match alias_path with
                | None => true
                | Some a => negb (String.eqb (def_name d) a)
                end)
      then Ok []
      else Ok [self]
  | Scope h objs =>
      let children path :=
        (fix extend (l : list object) : result (list object) :=
           match l with
           | [] => Ok []
           | o :: l' =>
               if is_disabled o then extend l'
               else
                 r <- get_without_substitution fuel o path alias_path;;
                 rs <- extend l';;
                 Ok (r ++ rs)
           end) objs in
      if scope_is_disabled h then Ok []
      else if String.length (scope_name h) =? 0 then
        if String.length path =? 0 then Ok objs else children path
      else if String.eqb (scope_name h) path
              || match alias_path with
                 | Some a => String.eqb (scope_name h) a
                 | None => false
                 end
      then Ok [self]
      else if startswith path (scope_name h +:+ ".")
      then children (str_drop (String.length (scope_name h) + 1) path)
      else match alias_path with
           | Some a =>
               fp <- full_path fuel self;;
               if startswith fp a
               then children (str_drop (String.length (scope_name h) + 1) path)
               else children path
           | None => Ok []
           end
  end.

Definition empty_header (n : string) : scope_header :=
  mk_scope_header n None None false 0%Z "" false None None None None None None
    None None None None None None.

(** [self.get(path, with_substitution=False, alias_path)], the only way the
    fetch code calls it. *)
Definition get (fuel : nat) (self : object) (path : string)
    (alias_path : option string) : result object :=
  l <- get_without_substitution fuel self path alias_path;;
  scope_init (empty_header "") (Some l).

(** [self.active_objects()] *)
Definition active_objects (self : object) : list object :=
  filter (fun o => is_disabled o = false) (objects self).

(** ** Iterating a master (scope.master_active_objects)

    The generator is consumed by a [for] loop whose body may itself raise or
    warn, so it is rendered as the loop: [body] runs on every object the
    generator yields, in order, threading the loop's state. [i] is the position
    of the object in [self.objects]; [names_object] is the generator's
    dictionary, which remembers the first active object of each name. *)
Section MasterActiveObjects.
Context {T : Type -> Type}.
Variable bindT : forall A B, T A -> (A -> T B) -> T B.
Variable liftT : forall A, result A -> T A.
Context {St : Type}.
Variable fuel : nat.
Variable body : nat -> object -> St -> T St.

Fixpoint master_active_fold (objs : list object) (i : nat)
    (names_object : gmap string (nat * object)) (st : St) : T St :=
  match objs with
  | [] => liftT _ (Ok st)
  | o :: rest =>
      if is_disabled o then master_active_fold rest (S i) names_object st
      else
        let '(mi, master) := default (i, o) (names_object !! name o) in
        let names_object' :=
          match names_object !! name o with
          | Some _ => names_object
          | None => <[name o := (i, o)]> names_object
          end in
        let yield :=
          bindT _ _ (body i o st)
            (fun st' => master_active_fold rest (S i) names_object' st') in
        if negb (mi =? i) then
          if truthy (multiple master)
          then master_active_fold rest (S i) names_object' st
          else if is_definition o then
            liftT _
              (p1 <- full_path fuel master;;
               p2 <- full_path fuel o;;
               Raise (DuplicateDefinitions p1 (where_str master) p2 (where_str o)))
          else yield
        else yield
  end.
End MasterActiveObjects.

(** The objects the generator yields when run to its end, with their
    positions, or the exception it raises. *)
Definition master_active_objects (fuel : nat) (self : object)
  : result (list (nat * object)) :=
  master_active_fold (@bind) (fun _ r => r) fuel
    (fun i o acc => Ok (acc ++ [(i, o)])) (objects self) 0 ∅ [].

(** ** The value graph (class scope_extract) *)

(** [getattr(self, name, scope_extract_attribute_error)] on the instance
    dictionary; [None] is the error marker. *)
Fixpoint attr_get (attrs : list (string * pyobj)) (n : string) : option pyobj :=
  match attrs with
  | [] => None
  | (k, v) :: attrs' => if String.eqb k n then Some v else attr_get attrs' n
  end.

(** [object.__setattr__(self, name, value)]: a dictionary keeps the place of
    a key that is assigned again. *)
Fixpoint attr_set (attrs : list (string * pyobj)) (n : string) (v : pyobj)
  : list (string * pyobj) :=
  match attrs with
  | [] => [(n, v)]
  | (k, v') :: attrs' =>
      if String.eqb k n then (k, v) :: attrs' else (k, v') :: attr_set attrs' n v
  end.

Definition is_py_none (v : pyobj) : bool :=
  match v with PyNone => true | _ => false end.

(** [self.__phil_join__(other)], on the dictionary of [self]. *)
Fixpoint phil_join (self_attrs : list (string * pyobj)) (other : pyobj)
  : result (list (string * pyobj)) :=
  match other with
  | PyExtract _ _ other_attrs =>
      (fix items (l : list (string * pyobj)) (self_attrs : list (string * pyobj))
         : result (list (string * pyobj)) :=
         match l with
         | [] => Ok self_attrs
         | (key, other_value) :: l' =>
             if is_reserved_identifier key then items l' self_attrs
             else
               match attr_get self_attrs key with
               | None | Some PyNone =>
                   items l' (attr_set self_attrs key other_value)
               | Some (PyExtractList opt self_items) =>
                   match other_value with
                   | PyExtractList _ other_items =>
                       let joined :=
                         self_items ++ filter (fun x => is_py_none x = false) other_items in
                       let joined :=
                         match joined with
                         | PyNone :: (_ :: _) as tl => tl
                         | _ => joined
                         end in
                       items l' (attr_set self_attrs key (PyExtractList opt joined))
                   | _ => Raise AssertionError
                   end
               | Some (PyExtract n c sub_attrs) =>
                   sub_attrs' <- phil_join sub_attrs other_value;;
                   items l' (attr_set self_attrs key (PyExtract n c sub_attrs'))
               | Some _ => items l' (attr_set self_attrs key other_value)
               end
         end) other_attrs self_attrs
  | _ => Raise AttributeError
  end.

Definition contains_char (c : ascii) (s : string) : bool :=
  existsb (Ascii.eqb c) (String.list_ascii_of_string s).

(** [self.__phil_set__(name, optional, multiple, value)]; the value [None]
    of the model stands for the marker [scope_extract_is_disabled]. *)
Definition phil_set (attrs : list (string * pyobj)) (n : string)
    (opt mult : option bool) (v : option pyobj)
  : result (list (string * pyobj)) :=
  if contains_char dot n then Raise AssertionError
  else
    let node := attr_get attrs n in
    if negb (truthy mult) then
      let v := match v with None => PyNone | Some v => v end in
      match node, v with
      | Some (PyExtract nn nc node_attrs), PyExtract _ _ _ =>
          node_attrs' <- phil_join node_attrs v;;
          Ok (attr_set attrs n (PyExtract nn nc node_attrs'))
      | _, _ => Ok (attr_set attrs n v)
      end
    else
      let attrs' :=
        match node with
        | None => attr_set attrs n (PyExtractList opt [])
        | Some _ => attrs
        end in
      let node := match node with None => PyExtractList opt [] | Some x => x end in
      match v with
      | None => Ok attrs'
      | Some v =>
          if negb (is_py_none v)
             || negb match opt with Some true => true | _ => false end
          then match node with
               | PyExtractList o items =>
                   Ok (attr_set attrs' n (PyExtractList o (items ++ [v])))
               | PyList items => Ok (attr_set attrs' n (PyList (items ++ [v])))
               | _ => Raise AttributeError
               end
          else Ok attrs'
      end.

(** ** extract (definition.extract, scope.extract) *)

Definition definition_extract (d : definition) : result pyobj :=
  match def_type d with
  | None => Ok (py_of_strings (strings_from_words (def_words d)))
  | Some c =>
      match type_from_words c with
      | None => Raise (NoFromWords (def_where_str d))
      | Some from_words => from_words (def_words d) d
      end
  end.

(** The loop of [scope.extract] over [self.objects]; [extract_object] is
    [object.extract]. *)
Fixpoint extract_objects (extract_object : object -> result pyobj)
    (l : list object) (attrs : list (string * pyobj))
  : result (list (string * pyobj)) :=
  match l with
  | [] => Ok attrs
  | o :: l' =>
      if (is_template o <? 0)%Z then extract_objects extract_object l' attrs
      else
        v <- (if is_disabled o || (0 <? is_template o)%Z then Ok None
              else x <- extract_object o;; Ok (Some x));;
        attrs' <- phil_set attrs (name o) (optional o) (multiple o) v;;
        extract_objects extract_object l' attrs'
  end.

Fixpoint extract (self : object) : result pyobj :=
  match self with
  | Def d => definition_extract d
  | Scope h objs =>
      attrs <- extract_objects extract objs [];;
      Ok (PyExtract (scope_name h) (scope_call h) attrs)
  end.

(** ** format (definition.format, scope.format) *)

Definition definition_format (d : definition) (python_object : pyobj)
  : result definition :=
  words <-
    match def_type d with
    | None => strings_as_words python_object
    | Some c =>
        match type_as_words c with
        | None => Raise (NoAsWords (def_where_str d))
        | Some as_words => as_words python_object d
        end
    end;;
  definition_customized_copy d None (Some words).

(** [len(x)] and [for y in x] on a value. *)
Definition py_len (v : pyobj) : result nat :=
  match v with
  | PyList l | PyExtractList _ l => Ok (length l)
  | PyStr s => Ok (String.length s)
  | _ => Raise TypeError
  end.

Definition py_iter (v : pyobj) : result (list pyobj) :=
  match v with
  | PyList l | PyExtractList _ l => Ok l
  | PyStr s => Ok (map (fun c => PyStr (String c EmptyString)) (String.list_ascii_of_string s))
  | _ => Raise TypeError
  end.

(** [python_object_i.__phil_get__(name)]; only a [scope_extract] has it. *)
Definition phil_get (v : pyobj) (n : string) : result (option pyobj) :=
  match v with
  | PyExtract _ _ attrs =>
      if contains_char dot n then Raise AssertionError else Ok (attr_get attrs n)
  | _ => Raise AttributeError
  end.

(** The state of the loop of [scope.format]: [multiple_scopes_done] and
    [result]. *)
Definition format_state : Type := gmap string bool * list object.

(** The part of the loop body of [scope.format] that reads the value graph.
    [format_object] is [object.format]. *)
Definition format_from (format_object : pyobj -> result object)
    (o : object) (python_object : pyobj) (st : format_state) : result format_state :=
  match python_object with
  | PyNone => r <- format_object PyNone;; Ok (st.1, st.2 ++ [r])
  | PyAuto => r <- format_object PyAuto;; Ok (st.1, st.2 ++ [r])
  | _ =>
      python_objects <-
        match python_object with
        | PyExtract _ _ _ => Ok [python_object]
        | _ => py_iter python_object
        end;;
      (fix each (l : list pyobj) (st : format_state) : result format_state :=
         match l with
         | [] => Ok st
         | python_object_i :: l' =>
             sub <- phil_get python_object_i (name o);;
             match sub with
             | None => each l' st
             | Some sub_python_object =>
                 if negb (truthy (multiple o)) then
                   r <- format_object sub_python_object;;
                   each l' (st.1, st.2 ++ [r])
                 else
                   n <- py_len sub_python_object;;
                   if n =? 0 then
                     obj <- object_copy o;;
                     each l' (st.1, st.2 ++ [set_is_template obj 1%Z])
                   else
                     st1 <-
                       (if negb (default true (st.1 !! name o)) then
                          obj <- object_copy o;;
                          Ok (<[name o := true]> st.1,
                              st.2 ++ [set_is_template obj (-1)%Z])
                        else Ok st);;
                     items <- py_iter sub_python_object;;
                     formatted <-
                       (fix subs (l : list pyobj) : result (list object) :=
                          match l with
                          | [] => Ok []
                          | x :: l' =>
                              r <- format_object x;;
                              rs <- subs l';;
                              Ok (r :: rs)
                          end) items;;
                     each l' (st1.1, st1.2 ++ formatted)
             end
         end) python_objects st
  end.

Fixpoint format (fuel : nat) (self : object) (python_object : pyobj)
  : result object :=
  match self with
  | Def d => r <- definition_format d python_object;; Ok (Def r)
  | Scope h objs =>
      st <-
        master_active_fold (@bind) (fun _ r => r) fuel
          (fun _ o (st : format_state) =>
             if truthy (multiple o) && is_scope o then
               match st.1 !! name o with
               | Some _ => Ok st
               | None =>
                   format_from (format fuel o) o python_object
                     (<[name o := false]> st.1, st.2)
               end
             else format_from (format fuel o) o python_object st)
          objs 0 ∅ (∅, []);;
      scope_customized_copy h objs None (Some st.2)
  end.

(** [self.extract_format(source)] *)
Definition extract_format (fuel : nat) (self : object) (source : option object)
  : result object :=
  let source := match source with None => self | Some s => s end in
  v <- extract source;;
  format fuel self v.

(** ** Serialization (definition.show, scope.show, as_str)

    [as_str()] is called by the fetch code with its default arguments:
    [expert_level=None], [attributes_level=0] (so that [show_attributes]
    prints nothing) and [print_width=None]. The embedding is [show] under
    these arguments, returning the text written to [out]. *)

Definition default_print_width : nat := 79.
Definition newline : string := String (ascii_of_nat 10) EmptyString.

Fixpoint spaces (n : nat) : string :=
  match n with O => EmptyString | S n' => String " " (spaces n') end.

(** [prefix[:-2]] *)
Definition drop_last_two (s : string) : string :=
  String.substring 0 (String.length s - 2) s.

Definition definition_show (d : definition) (merged_names : list string)
    (prefix : string) : string :=
  if (def_is_template d <? 0)%Z then ""
  else if truthy (def_deprecated d) then ""
  else
    let hash := if def_is_disabled d then "!" else "" in
    let line := prefix +:+ hash +:+ join "." (merged_names ++ [def_name d]) in
    let line := if negb (String.eqb (def_name d) "include") then line +:+ " =" else line in
    let indent := spaces (String.length line) in
    let '(out, line) :=
      fold_left
        (fun (acc : string * string) (w : word) =>
           let '(out, line) := acc in
           let line_plus := line +:+ " " +:+ word_str w in
           if (default_print_width - 2 <? String.length line_plus)
              && (String.length indent <? String.length line)
           then (out +:+ line +:+ " \" +:+ newline, indent +:+ " " +:+ word_str w)
           else (out, line_plus))
        (def_words d) ("", line) in
    out +:+ line +:+ newline.

Fixpoint show (self : object) (merged_names : list string) (prefix : string)
  : result string :=
  match self with
  | Def d => Ok (definition_show d merged_names prefix)
  | Scope h objs =>
      if (scope_is_template h <? 0)%Z then Ok ""
      else
        let children merged_names prefix :=
          (fix each (l : list object) : result string :=
             match l with
             | [] => Ok ""
             | o :: l' =>
                 s1 <- show o merged_names prefix;;
                 s2 <- each l';;
                 Ok (s1 +:+ s2)
             end) objs in
        if String.length (scope_name h) =? 0 then
          match merged_names with
          | [] => children merged_names prefix
          | _ :: _ => Raise AssertionError
          end
        else if match objs with o :: _ => merge_names o | [] => false end
        then children (merged_names ++ [scope_name h]) prefix
        else
          let hash := if scope_is_disabled h then "!" else "" in
          let merged_name := join "." (merged_names ++ [scope_name h]) in
          let head := prefix +:+ hash +:+ merged_name +:+ " {" +:+ newline in
          body <- children [] (prefix +:+ "  ");;
          Ok (head +:+ body +:+ drop_last_two (prefix +:+ "  ") +:+ "}" +:+ newline)
  end.

Definition as_str (self : object) : result string := show self [] "".

(** ** Fetching a definition (definition.fetch_value, fetch_diff, fetch) *)

(** The end of [fetch_value]: the words of the resolved source go through
    the fetch hook of the type when it has one, and otherwise replace the
    words of a copy of the master. *)
Definition fetch_words (self : definition) (source_words : list word)
    (skip_incompatible_objects : bool) : result (option definition) :=
  match
    match def_type self with
    | Some c => option_map (fun hook => (c, hook)) (type_fetch c)
    | None => None
    end
  with
  | None =>
      r <- definition_customized_copy self None (Some source_words);;
      Ok (Some r)
  | Some (c, hook) =>
      if String.eqb (phil_type c) "choice"
      then hook source_words self (Some skip_incompatible_objects)
      else hook source_words self None
  end.

Definition fetch_value (fuel : nat) (self : definition) (source : object)
    (diff_mode skip_incompatible_objects : bool) : M (option definition) :=
  match source with
  | Scope sh _ =>
      if skip_incompatible_objects
      then lift (r <- definition_copy self;; Ok (Some r))
      else lift (Raise (IncompatibleDefinitionScope (def_name self)
                          (def_where_str self) (scope_name sh) (scope_where_str sh)))
  | Def src =>
      source <~ lift (resolve_variables fuel src diff_mode);;
      proceed <~
        (if truthy (def_deprecated self) then
           if negb (strings_value_eqb (strings_from_words (def_words source))
                      (strings_from_words (def_words self)))
           then
             p <~ lift (full_path fuel (Def self));;
             _ <~ warn PhilDeprecationWarning
                    (p +:+ " is deprecated - not recommended for use.");;
             ret true
           else ret false
         else ret true);;
      if negb proceed then ret None
      else lift (fetch_words self (def_words source) skip_incompatible_objects)
  end.

(** [self.extract_format(source).as_str()], the canonical serialized form. *)
Definition canonical_form (fuel : nat) (self : object) (source : option object)
  : result string :=
  r <- extract_format fuel self source;;
  as_str r.

Definition fetch_diff (fuel : nat) (self : definition) (source : object)
    (skip_incompatible_objects : bool) : M (option definition) :=
  r <~ fetch_value fuel self source true skip_incompatible_objects;;
  result_as_str <~ lift (canonical_form fuel (Def self) (option_map Def r));;
  self_as_str <~ lift (canonical_form fuel (Def self) None);;
  if String.eqb result_as_str self_as_str then ret None else ret r.

Definition definition_fetch (fuel : nat) (self : definition) (source : object)
    (diff skip_incompatible_objects : bool) : M (option definition) :=
  if diff then fetch_diff fuel self source skip_incompatible_objects
  else fetch_value fuel self source false skip_incompatible_objects.

(** ** Fetching a scope (scope.fetch) *)

(** The loop that builds [combined_objects] from [sources]. *)
Fixpoint combine_sources (h : scope_header) (sources : list object)
    (skip_incompatible_objects : bool) : result (list object) :=
  match sources with
  | [] => Ok []
  | source :: rest =>
      if negb (String.eqb (name source) (scope_name h)) then Raise AssertionError
      else
        match source with
        | Def d =>
            if skip_incompatible_objects
            then combine_sources h rest skip_incompatible_objects
            else Raise (IncompatibleScopeDefinition (scope_name h) (scope_where_str h)
                          (def_name d) (def_where_str d))
        | Scope _ objs =>
            r <- combine_sources h rest skip_incompatible_objects;;
            Ok (objs ++ r)
        end
  end.

(** [master_object.fetch(source=..., diff=..., skip_incompatible_objects=...)]
    by the kind of the master object; [recur] is [scope.fetch] of the master
    object when it is a scope. *)
Definition object_fetch (fuel : nat)
    (recur : list object -> bool -> bool -> M object)
    (master_object source : object) (diff skip_incompatible_objects : bool)
  : M (option object) :=
  match master_object with
  | Def d =>
      r <~ definition_fetch fuel d source diff skip_incompatible_objects;;
      ret (option_map Def r)
  | Scope _ _ =>
      r <~ recur [source] diff skip_incompatible_objects;;
      ret (Some r)
  end.

(** The loop over the matching sources for a master definition that is not
    multiple: every match is fetched, the last result stays. *)
Fixpoint fetch_last (fuel : nat) (d : definition) (matching : list object)
    (diff skip_incompatible_objects : bool) (result_object : option object)
  : M (option object) :=
  match matching with
  | [] => ret result_object
  | matching_source :: rest =>
      r <~ definition_fetch fuel d matching_source diff skip_incompatible_objects;;
      fetch_last fuel d rest diff skip_incompatible_objects (option_map Def r)
  end.

(** The state of the loops of the multiple branch: [processed_as_str]
    (with -1 for a form that is suppressed) and [result_objs]. *)
Definition multiple_state : Type := gmap string Z * list (option object).

(** The body of the loop over the candidates of a multiple master object. *)
Definition fetch_candidate (fuel : nat)
    (recur : list object -> bool -> bool -> M object)
    (master_object : object) (master_as_str : string)
    (diff skip_incompatible_objects from_master : bool)
    (st : multiple_state) (matching_source : object) : M multiple_state :=
  candidate <~
    object_fetch fuel recur master_object matching_source diff
      skip_incompatible_objects;;
  if diff && match candidate with
             | Some c => is_scope master_object && (length (objects c) =? 0)
             | None => negb (is_scope master_object)
             end
  then ret st
  else
    candidate_as_str <~ lift (canonical_form fuel master_object candidate);;
    if String.eqb candidate_as_str master_as_str then ret st
    else
      match st.1 !! candidate_as_str with
      | Some (-1)%Z => ret st
      | prev_index =>
          result_objs <~
            lift match prev_index with
                 | Some i =>
                     if (Z.to_nat i <? length st.2)
                     then Ok (<[Z.to_nat i := None]> st.2)
                     else Raise IndexError
                 | None => Ok st.2
                 end;;
          if diff && from_master
          then ret (<[candidate_as_str := (-1)%Z]> st.1, result_objs)
          else ret (<[candidate_as_str := Z.of_nat (length result_objs)]> st.1,
                    result_objs ++ [candidate])
      end.

Fixpoint fetch_candidates (fuel : nat)
    (recur : list object -> bool -> bool -> M object)
    (master_object : object) (master_as_str : string)
    (diff skip_incompatible_objects from_master : bool)
    (matching : list object) (st : multiple_state) : M multiple_state :=
  match matching with
  | [] => ret st
  | matching_source :: rest =>
      st' <~ fetch_candidate fuel recur master_object master_as_str diff
               skip_incompatible_objects from_master st matching_source;;
      fetch_candidates fuel recur master_object master_as_str diff
        skip_incompatible_objects from_master rest st'
  end.

(** The template marker that precedes the copies of a multiple object. *)
Definition template_marker (master_object : object)
    (processed_as_str : gmap string Z) : result object :=
  obj <- object_copy master_object;;
  Ok (set_is_template obj
        match optional master_object with
        | Some false => 0%Z
        | _ => if size processed_as_str =? 0 then 1%Z else (-1)%Z
        end).

(** The path under which the sources are searched for a master object. *)
Definition child_path (h : scope_header) (master_object : object) : string :=
  if String.length (scope_name h) =? 0 then name master_object
  else scope_name h +:+ "." +:+ name master_object.

(** What the branch for an object that is not multiple appends to
    [result_objects], given the outcome of the fetch. *)
Definition keep_or_default (master_object : object) (diff : bool)
    (result_object : option object) : M (list object) :=
  match result_object with
  | Some r => ret [r]
  | None =>
      if negb diff && negb (deprecated master_object)
      then c <~ lift (object_copy master_object);; ret [c]
      else ret []
  end.

(** The body of the loop of [scope.fetch] for the master object at position
    [i]: the objects it appends to [result_objects]. [h] and [objs] are the
    master scope, [source] is the copy of it that holds the combined source
    objects. *)
Definition fetch_master_object (fuel : nat)
    (recur : list object -> bool -> bool -> M object)
    (h : scope_header) (objs : list object) (source : object)
    (i : nat) (master_object : object)
    (diff skip_incompatible_objects : bool) : M (list object) :=
  let path := child_path h master_object in
  ap <~ lift (alias_path fuel master_object);;
  matching_sources <~ lift (get fuel source path ap);;
  if negb (truthy (multiple master_object)) then
    result_object <~
      match master_object with
      | Def d =>
          fetch_last fuel d (active_objects matching_sources) diff
            skip_incompatible_objects None
      | Scope _ _ =>
          r <~ recur (active_objects matching_sources) diff skip_incompatible_objects;;
          if diff && (length (objects r) =? 0) then ret None else ret (Some r)
      end;;
    keep_or_default master_object diff result_object
  else
    master_as_str <~ lift (canonical_form fuel master_object None);;
    own <~ lift (get fuel (Scope h (delete i objs)) path None);;
    st <~ fetch_candidates fuel recur master_object master_as_str diff
            skip_incompatible_objects true (active_objects own) (∅, []);;
    st <~ fetch_candidates fuel recur master_object master_as_str diff
            skip_incompatible_objects false (active_objects matching_sources) st;;
    marker <~
      (if negb diff
       then obj <~ lift (template_marker master_object st.1);; ret [obj]
       else ret []);;
    ret (marker ++ omap id st.2).

(** [self.fetch(sources=..., diff=..., skip_incompatible_objects=...)] with
    [track_unused_definitions=False]; [source=x] is [sources=[x]], and no
    source at all is the empty list. *)
Fixpoint scope_fetch (fuel : nat) (self : object) (sources : list object)
    (diff skip_incompatible_objects : bool) {struct self} : M object :=
  match self with
  | Def _ => lift (Raise TypeError)
  | Scope h objs =>
      combined_objects <~ lift (combine_sources h sources skip_incompatible_objects);;
      source <~ lift (scope_customized_copy h objs None (Some combined_objects));;
      result_objects <~
        master_active_fold (@bindM) (@lift) fuel
          (fun i master_object result_objects =>
             new <~ fetch_master_object fuel (scope_fetch fuel master_object)
                      h objs source i master_object diff skip_incompatible_objects;;
             ret (result_objects ++ new))
          objs 0 ∅ [];;
      lift (scope_customized_copy h objs None (Some result_objects))
  end.

End Phil.

Arguments definition : clear implicits.
Arguments object : clear implicits.
Arguments pyobj : clear implicits.
Arguments Collaborators : clear implicits.

(** ** The library operations of the reference configuration *)

Definition lower_char (c : ascii) : ascii :=
  let n := nat_of_ascii c in
  if (65 <=? n) && (n <=? 90) then ascii_of_nat (n + 32) else c.

Fixpoint lower (s : string) : string :=
  match s with
  | EmptyString => EmptyString
  | String c s' => String (lower_char c) (lower s')
  end.

(** Modelled from the spec: [tokens.is_plain_none] and [tokens.is_plain_auto]
    are not among the sources; "a literal None or Auto marker" is a single
    unquoted word spelling the marker in any letter case. *)
Definition is_plain_none (words : list word) : bool :=
  match words with
  | [w] => match quote_token w with
           | None => String.eqb (lower (value w)) "none"
           | Some _ => false
           end
  | _ => false
  end.

Definition is_plain_auto (words : list word) : bool :=
  match words with
  | [w] => match quote_token w with
           | None => String.eqb (lower (value w)) "auto"
           | Some _ => false
           end
  | _ => false
  end.

(** Modelled from the spec: [converters.is_standard_identifier] is not among
    the sources; an identifier starts with a start character, continues with
    continuation characters, and each of its dotted components is again an
    identifier. *)
Definition is_simple_identifier (s : string) : bool :=
  match s with
  | EmptyString => false
  | String c s' =>
      standard_identifier_start_characters c &&
      forallb standard_identifier_continuation_characters
        (String.list_ascii_of_string s')
  end.

Definition is_standard_identifier_ref (s : string) : bool :=
  is_simple_identifier s && forallb is_simple_identifier (split dot s).

(** Modelled from the spec: [converters.strings_from_words] is not among the
    sources; the value of an untyped definition is [None] or [Auto] for the
    plain markers and otherwise the list of the words' texts. *)
Definition strings_from_words_ref (words : list word) : strings_value :=
  if is_plain_none words then SNone
  else if is_plain_auto words then SAuto
  else SStrings (map value words).

(** Modelled from the spec: [converters.strings_as_words] is not among the
    sources; it writes the markers back as plain words and a list of strings
    as one word each, quoted unless the text is a standard identifier. *)
Definition strings_as_words_ref {pyval} (python_object : pyobj pyval)
  : result (list word) :=
  match python_object with
  | PyNone => Ok [plain_word "None"]
  | PyAuto => Ok [plain_word "Auto"]
  | PyList items | PyExtractList _ items =>
      (fix go (l : list (pyobj pyval)) : result (list word) :=
         match l with
         | [] => Ok []
         | PyStr v :: l' =>
             ws <- go l';;
             Ok ((if is_standard_identifier_ref v then plain_word v
                  else mk_word v (Some dquote) None None) :: ws)
         | _ :: _ => Raise TypeError
         end) items
  | _ => Raise TypeError
  end.

(** Modelled from the spec: [str(word)] of the tokenizer is not among the
    sources; an unquoted token prints as its text, a quoted one between its
    quote characters with backslashes and that quote character escaped. *)
Fixpoint quote_python_str (q : ascii) (s : string) : string :=
  match s with
  | EmptyString => EmptyString
  | String c s' =>
      if Ascii.eqb c "\" || Ascii.eqb c q
      then String "\" (String c (quote_python_str q s'))
      else String c (quote_python_str q s')
  end.

Definition word_str_ref (w : word) : string :=
  match quote_token w with
  | None => value w
  | Some (String q _ as qs) => qs +:+ quote_python_str q (value w) +:+ qs
  | Some EmptyString => value w
  end.

(** No converter plugin is loaded: every definition is untyped. *)
#[export] Instance reference_collaborators : Collaborators Empty_set Empty_set := {
  phil_type c := match c with end;
  type_fetch c := match c with end;
  type_from_words c := match c with end;
  type_as_words c := match c with end;
  strings_from_words := strings_from_words_ref;
  strings_as_words := strings_as_words_ref;
  is_standard_identifier := is_standard_identifier_ref;
  word_str := word_str_ref;
  format_int := fun _ => true }.

Definition ddef (n : string) (ws : list word) (pid : option nat) (pps : option addr) : definition Empty_set :=
  mk_definition n ws pid pps false 0%Z "" false None None None None None None None None None None None.


Arguments scope_header : clear implicits.

(** ** Vocabulary of the statements *)

(** At least five characters, two underscores first and two last. *)
Definition dunder5 (n : string) : Prop :=
  5 <= String.length n /\ (exists r, n = "__" +:+ r) /\ (exists r, n = r +:+ "__").

(** The two exceptions whose message starts "Reserved identifier:". *)
Definition is_reserved_error (e : exn) : bool :=
  match e with
  | ReservedIdentifier _ _ | ReservedInclude _ => true
  | _ => false
  end.

(** A word that variable substitution leaves alone: single-quoted, or
    without any [$] in its text. *)
Definition is_resolved (w : word) : bool :=
  match quote_token w with
  | Some q => String.eqb q squote
  | None => false
  end
  || negb (contains_char "$" (value w)).

Section Vocabulary.

Context {conv : Type}.






End Vocabulary.

Section RoundTripVocabulary.

Context {conv pyval : Type} `{!Collaborators conv pyval}.






End RoundTripVocabulary.

Section RoundTripVocabulary2.

Context {conv pyval : Type} `{!Collaborators conv pyval}.
Variable heap : addr -> option (object conv).


End RoundTripVocabulary2.

Section FetchVocabulary.

Context {conv pyval : Type} `{!Collaborators conv pyval}.
Variable heap : addr -> option (object conv).

(** Whether a fetched candidate has the canonical serialized form [s] with
    respect to the master object. *)
Definition has_form (fuel : nat) (master_object : object conv) (s : string)
    (candidate : option (object conv)) : bool :=
  match canonical_form heap fuel master_object candidate with
  | Ok s' => String.eqb s' s
  | Raise _ => false
  end.

(** The number of entries of [result_objs] with the canonical form [s]. *)
Definition copies (fuel : nat) (master_object : object conv) (s : string)
    (result_objs : list (option (object conv))) : nat :=
  length (List.filter (has_form fuel master_object s) result_objs).

(** The number of objects of a result with the canonical form [s]. *)
Definition realized_copies (fuel : nat) (master_object : object conv)
    (s : string) (realized : list (object conv)) : nat :=
  copies fuel master_object s (map Some realized).

(** What the loops of the multiple branch keep true when [diff] is off:
    every registered form belongs to the entry at its index, and a form other
    than the master's own has one entry when registered and none otherwise. *)
Definition dedup_invariant (fuel : nat) (master_object : object conv)
    (master_as_str : string) (st : multiple_state) : Prop :=
  (forall s z, st.1 !! s = Some z ->
     s <> master_as_str
     /\ exists i e, z = Z.of_nat i /\ st.2 !! i = Some e
                    /\ canonical_form heap fuel master_object e = Ok s)
  /\ (forall s, s <> master_as_str ->
       copies fuel master_object s st.2
       = match st.1 !! s with Some _ => 1 | None => 0 end).

End FetchVocabulary.

Section FetchVocabulary2.

Context {conv pyval : Type} `{!Collaborators conv pyval}.
Variable heap : addr -> option (object conv).
Variable environ : string -> option string.

(** A matching source whose fetch against the master object returns, with
    the canonical form [s]. *)
Definition fetches_to (fuel : nat)
    (recur : list (object conv) -> bool -> bool -> M (object conv))
    (master_object : object conv) (skip : bool) (s : string)
    (src : object conv) : Prop :=
  exists c,
    outcome (object_fetch heap environ fuel recur master_object src false skip) = Ok c
    /\ canonical_form heap fuel master_object c = Ok s.

End FetchVocabulary2.

Module Scenario.

(** The trees that [parse] builds for the texts of the scenarios. The parser
    itself is an external collaborator; it hands every definition it reads to
    [scope.adopt], which wraps a dotted name in one scope per leading
    component ([merge_names] off on the outermost, [primary_id] unset) and
    keeps the last component as the name of the definition ([merge_names]
    on). Definitions are numbered from 1 in reading order, the root scope is
    number 0, and [where_str] names the input line. *)

Definition wd (v : string) (line : nat) : word := mk_word v None (Some line) None.

Definition qwd (q v : string) (line : nat) : word :=
  mk_word v (Some q) (Some line) None.

Definition input_line (line : nat) : string :=
  match line with
  | 1 => " (input line 1)"
  | 2 => " (input line 2)"
  | _ => " (input line 3)"
  end.

(** A definition adopted under a dotted name. *)
Definition dfn (n : string) (ws : list word) (pid : nat) (parent : addr)
  : definition Empty_set :=
  mk_definition n ws (Some pid) (Some parent) false 0%Z (input_line pid) true
    None None None None None None None None None None None.

(** A definition at the top level. *)
Definition top (n : string) (ws : list word) (pid : nat) (parent : addr)
  : definition Empty_set :=
  mk_definition n ws (Some pid) (Some parent) false 0%Z (input_line pid) false
    None None None None None None None None None None None.

Definition adopted (n : string) (parent : addr) : scope_header :=
  mk_scope_header n None (Some parent) false 0%Z "" false None None None None
    None None None None None None None None.

Definition root : scope_header :=
  mk_scope_header "" (Some 0) None false 0%Z "" false None None None None
    None None None None None None None None.

Definition no_environ (_ : string) : option string := None.

(** *** master "a.b=1\na.c=2", source "a.b=5" *)

Definition master_a1 : object Empty_set :=
  Scope (adopted "a" 0) [Def (dfn "b" [wd "1" 1] 1 1)].
Definition master_a2 : object Empty_set :=
  Scope (adopted "a" 0) [Def (dfn "c" [wd "2" 2] 2 2)].
Definition master : object Empty_set := Scope root [master_a1; master_a2].

Definition source_a : object Empty_set :=
  Scope (adopted "a" 10) [Def (dfn "b" [wd "5" 1] 1 11)].
Definition source : object Empty_set := Scope root [source_a].

Definition heap (a : addr) : option (object Empty_set) :=
  match a with
  | 0 => Some master
  | 1 => Some master_a1
  | 2 => Some master_a2
  | 10 => Some source
  | 11 => Some source_a
  | _ => None
  end.

Definition fetched_b : definition Empty_set := dfn "b" [wd "5" 1] 1 1.
Definition fetched_c : definition Empty_set := dfn "c" [wd "2" 2] 2 2.
Definition fetched : object Empty_set :=
  Scope root [Scope (adopted "a" 0) [Def fetched_b];
              Scope (adopted "a" 0) [Def fetched_c]].

(** *** "x = 7", "a = '$x'", "b = (double-quoted) $a" *)

Definition subst_x : definition Empty_set := top "x" [wd "7" 1] 1 0.
Definition subst_a : definition Empty_set := top "a" [qwd squote "$x" 2] 2 0.
Definition subst_b : definition Empty_set := top "b" [qwd dquote "$a" 3] 3 0.
Definition subst_root : object Empty_set :=
  Scope root [Def subst_x; Def subst_a; Def subst_b].
Definition subst_heap (a : addr) : option (object Empty_set) :=
  match a with 0 => Some subst_root | _ => None end.

Definition subst_b1 : definition Empty_set := top "b" [quoted_word "$x"] 3 0.
Definition subst_b2 : definition Empty_set := top "b" [quoted_word "7"] 3 0.

(** *** "x = $HOME/data" with HOME=/root *)


(** *** master "old=1 .deprecated=True", sources "old=1" and "old=2" *)


(** *** master "x=1", sources "x=2 / x=5" and "x=$nope / x=5" *)

Definition plain_x : definition Empty_set := top "x" [wd "1" 1] 1 0.
Definition plain_master : object Empty_set := Scope root [Def plain_x].
Definition x_2 : definition Empty_set := top "x" [wd "2" 1] 1 10.
Definition x_5 : definition Empty_set := top "x" [wd "5" 2] 2 10.
Definition source_2_5 : object Empty_set := Scope root [Def x_2; Def x_5].
Definition x_nope : definition Empty_set := top "x" [wd "$nope" 1] 1 20.
Definition x_5' : definition Empty_set := top "x" [wd "5" 2] 2 20.
Definition source_nope_5 : object Empty_set := Scope root [Def x_nope; Def x_5'].
Definition plain_heap (a : addr) : option (object Empty_set) :=
  match a with
  | 0 => Some plain_master
  | 10 => Some source_2_5
  | 20 => Some source_nope_5
  | _ => None
  end.

(** *** master "x=1 .multiple=True", two sources "x=1" and two sources "x=2" *)

Definition multiple_x : definition Empty_set :=
  mk_definition "x" [wd "1" 1] (Some 1) (Some 0) false 0%Z (input_line 1) false
    None None None None None (Some true) None None None None None.
Definition multiple_master : object Empty_set := Scope root [Def multiple_x].
Definition entry (v : string) (parent : addr) : object Empty_set :=
  Scope root [Def (top "x" [wd v 1] 1 parent)].
Definition multiple_heap (a : addr) : option (object Empty_set) :=
  match a with
  | 0 => Some multiple_master
  | 10 => Some (entry "1" 10)
  | 20 => Some (entry "1" 20)
  | 30 => Some (entry "2" 30)
  | 40 => Some (entry "2" 40)
  | _ => None
  end.

Definition template_x (t : Z) : object Empty_set :=
  Def (def_set_is_template multiple_x t).
Definition fetched_entry (v : string) : object Empty_set :=
  Def (mk_definition "x" [wd v 1] (Some 1) (Some 0) false 0%Z (input_line 1) false
         None None None None None (Some true) None None None None None).
Definition form_of (v : string) : string :=
  "x = " +:+ dquote +:+ v +:+ dquote +:+ newline.

(** *** "x = a", "x = b": one name for two definitions *)

Definition twice_1 : definition Empty_set := top "x" [wd "a" 1] 1 0.
Definition twice_2 : definition Empty_set := top "x" [wd "b" 2] 2 0.
Definition twice : object Empty_set := Scope root [Def twice_1; Def twice_2].

(** *** "x = a", "s.y = b" *)

Definition single_x : definition Empty_set := top "x" [wd "a" 1] 1 0.
Definition single_s : object Empty_set :=
  Scope (adopted "s" 0) [Def (dfn "y" [wd "b" 2] 2 1)].
Definition single : object Empty_set := Scope root [Def single_x; single_s].
Definition single_heap (a : addr) : option (object Empty_set) :=
  match a with 0 => Some single | 1 => Some single_s | _ => None end.

(** *** "include file other.phil", read as a definition named include *)

Definition include_directive : definition Empty_set :=
  mk_definition "include" [wd "file" 1; wd "other.phil" 1] (Some 1) (Some 0)
    false 0%Z (input_line 1) false
    None None None None None None None None None None None.

End Scenario.

(** * Further functions of the sources *)

(** ** Name mangling (legacy.py, mangle) *)

Definition MANGLE_LEN : nat := 256.

(** [s[:stop]]: a negative [stop] counts from the end of the text. *)
Definition py_slice_to (stop : Z) (s : string) : string :=
  let n :=
    if (stop <? 0)%Z then Z.to_nat (Z.of_nat (String.length s) + stop)
    else Z.to_nat stop in
  String.substring 0 n s.

(** The loop [while klass[i] == "_": i = i + 1] started at index [i] with
    [rest] the text from that index on: the index at which it stops, or
    [None] when it runs off the end of the class name (IndexError). *)
Fixpoint mangle_scan (rest : string) (i : nat) : option nat :=
  match rest with
  | EmptyString => None
  | String c rest' =>
      if Ascii.eqb c "_" then mangle_scan rest' (S i) else Some i
  end.

Definition mangle (name klass : string) : string :=
  if negb (startswith name "__") then name
  else if MANGLE_LEN <=? String.length name + 2 then name
  else if endswith name "__" then name
  else
    match mangle_scan klass 0 with
    | None => name
    | Some i =>
        let klass := str_drop i klass in
        let tlen := String.length klass + String.length name in
        let klass :=
          if MANGLE_LEN <? tlen
          then py_slice_to (Z.of_nat MANGLE_LEN - Z.of_nat tlen) klass
          else klass in
        "_" +:+ klass +:+ name
    end.

(** A text made of underscores only (the empty text included). *)
Definition all_underscores (s : string) : bool :=
  forallb (Ascii.eqb "_") (String.list_ascii_of_string s).

Section More.

Context {conv pyval : Type} `{!Collaborators conv pyval}.
Variable heap : addr -> option (object conv).
Variable environ : string -> option string.

(** ** Removing overridden duplicates (definition.unique, scope.unique) *)

(** The first loop of [scope.unique]: [selection[object.name] = i_object]
    over the enumerated active objects. *)
Fixpoint unique_selection (l : list (object conv)) (i_object : nat)
    (selection : gmap string nat) : gmap string nat :=
  match l with
  | [] => selection
  | o :: l' =>
      if is_disabled o then unique_selection l' i_object selection
      else unique_selection l' (S i_object) (<[name o := i_object]> selection)
  end.

(** The second loop; [unique_object] is [object.unique]. The first loop has
    stored every active name, so that [selection[object.name]] is always
    found. *)
Fixpoint unique_objects (unique_object : object conv -> result (object conv))
    (selection : gmap string nat) (l : list (object conv)) (i_object : nat)
  : result (list (object conv)) :=
  match l with
  | [] => Ok []
  | o :: l' =>
      if is_disabled o then unique_objects unique_object selection l' i_object
      else if bool_decide (selection !! name o = Some i_object) then
        r <- unique_object o;;
        rs <- unique_objects unique_object selection l' (S i_object);;
        Ok (r :: rs)
      else unique_objects unique_object selection l' (S i_object)
  end.

Fixpoint unique (self : object conv) : result (object conv) :=
  match self with
  | Def _ => Ok self
  | Scope h objs =>
      let selection := unique_selection objs 0 ∅ in
      result <- unique_objects unique selection objs 0;;
      scope_customized_copy h objs None (Some result)
  end.

(** ** scope.resolve_variables *)

(** The loop over the active objects; [resolve_object] is
    [object.resolve_variables]. *)
Fixpoint resolve_objects (resolve_object : object conv -> result (object conv))
    (l : list (object conv)) : result (list (object conv)) :=
  match l with
  | [] => Ok []
  | o :: l' =>
      if is_disabled o then resolve_objects resolve_object l'
      else
        r <- resolve_object o;;
        rs <- resolve_objects resolve_object l';;
        Ok (r :: rs)
  end.

Fixpoint scope_resolve_variables (fuel : nat) (self : object conv)
  : result (object conv) :=
  match self with
  | Def d => r <- resolve_variables heap environ fuel d false;; Ok (Def r)
  | Scope h objs =>
      result <- resolve_objects (scope_resolve_variables fuel) objs;;
      scope_customized_copy h objs None (Some result)
  end.

(** [self.get(path, with_substitution=True, alias_path)] *)
Definition get_with_substitution (fuel : nat) (self : object conv)
    (path : string) (alias_path : option string) : result (object conv) :=
  r <- get heap fuel self path alias_path;;
  scope_resolve_variables fuel r.

(** ** find_scope *)

(** The [while] loop over [current_phil.objects]; [find_in] is the recursive
    call on one child. Falling off the end of the loop returns [None]. *)
Fixpoint find_scope_loop (fuel : nat)
    (find_in : object conv -> result (option (object conv)))
    (scope_name : string) (l : list (object conv))
  : result (option (object conv)) :=
  match l with
  | [] => Ok None
  | o :: l' =>
      full_path <- full_path heap fuel o;;
      if String.eqb full_path scope_name then Ok (Some o)
      else if startswith scope_name (full_path +:+ ".") then find_in o
      else find_scope_loop fuel find_in scope_name l'
  end.

(** A definition has no [objects] slot: reading it is an AttributeError. *)
Fixpoint find_scope (fuel : nat) (current_phil : object conv)
    (scope_name : string) : result (option (object conv)) :=
  match current_phil with
  | Def _ => Raise AttributeError
  | Scope _ objs =>
      find_scope_loop fuel (fun o => find_scope fuel o scope_name) scope_name objs
  end.

(** ** Assignment to the value graph (scope_extract.__setattr__,
       scope_extract.__inject__) *)




End More.

(** ** Vocabulary of the further statements *)

(** A text without the character [$]. *)
Definition no_dollar (s : string) : bool := negb (contains_char "$" s).

(** The name of a variable as [$name] reads it: a start character, then
    continuation characters other than the dot. *)
Definition simple_variable_name (v : string) : bool :=
  match v with
  | EmptyString => false
  | String c r =>
      standard_identifier_start_characters c
      && forallb (fun x => standard_identifier_continuation_characters x
                           && negb (Ascii.eqb x "."))
           (String.list_ascii_of_string r)
  end.

(** The word that stands for the value [v] of the environment variable
    [n]. *)
Definition environment_word (n v : string) : word :=
  mk_word v (Some dquote) None
    (Some ("environment: " +:+ dquote +:+ n +:+ dquote)).

(** An object that was declared before the point [stop]: its [primary_id],
    when it has one, is smaller. *)
Definition declared_before {conv : Type} (stop : nat) (o : object conv) : Prop :=
  forall i, primary_id o = Some i -> i < stop.

Section MoreVocabulary.

Context {conv : Type}.

(** A tree in which every scope has a name, as the scopes that [adopt]
    accepts have. *)
Fixpoint named (o : object conv) : bool :=
  match o with
  | Def _ => true
  | Scope h objs => negb (String.eqb (scope_name h) "") && forallb named objs
  end.

(** The active objects of a list, each with its position counted from
    [i]. *)
Fixpoint active_with_positions (i : nat) (objs : list (object conv))
  : list (nat * object conv) :=
  match objs with
  | [] => []
  | o :: rest =>
      if is_disabled o then active_with_positions (S i) rest
      else (i, o) :: active_with_positions (S i) rest
  end.

End MoreVocabulary.

Section ValueVocabulary.

Context {conv pyval : Type} `{!Collaborators conv pyval}.




End ValueVocabulary.

Section TreeVocabulary.

Context {conv : Type}.

(** Whether a later active sibling among [l] carries the name [n]. *)
Definition overridden (n : string) (l : list (object conv)) : bool :=
  existsb (fun o => negb (is_disabled o) && String.eqb (name o) n) l.

(** The active objects of a list that no later active object of the same
    name overrides, in their order. *)
Fixpoint last_occurrences (l : list (object conv)) : list (object conv) :=
  match l with
  | [] => []
  | o :: l' =>
      if is_disabled o || overridden (name o) l' then last_occurrences l'
      else o :: last_occurrences l'
  end.

(** An object that is not disabled and holds no disabled object at any
    depth. *)
Fixpoint all_active (o : object conv) : bool :=
  negb (is_disabled o)
  && match o with
     | Def _ => true
     | Scope _ objs => forallb all_active objs
     end.

(** A function that may raise, applied to each element in order. *)
Fixpoint map_result {A B : Type} (f : A -> result B) (l : list A)
  : result (list B) :=
  match l with
  | [] => Ok []
  | a :: l' =>
      r <- f a;;
      rs <- map_result f l';;
      Ok (r :: rs)
  end.

End TreeVocabulary.

Section DefaultsVocabulary.

Context {conv pyval : Type} `{!Collaborators conv pyval}.
Variable heap : addr -> option (object conv).

(** The children of the tree of defaults: the disabled and the deprecated
    ones are left out. *)
Fixpoint defaults_objects (defaults_object : object conv -> object conv)
    (l : list (object conv)) : list (object conv) :=
  match l with
  | [] => []
  | c :: l' =>
      if is_disabled c || deprecated c then defaults_objects defaults_object l'
      else defaults_object c :: defaults_objects defaults_object l'
  end.

(** The tree of defaults of a master: its active parameters that are not
    deprecated, with [is_template] reset on the scopes. *)
Fixpoint defaults (o : object conv) : object conv :=
  match o with
  | Def d => Def d
  | Scope h objs =>
      Scope (scope_set_is_template h 0%Z) (defaults_objects defaults objs)
  end.

(** A master without multiple objects and without aliases, in which the
    active children of every scope carry pairwise different names and
    every active object passes its constructor checks. *)
Fixpoint plain_tree (fuel : nat) (o : object conv) : Prop :=
  truthy (multiple o) = false
  /\ alias_path heap fuel o = Ok None
  /\ match o with
     | Def d => definition_init d = Ok d
     | Scope h objs =>
         (forall objs', scope_init h (Some objs') = Ok (Scope h objs'))
         /\ NoDup (map name (filter (fun c => is_disabled c = false) objs))
         /\ (fix all (l : list (object conv)) : Prop :=
               match l with
               | [] => True
               | c :: l' => (is_disabled c = false -> plain_tree fuel c) /\ all l'
               end) objs
     end.

End DefaultsVocabulary.

(** ** Listing the definitions (object_locator, definition._all_definitions,
       scope._all_definitions, scope.all_definitions)

    [select_tmp] is [None] throughout: the scratch slot it selects on is
    not part of the tree model. *)

Section Locators.

Context {conv : Type}.

Record object_locator := mk_object_locator {
  loc_parent : object conv;
  loc_path : string;
  loc_object : object conv }.

(** The loop over the active objects that both [scope._all_definitions] and
    [scope.all_definitions] run; [visit] is [object._all_definitions] and
    returns what it appends to [result]. *)
Fixpoint all_definitions_objects (visit : object conv -> list object_locator)
    (suppress_multiple : bool) (l : list (object conv)) : list object_locator :=
  match l with
  | [] => []
  | o :: l' =>
      if is_disabled o
      then all_definitions_objects visit suppress_multiple l'
      else if suppress_multiple && truthy (multiple o)
      then all_definitions_objects visit suppress_multiple l'
      else visit o ++ all_definitions_objects visit suppress_multiple l'
  end.

Fixpoint _all_definitions (suppress_multiple : bool) (self parent : object conv)
    (parent_path : string) : list object_locator :=
  match self with
  | Def d =>
      if suppress_multiple && truthy (def_multiple d) then []
      else if String.eqb (def_name d) "include" then []
      else [mk_object_locator parent (parent_path +:+ def_name d) self]
  | Scope h objs =>
      let parent_path := parent_path +:+ scope_name h +:+ "." in
      all_definitions_objects
        (fun o => _all_definitions suppress_multiple o self parent_path)
        suppress_multiple objs
  end.

Definition all_definitions (suppress_multiple : bool) (self : object conv)
  : list object_locator :=
  all_definitions_objects
    (fun o => _all_definitions suppress_multiple o self "")
    suppress_multiple (objects self).

End Locators.

Arguments object_locator : clear implicits.

(** ** Further scenarios *)

Module MoreScenario.

Import Scenario.

(** *** "t { y = 1 }", the scope carrying the alias u *)

Definition aliased_y : definition Empty_set := top "y" [wd "1" 1] 1 1.
Definition aliased_t : object Empty_set :=
  Scope (mk_scope_header "t" None (Some 0) false 0%Z "" false None None None
           None None None None None None None None (Some "u"))
        [Def aliased_y].
Definition aliased_root : object Empty_set := Scope root [aliased_t].
Definition aliased_heap (a : addr) : option (object Empty_set) :=
  match a with 0 => Some aliased_root | 1 => Some aliased_t | _ => None end.

(** *** "x = 1", "!y = 2", "x = 3": a disabled definition between two of one
        name *)

Definition mixed_x1 : definition Empty_set := top "x" [wd "1" 1] 1 0.
Definition mixed_y : definition Empty_set :=
  mk_definition "y" [wd "2" 2] (Some 2) (Some 0) true 0%Z (input_line 2) false
    None None None None None None None None None None None.
Definition mixed_x3 : definition Empty_set := top "x" [wd "3" 3] 3 0.
Definition mixed : object Empty_set :=
  Scope root [Def mixed_x1; Def mixed_y; Def mixed_x3].

Definition mixed_heap (a : addr) : option (object Empty_set) :=
  match a with 0 => Some mixed | _ => None end.

(** The words [\$x] and [a$]. *)
Definition escaped_word : word := wd "\$x" 1.
Definition dangling_word : word := wd "a$" 1.

End MoreScenario.

Section DiffVocabulary.

Context {conv : Type}.

(** A scope without its children, [is_template] reset. *)
Definition emptied (o : object conv) : object conv :=
  match o with
  | Def d => Def d
  | Scope h _ => Scope (scope_set_is_template h 0%Z) []
  end.

(** The objects that [fetch] appends for one object of such a master when
    there is no source: nothing in diff mode and nothing for a deprecated
    parameter. *)
Definition plain_contribution (diff : bool) (o : object conv)
  : list (object conv) :=
  if diff || deprecated o then [] else [defaults o].

(** The contributions of the active objects of a list, one after the
    other. *)
Fixpoint plain_contributions (diff : bool) (l : list (object conv))
  : list (object conv) :=
  match l with
  | [] => []
  | c :: l' =>
      if is_disabled c then plain_contributions diff l'
      else plain_contribution diff c ++ plain_contributions diff l'
  end.

(** What [fetch] returns for such a master without sources: its defaults,
    or nothing at all when only the differences are asked for. *)
Definition plain_result (diff : bool) (o : object conv) : object conv :=
  if diff then emptied o else defaults o.

End DiffVocabulary.

Section HookVocabulary.

Context {conv pyval : Type} `{!Collaborators conv pyval}.

(** The fetch hooks of the converters return definitions under the name of
    the master they were given, as the hook of the choice type does. *)
Definition hooks_keep_names : Prop :=
  forall (c : conv) hook ws (d : definition conv) flag r,
    type_fetch c = Some hook -> hook ws d flag = Ok (Some r) ->
    def_name r = def_name d.

End HookVocabulary.

(** * Properties *)

(** ** Python string operations *)

#[local] Arguments String.append : simpl nomatch.

Lemma string_app_cons (c : ascii) (a b : string) :
  String c a +:+ b = String c (a +:+ b).
Proof. reflexivity. Qed.

Lemma string_app_assoc (a b c : string) : (a +:+ b) +:+ c = a +:+ (b +:+ c).
Proof.
  induction a as [|x a IH]; [reflexivity |].
  rewrite ?string_app_cons. now rewrite IH.
Qed.

Lemma string_app_nil_r (a : string) : a +:+ "" = a.
Proof.
  induction a as [|x a IH]; [reflexivity |].
  rewrite ?string_app_cons. now rewrite IH.
Qed.

Lemma string_length_app (a b : string) :
  String.length (a +:+ b) = String.length a + String.length b.
Proof.
  induction a as [|x a IH]; [reflexivity |].
  rewrite ?string_app_cons. simpl. now rewrite IH.
Qed.

Lemma startswith_spec (s p : string) :
  startswith s p = true <-> exists r, s = p +:+ r.
Proof.
  unfold startswith. revert s.
  induction p as [|c p IH]; intros s; simpl.
  - split; [intros _; exists s; reflexivity | intros _; now destruct s].
  - destruct s as [|c' s]; simpl.
    + split; [discriminate | intros [r Hr]].
      rewrite ?string_app_cons in Hr. discriminate.
    + destruct (Ascii.ascii_dec c c') as [->|Hne].
      * rewrite IH. split; intros [r Hr]; exists r.
        -- rewrite ?string_app_cons. congruence.
        -- rewrite ?string_app_cons in Hr. congruence.
      * split; [discriminate | intros [r Hr]].
        rewrite ?string_app_cons in Hr. congruence.
Qed.

Lemma substring_whole (p : string) : String.substring 0 (String.length p) p = p.
Proof. induction p as [|c p IH]; simpl; [reflexivity | congruence]. Qed.

Lemma substring_app_right (r p : string) :
  String.substring (String.length r) (String.length p) (r +:+ p) = p.
Proof.
  induction r as [|c r IH]; [apply substring_whole |].
  rewrite ?string_app_cons. simpl. exact IH.
Qed.

Lemma substring_split (s : string) (n m : nat) :
  n + m = String.length s ->
  s = String.substring 0 n s +:+ String.substring n m s.
Proof.
  revert n m. induction s as [|c s IH]; intros n m Hnm; simpl in *.
  - assert (n = 0) by lia. assert (m = 0) by lia. subst. reflexivity.
  - destruct n as [|n]; simpl.
    + destruct m as [|m]; [discriminate |]. simpl.
      injection Hnm as Hm. subst m. now rewrite substring_whole.
    + rewrite ?string_app_cons. f_equal. apply IH. lia.
Qed.

Lemma endswith_spec (s p : string) :
  endswith s p = true <-> exists r, s = r +:+ p.
Proof.
  unfold endswith. rewrite andb_true_iff, Nat.leb_le, String.eqb_eq. split.
  - intros [Hlen Hsub].
    exists (String.substring 0 (String.length s - String.length p) s).
    pose proof (substring_split s (String.length s - String.length p)
                  (String.length p)) as Hs.
    rewrite Hsub in Hs. apply Hs. lia.
  - intros [r ->]. rewrite string_length_app. split; [lia |].
    replace (String.length r + String.length p - String.length p)
      with (String.length r) by lia.
    apply substring_app_right.
Qed.

(** A reserved identifier is a non-empty text between two double
    underscores. *)
Lemma is_reserved_identifier_spec (s : string) :
  is_reserved_identifier s = true <->
  exists m, s = "__" +:+ m +:+ "__" /\ m <> "".
Proof.
  unfold is_reserved_identifier. split.
  - destruct (String.length s <? 5) eqn:Hlen; [discriminate |].
    apply Nat.ltb_ge in Hlen.
    rewrite andb_true_iff, startswith_spec, endswith_spec.
    intros [[r Hr] [q Hq]]. subst s.
    destruct r as [|c1 [|c2 [|c3 r]]]; simpl in Hlen; try lia.
    destruct q as [|d1 [|d2 q]]; simpl in Hq; try discriminate.
    injection Hq as <- <- Hq. exists q. split.
    + simpl. now rewrite Hq.
    + intros ->. discriminate.
  - intros [m [-> Hm]].
    destruct m as [|c m]; [congruence |].
    replace (String.length ("__" +:+ String c m +:+ "__") <? 5) with false.
    + rewrite andb_true_iff, startswith_spec, endswith_spec. split.
      * now exists (String c m +:+ "__").
      * exists ("__" +:+ String c m). now rewrite string_app_assoc.
    + symmetry. apply Nat.ltb_ge. simpl. rewrite string_length_app. simpl. lia.
Qed.

Section Properties.

Context {conv pyval : Type} `{!Collaborators conv pyval}.
Variable heap : addr -> option (object conv).
Variable environ : string -> option string.

Set Default Proof Using "Type".

(** ** Reserved identifiers *)

Lemma str_in_spec (x : string) (l : list string) :
  str_in x l = true <-> In x l.
Proof.
  unfold str_in. rewrite existsb_exists. split.
  - intros [y [Hy Heq]]. apply String.eqb_eq in Heq. now subst.
  - intros Hx. exists x. split; [assumption | apply String.eqb_refl].
Qed.

Lemma dunder5_spec (n : string) :
  is_reserved_identifier n = true <-> dunder5 n.
Proof.
  clear heap environ.
  unfold is_reserved_identifier, dunder5.
  destruct (String.length n <? 5) eqn:Hlen.
  - apply Nat.ltb_lt in Hlen. split; [discriminate | lia].
  - apply Nat.ltb_ge in Hlen.
    rewrite andb_true_iff, startswith_spec, endswith_spec. tauto.
Qed.

(** C10: constructing a definition or a scope raises the dunder-style
    reserved-identifier error exactly when the name has at least five
    characters, starts with two underscores and ends with two underscores;
    the names of four underscores and of two underscores and an x are
    accepted. *)
Theorem reserved_identifier_exactly_dunder :
  (forall d : definition conv,
     (exists n w, definition_init d = Raise (ReservedIdentifier n w))
     <-> dunder5 (def_name d))
  /\ (forall (h : scope_header) (objs : option (list (object conv))),
     (exists n w, scope_init h objs = Raise (ReservedIdentifier n w))
     <-> dunder5 (scope_name h))
  /\ (forall (d : definition conv) (ws : list word),
     definition_init (def_set_name_words d "____" ws)
       = Ok (def_set_name_words d "____" ws)
     /\ definition_init (def_set_name_words d "__x" ws)
       = Ok (def_set_name_words d "__x" ws))
  /\ (forall objs : list (object conv),
     scope_init (empty_header "____") (Some objs) = Ok (Scope (empty_header "____") objs)
     /\ scope_init (empty_header "__x") (Some objs) = Ok (Scope (empty_header "__x") objs)).
Proof.
  split; [| split; [| split]].
  - intros d. rewrite <- dunder5_spec. unfold definition_init.
    destruct (is_reserved_identifier (def_name d)).
    + split; [reflexivity | intros _; eauto].
    + split; [| discriminate]. intros [n [w Hr]].
      destruct (_ && _); discriminate.
  - intros h objs. rewrite <- dunder5_spec. unfold scope_init.
    destruct (is_reserved_identifier (scope_name h)).
    + split; [reflexivity | intros _; eauto].
    + split; [| discriminate]. intros [n [w Hr]].
      destruct (str_in _ _); [discriminate |].
      destruct (scope_sequential_format h) as [f|]; [| discriminate].
      destruct (format_int f); discriminate.
  - intros d ws. split; reflexivity.
  - intros objs. split; reflexivity.
Qed.

(** C9, as the code has it: a name with a dotted component equal to the
    reserved word makes the construction of a scope raise a
    reserved-identifier error, and that of a definition too unless the whole
    name is the reserved word, which a definition may carry (it is the
    include directive). *)
Theorem reserved_include_component (n : string) :
  In "include" (split dot n) ->
  (forall (h : scope_header) (objs : option (list (object conv))),
     scope_name h = n ->
     exists e, scope_init h objs = Raise e /\ is_reserved_error e = true)
  /\ (forall d : definition conv,
     def_name d = n ->
     if String.eqb n "include" then definition_init d = Ok d
     else exists e, definition_init d = Raise e /\ is_reserved_error e = true).
Proof.
  intros Hin. apply str_in_spec in Hin. split.
  - intros h objs <-. unfold scope_init.
    destruct (is_reserved_identifier (scope_name h)); [eauto |].
    rewrite Hin. eauto.
  - intros d <-. unfold definition_init.
    destruct (String.eqb (def_name d) "include") eqn:Heq.
    + apply String.eqb_eq in Heq. rewrite Heq. reflexivity.
    + destruct (is_reserved_identifier (def_name d)); [eauto |].
      rewrite Hin. simpl. eauto.
Qed.


(** ** Variable substitution *)

Lemma resolve_variables_eq (fuel : nat) (self : definition conv) (diff_mode : bool) :
  resolve_variables heap environ fuel self diff_mode =
  (new_words <-
     resolve_words heap environ fuel
       (fun src => match fuel with
                   | O => Raise RecursionError
                   | S fuel' => resolve_variables heap environ fuel' src false
                   end)
       self diff_mode (def_words self);;
   definition_customized_copy self None (Some new_words)).
Proof. destruct fuel; reflexivity. Qed.



Lemma scan_no_dollar (w : word) (cs : list ascii) (fv : string)
    (frs : list variable_substitution_fragment) :
  existsb (Ascii.eqb "$") cs = false ->
  scan w InText cs fv frs false
  = Ok (flush_literal (fv +:+ String.string_of_list_ascii cs) frs, false).
Proof.
  revert fv. induction cs as [|c cs IH]; intros fv Hcs.
  - simpl. now rewrite string_app_nil_r.
  - cbn [existsb] in Hcs. apply orb_false_iff in Hcs as [Hc Hcs].
    assert (Hc' : Ascii.eqb c "$" = false) by (now rewrite Ascii.eqb_sym).
    cbn [scan]. rewrite Hc'.
    assert (Hstep : scan w InText cs (append_char fv c) frs false
                    = Ok (flush_literal (fv +:+ String.string_of_list_ascii (c :: cs)) frs, false)).
    { rewrite IH by assumption. unfold append_char.
      rewrite string_app_assoc. reflexivity. }
    destruct cs as [|c' cs']; [exact Hstep |].
    cbn [existsb] in Hcs. apply orb_false_iff in Hcs as [Hc2 _].
    rewrite (Ascii.eqb_sym c' "$"), Hc2, andb_false_r. exact Hstep.
Qed.

Lemma resolve_fragments_literal (fuel : nat) recur (self : definition conv)
    (diff_mode : bool) (w : word) (p : proxy)
    (frs : list variable_substitution_fragment) :
  forallb (fun f => negb (is_variable f)) frs = true ->
  exists rs, resolve_fragments heap environ fuel recur self diff_mode w p frs = Ok rs.
Proof.
  induction frs as [|f frs IH]; intros Hl; simpl.
  - eauto.
  - simpl in Hl. apply andb_true_iff in Hl as [Hf Hl].
    unfold resolve_fragment. rewrite Hf. simpl.
    destruct (IH Hl) as [rs ->]. simpl. eauto.
Qed.

Lemma resolve_word_resolved (fuel : nat) recur (self : definition conv)
    (diff_mode : bool) (w : word) :
  is_resolved w = true ->
  resolve_word heap environ fuel recur self diff_mode w = Ok [w].
Proof.
  unfold is_resolved, resolve_word. intros Hres.
  destruct (match quote_token w with Some q => String.eqb q squote | None => false end);
    [reflexivity |].
  simpl in Hres. apply negb_true_iff in Hres.
  unfold variable_substitution_proxy.
  rewrite scan_no_dollar by exact Hres. simpl.
  edestruct (resolve_fragments_literal fuel recur self diff_mode w) as [rs ->].
  2: { reflexivity. }
  simpl. unfold flush_literal. destruct (0 <? _); reflexivity.
Qed.

Lemma resolve_words_resolved (fuel : nat) recur (self : definition conv)
    (diff_mode : bool) (ws : list word) :
  forallb is_resolved ws = true ->
  resolve_words heap environ fuel recur self diff_mode ws = Ok ws.
Proof.
  induction ws as [|w ws IH]; intros Hws; simpl; [reflexivity |].
  simpl in Hws. apply andb_true_iff in Hws as [Hw Hws].
  rewrite resolve_word_resolved by assumption. simpl.
  rewrite IH by assumption. reflexivity.
Qed.

Lemma definition_init_ok (d d' : definition conv) :
  definition_init d = Ok d' -> d' = d.
Proof.
  unfold definition_init.
  destruct (is_reserved_identifier _); [discriminate |].
  destruct (_ && _); [discriminate |]. congruence.
Qed.

Lemma definition_init_name (d1 d2 : definition conv) :
  def_name d1 = def_name d2 -> def_where_str d1 = def_where_str d2 ->
  definition_init d1 = Ok d1 -> definition_init d2 = Ok d2.
Proof.
  unfold definition_init. intros <- <-.
  destruct (is_reserved_identifier _); [discriminate |].
  destruct (_ && _); [discriminate |]. reflexivity.
Qed.

(** C7, as the code has it: once the words of a resolved definition carry no
    [$] outside single quotes, resolving again returns the same definition,
    words included. *)
Theorem resolve_variables_idempotent_without_dollar
    (fuel fuel' : nat) (diff_mode : bool) (d d1 : definition conv) :
  resolve_variables heap environ fuel d diff_mode = Ok d1 ->
  forallb is_resolved (def_words d1) = true ->
  resolve_variables heap environ fuel' d1 false = Ok d1.
Proof.
  intros Hfirst Hres.
  rewrite resolve_variables_eq in Hfirst.
  destruct (resolve_words _ _ _ _ _ _ _) as [ws|e]; [| discriminate].
  simpl in Hfirst. unfold definition_customized_copy, definition_copy in Hfirst.
  destruct (definition_init d) as [d0|e] eqn:Hinit; [| discriminate].
  apply definition_init_ok in Hinit as Hd0. subst d0.
  simpl in Hfirst. injection Hfirst as <-.
  rewrite resolve_variables_eq.
  rewrite resolve_words_resolved by exact Hres. simpl.
  unfold definition_customized_copy, definition_copy.
  erewrite definition_init_name; [| | | exact Hinit]; [| reflexivity | reflexivity].
  reflexivity.
Qed.


(** ** Iterating a master *)











(** ** The result-with-warnings monad *)

Lemma M_eta {A} (m : M A) : mkM (warnings m) (outcome m) = m.
Proof. now destruct m. Qed.

Lemma bindM_ret_l {A B} (a : A) (f : A -> M B) : bindM (ret a) f = f a.
Proof. unfold bindM, ret. simpl. apply M_eta. Qed.

Lemma bindM_lift_ok {A B} (a : A) (f : A -> M B) : bindM (lift (Ok a)) f = f a.
Proof. apply bindM_ret_l. Qed.

Lemma bindM_lift_raise {A B} (e : exn) (f : A -> M B) :
  bindM (lift (Raise e)) f = lift (Raise e).
Proof. reflexivity. Qed.

Lemma outcome_bindM {A B} (m : M A) (f : A -> M B) :
  outcome (bindM m f)
  = match outcome m with Ok a => outcome (f a) | Raise e => Raise e end.
Proof. unfold bindM. now destruct (outcome m). Qed.

Lemma warnings_bindM {A B} (m : M A) (f : A -> M B) :
  warnings (bindM m f)
  = match outcome m with
    | Ok a => warnings m ++ warnings (f a)
    | Raise e => warnings m
    end.
Proof. unfold bindM. now destruct (outcome m). Qed.

(** ** Fetching a definition that is not multiple *)



(** ** Deprecated definitions *)



(** ** Fetching a multiple object *)

Lemma copies_app (fuel : nat) (mo : object conv) (s : string)
    (l1 l2 : list (option (object conv))) :
  copies heap fuel mo s (l1 ++ l2)
  = copies heap fuel mo s l1 + copies heap fuel mo s l2.
Proof. unfold copies. now rewrite List.filter_app, length_app. Qed.

Lemma copies_insert (fuel : nat) (mo : object conv) (s : string)
    (l : list (option (object conv))) (i : nat) (e x : option (object conv)) :
  l !! i = Some e ->
  copies heap fuel mo s (<[i := x]> l) + (if has_form heap fuel mo s e then 1 else 0)
  = copies heap fuel mo s l + (if has_form heap fuel mo s x then 1 else 0).
Proof.
  unfold copies. revert i. induction l as [|y l IH]; intros i Hi.
  - discriminate.
  - destruct i as [|i]; simpl in *.
    + injection Hi as ->.
      destruct (has_form heap fuel mo s e), (has_form heap fuel mo s x); simpl; lia.
    + specialize (IH i Hi).
      destruct (has_form heap fuel mo s y); simpl; lia.
Qed.

Lemma has_form_ok (fuel : nat) (mo : object conv) (s s' : string)
    (e : option (object conv)) :
  canonical_form heap fuel mo e = Ok s' ->
  has_form heap fuel mo s e = true <-> s' = s.
Proof. unfold has_form. intros ->. apply String.eqb_eq. Qed.

Lemma has_form_other (fuel : nat) (mo : object conv) (s s' : string)
    (e : option (object conv)) :
  canonical_form heap fuel mo e = Ok s' -> s' <> s ->
  has_form heap fuel mo s e = false.
Proof.
  intros He Hne. destruct (has_form heap fuel mo s e) eqn:Hf; [| reflexivity].
  apply (has_form_ok _ _ _ _ _ He) in Hf. contradiction.
Qed.

Lemma has_form_same (fuel : nat) (mo : object conv) (s : string)
    (e : option (object conv)) :
  canonical_form heap fuel mo e = Ok s -> has_form heap fuel mo s e = true.
Proof. intros He. now apply (has_form_ok _ _ _ _ _ He). Qed.

Lemma dedup_invariant_empty (fuel : nat) (mo : object conv) (master_as_str : string) :
  dedup_invariant heap fuel mo master_as_str (∅, []).
Proof.
  split.
  - intros s z Hs. simpl in Hs. now rewrite lookup_empty in Hs.
  - intros s _. simpl. now rewrite lookup_empty.
Qed.

Lemma copies_singleton (fuel : nat) (mo : object conv) (s : string)
    (c : option (object conv)) :
  copies heap fuel mo s [c] = if has_form heap fuel mo s c then 1 else 0.
Proof. unfold copies. simpl. now destruct (has_form heap fuel mo s c). Qed.

(** One candidate, [diff] off: the step succeeds, keeps the invariant, and
    registers the canonical form of the candidate unless it is the master's
    own. *)
Lemma fetch_candidate_dedup (fuel : nat)
    (recur : list (object conv) -> bool -> bool -> M (object conv))
    (mo : object conv) (master_as_str : string) (skip from_master : bool)
    (st : multiple_state) (src : object conv)
    (c : option (object conv)) (cs : string) :
  canonical_form heap fuel mo None = Ok master_as_str ->
  dedup_invariant heap fuel mo master_as_str st ->
  outcome (object_fetch heap environ fuel recur mo src false skip) = Ok c ->
  canonical_form heap fuel mo c = Ok cs ->
  exists st',
    outcome (fetch_candidate heap environ fuel recur mo master_as_str false skip
               from_master st src) = Ok st'
    /\ dedup_invariant heap fuel mo master_as_str st'
    /\ forall s, is_Some (st'.1 !! s)
                 <-> is_Some (st.1 !! s) \/ (s = cs /\ cs <> master_as_str).
Proof.
  intros Hmaster [Hreg Hcount] Hfetch Hform.
  unfold fetch_candidate. rewrite outcome_bindM, Hfetch.
  cbn [andb]. rewrite Hform, bindM_lift_ok.
  destruct (String.eqb_spec cs master_as_str) as [Heq|Hne].
  { exists st. split; [reflexivity | split; [now split |]].
    intros s. split; [auto | intros [?|[_ ?]]; [assumption | contradiction]]. }
  destruct st as [processed result_objs]. cbn [fst snd] in *.
  assert (Hdom : forall (z : Z) s,
             is_Some (<[cs := z]> processed !! s)
             <-> is_Some (processed !! s) \/ (s = cs /\ cs <> master_as_str)).
  { intros z s. destruct (String.eqb_spec cs s) as [<-|Hcs].
    - rewrite lookup_insert_eq. split; [auto | eauto].
    - rewrite lookup_insert_ne by assumption.
      split; [auto | intros [?|[? _]]; [assumption | congruence]]. }
  assert (Hsingle : forall s, copies heap fuel mo s [c]
                              = if String.eqb cs s then 1 else 0).
  { intros s. rewrite copies_singleton. unfold has_form. now rewrite Hform. }
  destruct (processed !! cs) as [z|] eqn:Hprev.
  - destruct (Hreg cs z Hprev) as [_ [i [e [-> [Hi He]]]]].
    assert (Hlt : i < length result_objs) by (eapply lookup_lt_Some; eassumption).
    apply Nat.ltb_lt in Hlt as Hltb.
    assert (Hto : Z.to_nat (Z.of_nat i) = i) by apply Nat2Z.id.
    assert (Hout :
      outcome
        match Some (Z.of_nat i) with
        | Some (-1)%Z => ret (processed, result_objs)
        | prev_index =>
            result_objs0 <~
              lift match prev_index with
                   | Some i0 =>
                       if Z.to_nat i0 <? length result_objs
                       then Ok (<[Z.to_nat i0 := None]> result_objs)
                       else Raise IndexError
                   | None => Ok result_objs
                   end;;
            if false && from_master
            then ret (<[cs := (-1)%Z]> processed, result_objs0)
            else ret (<[cs := Z.of_nat (length result_objs0)]> processed,
                      result_objs0 ++ [c])
        end
      = Ok (<[cs := Z.of_nat (length result_objs)]> processed,
            <[i := None]> result_objs ++ [c])).
    { destruct (Z.of_nat i) as [|q|q] eqn:Hz; [| | lia];
        rewrite Hto, Hltb, bindM_lift_ok; cbn [andb]; now rewrite length_insert. }
    eexists. split; [exact Hout |].
    unfold dedup_invariant. cbn [fst snd]. split; [split |]; [| | apply Hdom].
    + intros s z Hs. destruct (String.eqb_spec cs s) as [<-|Hcs].
      * rewrite lookup_insert_eq in Hs. injection Hs as <-.
        split; [assumption |]. exists (length result_objs), c.
        split; [reflexivity |]. split; [| assumption].
        rewrite lookup_app_r by (rewrite length_insert; lia).
        rewrite length_insert, Nat.sub_diag. reflexivity.
      * rewrite lookup_insert_ne in Hs by assumption.
        destruct (Hreg s z Hs) as [Hs' [i' [e' [-> [Hi' He']]]]].
        split; [assumption |]. exists i', e'. split; [reflexivity |].
        split; [| assumption].
        assert (i' <> i) by (intros ->; congruence).
        rewrite lookup_app_l
          by (rewrite length_insert; eapply lookup_lt_Some; eassumption).
        now rewrite list_lookup_insert_ne by auto.
    + intros s Hs. rewrite copies_app, Hsingle.
      pose proof (copies_insert fuel mo s result_objs i e None Hi) as Hins.
      rewrite (has_form_other fuel mo s master_as_str None Hmaster) in Hins
        by congruence.
      specialize (Hcount s Hs).
      destruct (String.eqb_spec cs s) as [<-|Hcs].
      * rewrite lookup_insert_eq. rewrite Hprev in Hcount.
        rewrite (has_form_same fuel mo cs e He) in Hins. lia.
      * rewrite lookup_insert_ne by assumption.
        rewrite (has_form_other fuel mo s cs e He Hcs) in Hins. lia.
  - rewrite bindM_lift_ok. cbn [andb]. eexists. split; [reflexivity |].
    unfold dedup_invariant. cbn [fst snd]. split; [split |]; [| | apply Hdom].
    + intros s z Hs. destruct (String.eqb_spec cs s) as [<-|Hcs].
      * rewrite lookup_insert_eq in Hs. injection Hs as <-.
        split; [assumption |]. exists (length result_objs), c.
        split; [reflexivity |]. split; [| assumption].
        rewrite lookup_app_r by lia. now rewrite Nat.sub_diag.
      * rewrite lookup_insert_ne in Hs by assumption.
        destruct (Hreg s z Hs) as [Hs' [i' [e' [-> [Hi' He']]]]].
        split; [assumption |]. exists i', e'. split; [reflexivity |].
        split; [| assumption].
        now rewrite lookup_app_l by (eapply lookup_lt_Some; eassumption).
    + intros s Hs. rewrite copies_app, Hsingle.
      specialize (Hcount s Hs).
      destruct (String.eqb_spec cs s) as [<-|Hcs].
      * rewrite lookup_insert_eq. rewrite Hprev in Hcount. lia.
      * rewrite lookup_insert_ne by assumption. lia.
Qed.

Lemma fetch_candidates_dedup (fuel : nat)
    (recur : list (object conv) -> bool -> bool -> M (object conv))
    (mo : object conv) (master_as_str : string) (skip from_master : bool)
    (cands : list (object conv)) (st : multiple_state) :
  canonical_form heap fuel mo None = Ok master_as_str ->
  dedup_invariant heap fuel mo master_as_str st ->
  Forall (fun src => exists s, fetches_to heap environ fuel recur mo skip s src) cands ->
  exists st',
    outcome (fetch_candidates heap environ fuel recur mo master_as_str false skip
               from_master cands st) = Ok st'
    /\ dedup_invariant heap fuel mo master_as_str st'
    /\ forall s, is_Some (st'.1 !! s)
                 <-> is_Some (st.1 !! s)
                     \/ (s <> master_as_str
                         /\ Exists (fetches_to heap environ fuel recur mo skip s) cands).
Proof.
  intros Hmaster Hinv Hall. revert st Hinv.
  induction Hall as [|src cands [cs [c [Hfetch Hform]]] _ IH]; intros st Hinv.
  - exists st. split; [reflexivity | split; [assumption |]].
    intros s. split; [auto | intros [?|[_ Hex]]; [assumption |]].
    now apply Exists_nil in Hex.
  - destruct (fetch_candidate_dedup fuel recur mo master_as_str skip from_master
                st src c cs Hmaster Hinv Hfetch Hform) as [st1 [Hout1 [Hinv1 Hdom1]]].
    destruct (IH st1 Hinv1) as [st2 [Hout2 [Hinv2 Hdom2]]].
    exists st2. split; [| split; [assumption |]].
    + cbn [fetch_candidates]. now rewrite outcome_bindM, Hout1.
    + intros s. rewrite Hdom2, Hdom1, Exists_cons. split.
      * intros [[?|[-> ?]]|[? ?]]; [auto | | auto].
        right. split; [assumption |]. left. exists c. auto.
      * intros [?|[Hs [[c' [Hfetch' Hform']]|?]]]; [auto | | auto].
        left. right. rewrite Hfetch in Hfetch'. injection Hfetch' as <-.
        rewrite Hform in Hform'. injection Hform' as <-. auto.
Qed.

Lemma copies_live (fuel : nat) (mo : object conv) (master_as_str s : string)
    (l : list (option (object conv))) :
  canonical_form heap fuel mo None = Ok master_as_str ->
  s <> master_as_str ->
  realized_copies heap fuel mo s (omap id l) = copies heap fuel mo s l.
Proof.
  intros Hmaster Hs. unfold realized_copies, copies.
  induction l as [|[o|] l IH]; simpl.
  - reflexivity.
  - destruct (has_form heap fuel mo s (Some o)); simpl;
      [apply (f_equal S IH) | exact IH].
  - rewrite (has_form_other fuel mo s master_as_str None Hmaster) by congruence.
    exact IH.
Qed.

(** C3, as the code has it: for a master object that is multiple, fetched
    with [diff] off, when the candidates fetch and serialize, a canonical
    form other than the master's own that some matching source entry fetches
    to (two entries or any number of them) has exactly one realized copy
    among the objects [scope.fetch] appends, after the template marker. *)
Theorem multiple_entry_is_realized_once (fuel : nat)
    (recur : list (object conv) -> bool -> bool -> M (object conv))
    (h : scope_header) (objs : list (object conv)) (source : object conv)
    (i : nat) (mo mo' : object conv) (skip : bool)
    (ap : option string) (matching own : object conv)
    (master_as_str s : string) :
  truthy (multiple mo) = true ->
  alias_path heap fuel mo = Ok ap ->
  get heap fuel source (child_path h mo) ap = Ok matching ->
  canonical_form heap fuel mo None = Ok master_as_str ->
  get heap fuel (Scope h (delete i objs)) (child_path h mo) None = Ok own ->
  object_copy mo = Ok mo' ->
  Forall (fun src => exists s', fetches_to heap environ fuel recur mo skip s' src)
         (active_objects own ++ active_objects matching) ->
  Exists (fetches_to heap environ fuel recur mo skip s) (active_objects matching) ->
  s <> master_as_str ->
  exists realized,
    outcome (fetch_master_object heap environ fuel recur h objs source i mo
               false skip)
    = Ok (set_is_template mo'
            match optional mo with Some false => 0%Z | _ => (-1)%Z end
          :: realized)
    /\ realized_copies heap fuel mo s realized = 1.
Proof.
  intros Hmul Hap Hget Hmaster Hown Hcopy Hall Hex Hs.
  apply Forall_app in Hall as [Hall_own Hall_matching].
  destruct (fetch_candidates_dedup fuel recur mo master_as_str skip true
              (active_objects own) (∅, []) Hmaster
              (dedup_invariant_empty fuel mo master_as_str) Hall_own)
    as [st1 [Hout1 [Hinv1 _]]].
  destruct (fetch_candidates_dedup fuel recur mo master_as_str skip false
              (active_objects matching) st1 Hmaster Hinv1 Hall_matching)
    as [st2 [Hout2 [Hinv2 Hdom2]]].
  assert (Hreg : is_Some (st2.1 !! s)) by (apply Hdom2; auto).
  exists (omap id st2.2). split.
  - unfold fetch_master_object.
    rewrite Hap, bindM_lift_ok, Hget, bindM_lift_ok, Hmul. cbn [negb].
    rewrite Hmaster, bindM_lift_ok, Hown, bindM_lift_ok.
    rewrite outcome_bindM, Hout1, outcome_bindM, Hout2.
    unfold template_marker. rewrite Hcopy. cbn [bind].
    rewrite bindM_lift_ok, bindM_ret_l. cbn [ret outcome app].
    assert (Hsize : (size st2.1 =? 0) = false).
    { apply Nat.eqb_neq. intros Hzero. apply map_size_empty_inv in Hzero.
      rewrite Hzero, lookup_empty in Hreg. now destruct Hreg. }
    rewrite Hsize. reflexivity.
  - rewrite (copies_live fuel mo master_as_str s st2.2 Hmaster Hs).
    destruct Hinv2 as [_ Hcount]. rewrite (Hcount s Hs).
    now destruct Hreg as [z ->].
Qed.

(** ** The round trip through the value graph *)

Lemma object_nested_ind (P : object conv -> Prop) :
  (forall d, P (Def d)) ->
  (forall h objs, Forall P objs -> P (Scope h objs)) ->
  forall o, P o.
Proof.
  intros Hdef Hscope. fix IH 1. intros [d|h objs].
  - apply Hdef.
  - apply Hscope. induction objs as [|o objs IHobjs]; constructor.
    + apply IH.
    + exact IHobjs.
Qed.



















End Properties.

(** * Further properties of the code *)

Section MoreProperties.

Context {conv pyval : Type} `{!Collaborators conv pyval}.
Variable heap : addr -> option (object conv).
Variable environ : string -> option string.

Set Default Proof Using "Type".

#[local] Arguments String.append : simpl nomatch.

(** ** Name mangling *)

Lemma substring_0_length (n : nat) (s : string) :
  n <= String.length s -> String.length (String.substring 0 n s) = n.
Proof.
  revert s. induction n as [|n IH]; intros s Hn.
  - destruct s; reflexivity.
  - destruct s as [|c s]; simpl in *; [lia |]. rewrite IH; lia.
Qed.

Lemma mangle_scan_some (rest : string) (i j : nat) :
  mangle_scan rest i = Some j ->
  i <= j /\ exists c r, str_drop (j - i) rest = String c r /\ c <> "_"%char.
Proof.
  revert i. induction rest as [|c rest IH]; intros i Hs; simpl in Hs; [discriminate |].
  destruct (Ascii.eqb_spec c "_") as [->|Hne].
  - apply IH in Hs as [Hle [c' [r [Hdrop Hc']]]]. split; [lia |].
    exists c', r. split; [| exact Hc'].
    replace (j - i) with (S (j - S i)) by lia. exact Hdrop.
  - injection Hs as <-. split; [lia |]. exists c, rest.
    rewrite Nat.sub_diag. split; [reflexivity | exact Hne].
Qed.

Lemma mangle_scan_none (rest : string) (i : nat) :
  mangle_scan rest i = None <-> all_underscores rest = true.
Proof.
  unfold all_underscores. revert i.
  induction rest as [|c rest IH]; intros i;
    cbn [mangle_scan String.list_ascii_of_string forallb]; [split; reflexivity |].
  rewrite (Ascii.eqb_sym "_" c).
  destruct (Ascii.eqb c "_"); cbn [andb]; [apply IH |].
  split; discriminate.
Qed.

Lemma startswith_other (c : ascii) (k p : string) :
  c <> "_"%char -> startswith (String c k) (String "_" p) = false.
Proof.
  intros Hc. destruct (startswith (String c k) (String "_" p)) eqn:Hs; [| reflexivity].
  apply startswith_spec in Hs as [r Hr]. rewrite string_app_cons in Hr.
  injection Hr as -> _. now contradiction Hc.
Qed.

(** What [mangle] returns once none of its early exits is taken. *)
Lemma mangle_changed (name klass : string) (i : nat) :
  startswith name "__" = true ->
  String.length name + 2 < MANGLE_LEN ->
  endswith name "__" = false ->
  mangle_scan klass 0 = Some i ->
  exists c k rest,
    mangle name klass = "_" +:+ String c k +:+ name
    /\ c <> "_"%char
    /\ str_drop i klass = String c k +:+ rest
    /\ String.length (String c k) + String.length name <= MANGLE_LEN
    /\ (rest <> "" ->
        String.length (String c k) + String.length name = MANGLE_LEN).
Proof.
  intros Hstart Hlen Hend Hscan. unfold mangle.
  rewrite Hstart, Hend, Hscan. cbn [negb].
  assert (Hl : (MANGLE_LEN <=? String.length name + 2) = false)
    by (apply Nat.leb_gt; lia).
  rewrite Hl.
  apply mangle_scan_some in Hscan as [_ [c [r [Hdrop Hc]]]].
  rewrite Nat.sub_0_r in Hdrop. rewrite Hdrop.
  destruct (MANGLE_LEN <? String.length (String c r) + String.length name) eqn:Ht.
  - apply Nat.ltb_lt in Ht. unfold py_slice_to.
    assert (Hneg : (Z.of_nat MANGLE_LEN
                    - Z.of_nat (String.length (String c r) + String.length name)
                    <? 0)%Z = true) by (apply Z.ltb_lt; lia).
    rewrite Hneg.
    set (n := Z.to_nat _).
    assert (Hn : n = MANGLE_LEN - String.length name) by (subst n; lia).
    assert (Hn1 : exists n', n = S n' /\ n' <= String.length r).
    { exists (MANGLE_LEN - String.length name - 1). unfold MANGLE_LEN in *.
      simpl in Ht. lia. }
    destruct Hn1 as [n' [Hn' Hle]]. rewrite Hn'. cbn [String.substring].
    exists c, (String.substring 0 n' r),
      (String.substring n' (String.length r - n') r).
    split; [reflexivity |]. split; [exact Hc |].
    split.
    { rewrite string_app_cons. f_equal. apply substring_split. lia. }
    assert (Hk : String.length (String c (String.substring 0 n' r)) = n).
    { simpl. rewrite substring_0_length by exact Hle. lia. }
    rewrite Hk. unfold MANGLE_LEN in *. split; lia.
  - apply Nat.ltb_ge in Ht. exists c, r, "".
    split; [reflexivity |]. split; [exact Hc |].
    split; [now rewrite string_app_nil_r |]. split; [exact Ht | congruence].
Qed.

Lemma mangle_unchanged_spec (name klass : string) :
  mangle name klass = name
  <-> startswith name "__" = false
      \/ MANGLE_LEN <= String.length name + 2
      \/ endswith name "__" = true
      \/ all_underscores klass = true.
Proof.
  clear heap environ.
  split.
  - intros Heq.
    destruct (startswith name "__") eqn:Hstart; [| now left].
    destruct (Nat.le_gt_cases MANGLE_LEN (String.length name + 2)) as [Hl|Hl];
      [now right; left |].
    destruct (endswith name "__") eqn:Hend; [now right; right; left |].
    destruct (mangle_scan klass 0) as [i|] eqn:Hscan.
    + destruct (mangle_changed name klass i Hstart Hl Hend Hscan)
        as [c [k [rest [Hm _]]]].
      rewrite Hm in Heq. apply (f_equal String.length) in Heq.
      rewrite !string_length_app in Heq. simpl in Heq. lia.
    + right; right; right. now apply (mangle_scan_none klass 0).
  - intros H0. unfold mangle.
    destruct (startswith name "__"); [| reflexivity]. cbn [negb].
    destruct (MANGLE_LEN <=? String.length name + 2) eqn:Hl; [reflexivity |].
    destruct (endswith name "__"); [reflexivity |].
    destruct H0 as [H0|[H0|[H0|H0]]]; try discriminate.
    + apply Nat.leb_gt in Hl. lia.
    + apply (mangle_scan_none klass 0) in H0. now rewrite H0.
Qed.

(** X1: [mangle] returns the name as it is exactly when the name does not
    start with two underscores, or has 254 characters or more, or ends with
    two underscores, or the class name has nothing but underscores. *)
Theorem mangle_unchanged_iff (name klass : string) :
  mangle name klass = name
  <-> startswith name "__" = false
      \/ MANGLE_LEN <= String.length name + 2
      \/ endswith name "__" = true
      \/ all_underscores klass = true.
Proof. apply mangle_unchanged_spec. Qed.


(** X2: a name that [mangle] changes becomes an underscore, then the class
    name without its leading underscores and cut at its end so that no more
    than 257 characters result, then the name itself. *)
Theorem mangle_shape (name klass : string) :
  mangle name klass <> name ->
  exists u k rest,
    klass = u +:+ k +:+ rest
    /\ all_underscores u = true
    /\ startswith k "_" = false /\ k <> ""
    /\ mangle name klass = "_" +:+ k +:+ name
    /\ String.length (mangle name klass) <= MANGLE_LEN + 1
    /\ (rest <> "" -> String.length (mangle name klass) = MANGLE_LEN + 1).
Proof.
  clear heap environ.
  intros Hne.
  destruct (startswith name "__") eqn:Hstart;
    [| exfalso; apply Hne, mangle_unchanged_spec; auto].
  destruct (Nat.le_gt_cases MANGLE_LEN (String.length name + 2)) as [Hl|Hl];
    [exfalso; apply Hne, mangle_unchanged_spec; auto |].
  destruct (endswith name "__") eqn:Hend;
    [exfalso; apply Hne, mangle_unchanged_spec; auto |].
  destruct (mangle_scan klass 0) as [i|] eqn:Hscan.
  2: { exfalso. apply Hne, mangle_unchanged_spec.
       right; right; right. now apply (mangle_scan_none klass 0). }
  destruct (mangle_changed name klass i Hstart Hl Hend Hscan)
    as [c [k [rest [Hm [Hc [Hdrop [Hlen Hfull]]]]]]].
  assert (Hu : forall (s : string) (j i : nat),
             mangle_scan s j = Some i ->
             s = String.substring 0 (i - j) s +:+ str_drop (i - j) s
             /\ all_underscores (String.substring 0 (i - j) s) = true).
  { clear. unfold all_underscores.
    induction s as [|c s IH]; intros j i Hs; simpl in Hs; [discriminate |].
    destruct (Ascii.eqb_spec c "_") as [->|Hc].
    - destruct (IH _ _ Hs) as [Hsplit Hall].
      apply mangle_scan_some in Hs as [Hle _].
      replace (i - j) with (S (i - S j)) by lia.
      cbn [String.substring str_drop]. rewrite string_app_cons.
      split; [now f_equal |]. simpl. exact Hall.
    - injection Hs as <-. rewrite Nat.sub_diag. simpl. split; reflexivity. }
  destruct (Hu klass 0 i Hscan) as [Hsplit Hall]. rewrite Nat.sub_0_r in *.
  exists (String.substring 0 i klass), (String c k), rest.
  split; [now rewrite <- Hdrop |].
  split; [exact Hall |].
  split.
  { now apply startswith_other. }
  split; [discriminate |].
  split; [exact Hm |].
  rewrite Hm, !string_length_app.
  change (String.length "_") with 1.
  split; [lia |]. intros Hr. specialize (Hfull Hr). lia.
Qed.

(** X3: mangling a mangled name again changes nothing. *)
Theorem mangle_idempotent (name klass : string) :
  mangle (mangle name klass) klass = mangle name klass.
Proof.
  clear heap environ.
  destruct (String.eqb_spec (mangle name klass) name) as [Heq|Hne].
  - now rewrite !Heq.
  - destruct (startswith name "__") eqn:Hstart;
      [| exfalso; apply Hne, mangle_unchanged_spec; auto].
    destruct (Nat.le_gt_cases MANGLE_LEN (String.length name + 2)) as [Hl|Hl];
      [exfalso; apply Hne, mangle_unchanged_spec; auto |].
    destruct (endswith name "__") eqn:Hend;
      [exfalso; apply Hne, mangle_unchanged_spec; auto |].
    destruct (mangle_scan klass 0) as [i|] eqn:Hscan.
    2: { exfalso. apply Hne, mangle_unchanged_spec.
         right; right; right. now apply (mangle_scan_none klass 0). }
    destruct (mangle_changed name klass i Hstart Hl Hend Hscan)
      as [c [k [rest [Hm [Hc _]]]]].
    apply mangle_unchanged_spec. left. rewrite Hm.
    destruct (startswith ("_" +:+ String c k +:+ name) "__") eqn:Hs; [| reflexivity].
    apply startswith_spec in Hs as [r Hr]. rewrite !string_app_cons in Hr.
    injection Hr as Hr _. now contradiction Hc.
Qed.

(** ** Paths *)

Lemma join_snoc (sep : string) (l : list string) (x : string) :
  l <> [] -> join sep (l ++ [x]) = join sep l +:+ sep +:+ x.
Proof.
  unfold join. induction l as [|a l IH]; intros Hl; [congruence |].
  destruct l as [|b l].
  - reflexivity.
  - change ((a :: b :: l) ++ [x]) with (a :: (b :: l) ++ [x]).
    change (String.concat sep (a :: (b :: l) ++ [x]))
      with (a +:+ sep +:+ String.concat sep ((b :: l) ++ [x])).
    rewrite IH by discriminate.
    change (String.concat sep (a :: b :: l))
      with (a +:+ sep +:+ String.concat sep (b :: l)).
    now rewrite !string_app_assoc.
Qed.

Lemma full_path_loop_acc (fuel : nat) (pps : option addr) (a b : list string) :
  full_path_loop heap fuel pps (a ++ b)
  = (l <- full_path_loop heap fuel pps b;; Ok (a ++ l)).
Proof.
  revert pps b. induction fuel as [|fuel IH]; intros pps b.
  - simpl. destruct (deref heap pps) as [[s|]|e]; simpl; try reflexivity.
    destruct (String.eqb (name s) ""); reflexivity.
  - simpl. destruct (deref heap pps) as [[s|]|e]; simpl; try reflexivity.
    destruct (String.eqb (name s) ""); [reflexivity |].
    rewrite <- app_assoc. apply IH.
Qed.

Lemma alias_path_loop_acc (fuel : nat) (pps : option addr) (a b : list string) :
  alias_path_loop heap fuel pps (a ++ b)
  = ('(l, f) <- alias_path_loop heap fuel pps b;; Ok (a ++ l, f)).
Proof.
  revert pps b. induction fuel as [|fuel IH]; intros pps b.
  - simpl. destruct (deref heap pps) as [[s|]|e]; simpl; try reflexivity.
    destruct (alias s); [simpl; now rewrite <- app_assoc |].
    destruct (String.eqb (name s) ""); reflexivity.
  - simpl. destruct (deref heap pps) as [[s|]|e]; simpl; try reflexivity.
    destruct (alias s); [simpl; now rewrite <- app_assoc |].
    destruct (String.eqb (name s) ""); [reflexivity |].
    rewrite <- app_assoc. apply IH.
Qed.

Lemma full_path_loop_nonempty (fuel : nat) (pps : option addr)
    (acc l : list string) :
  full_path_loop heap fuel pps acc = Ok l -> acc <> [] -> l <> [].
Proof.
  rewrite <- (app_nil_r acc) at 1. rewrite full_path_loop_acc.
  destruct (full_path_loop heap fuel pps []) as [l'|e]; [| discriminate].
  simpl. intros [= <-] Hacc. destruct acc; [congruence | discriminate].
Qed.

Lemma alias_path_loop_nonempty (fuel : nat) (pps : option addr)
    (acc l : list string) (f : bool) :
  alias_path_loop heap fuel pps acc = Ok (l, f) -> acc <> [] -> l <> [].
Proof.
  rewrite <- (app_nil_r acc) at 1. rewrite alias_path_loop_acc.
  destruct (alias_path_loop heap fuel pps []) as [[l' f']|e]; [| discriminate].
  simpl. intros [= <- _] Hacc. destruct acc; [congruence | discriminate].
Qed.

(** X4: the full path of an object extends the full path of its parent scope
    by a dot and the object's name; under a scope with the empty name (the
    root) it is the object's name alone. *)
Theorem full_path_extends_parent (fuel : nat) (o s : object conv) (a : addr) :
  primary_parent_scope o = Some a ->
  heap a = Some s ->
  (name s = "" -> full_path heap fuel o = Ok (name o))
  /\ (name s <> "" ->
      forall p, full_path heap fuel s = Ok p ->
                full_path heap (S fuel) o = Ok (p +:+ "." +:+ name o)).
Proof.
  intros Hpps Ha. split.
  - intros Hs. unfold full_path. rewrite Hpps.
    destruct fuel; simpl; rewrite Ha; simpl; rewrite Hs; reflexivity.
  - intros Hs p Hp. unfold full_path in *. rewrite Hpps.
    cbn [full_path_loop deref]. rewrite Ha. cbn [bind].
    apply String.eqb_neq in Hs. rewrite Hs.
    rewrite full_path_loop_acc.
    destruct (full_path_loop heap fuel (primary_parent_scope s) [name s])
      as [l|e] eqn:Hl; [| discriminate].
    cbn [bind] in *. injection Hp as <-.
    rewrite rev_app_distr. simpl rev at 2. simpl app at 1.
    f_equal. apply join_snoc.
    apply full_path_loop_nonempty in Hl; [| discriminate].
    intros Hr. apply Hl. apply (f_equal (@rev string)) in Hr.
    now rewrite rev_involutive in Hr.
Qed.

(** X5: for an object without an alias of its own, the alias path extends the
    alias path of its parent scope by a dot and the object's name, and is
    absent when that of the parent is; under a root scope without alias it
    is absent. *)
Theorem alias_path_extends_parent (fuel : nat) (o s : object conv) (a : addr) :
  alias o = None ->
  primary_parent_scope o = Some a ->
  heap a = Some s ->
  (name s = "" -> alias s = None -> alias_path heap fuel o = Ok None)
  /\ (name s <> "" \/ alias s <> None ->
      forall r, alias_path heap fuel s = Ok r ->
                alias_path heap (S fuel) o
                = Ok (option_map (fun p => p +:+ "." +:+ name o) r)).
Proof.
  intros Hal Hpps Ha. split.
  - intros Hs Hsal. unfold alias_path. rewrite Hal, Hpps.
    destruct fuel; simpl; rewrite Ha; simpl; rewrite Hsal, Hs; reflexivity.
  - intros Hs r Hr. unfold alias_path in *. rewrite Hal, Hpps.
    cbn [alias_path_loop deref]. rewrite Ha. cbn [bind].
    destruct (alias s) as [al|] eqn:Hsal.
    + injection Hr as <-. reflexivity.
    + destruct Hs as [Hs|Hs]; [| congruence].
      apply String.eqb_neq in Hs. rewrite Hs.
      rewrite alias_path_loop_acc.
      destruct (alias_path_loop heap fuel (primary_parent_scope s) [name s])
        as [[l f]|e] eqn:Hl; [| discriminate].
      cbn [bind] in *. destruct f; injection Hr as <-; [| reflexivity].
      cbn [option_map]. f_equal. f_equal.
      rewrite rev_app_distr. simpl rev at 2. simpl app at 1.
      apply join_snoc.
      apply alias_path_loop_nonempty in Hl; [| discriminate].
      intros Hr. apply Hl. apply (f_equal (@rev string)) in Hr.
      now rewrite rev_involutive in Hr.
Qed.

(** ** The scanner of variable references *)

Lemma list_ascii_app (a b : string) :
  String.list_ascii_of_string (a +:+ b)
  = String.list_ascii_of_string a ++ String.list_ascii_of_string b.
Proof.
  induction a as [|c a IH]; [reflexivity |].
  rewrite string_app_cons. simpl. now rewrite IH.
Qed.

Lemma string_of_list_ascii_of_string (s : string) :
  String.string_of_list_ascii (String.list_ascii_of_string s) = s.
Proof. induction s as [|c s IH]; simpl; [reflexivity | now rewrite IH]. Qed.

(** The scanner reads a run of text without [$] into the pending literal,
    unless the run ends in a backslash that escapes a [$] after it. *)
Lemma scan_text_run (w : word) (cs1 cs2 : list ascii) (fv : string)
    (frs : list variable_substitution_fragment) (hv : bool) :
  existsb (Ascii.eqb "$") cs1 = false ->
  (last cs1 = Some "\"%char -> head cs2 <> Some "$"%char) ->
  scan w InText (cs1 ++ cs2) fv frs hv
  = scan w InText cs2 (fv +:+ String.string_of_list_ascii cs1) frs hv.
Proof.
  revert fv. induction cs1 as [|c cs1 IH]; intros fv Hcs Hesc.
  - simpl. now rewrite string_app_nil_r.
  - cbn [existsb] in Hcs. apply orb_false_iff in Hcs as [Hc Hcs].
    assert (Hc' : Ascii.eqb c "$" = false) by (now rewrite Ascii.eqb_sym).
    assert (Hstep : scan w InText (cs1 ++ cs2) (append_char fv c) frs hv
                    = scan w InText cs2
                        (fv +:+ String.string_of_list_ascii (c :: cs1)) frs hv).
    { rewrite IH; [| exact Hcs |].
      - unfold append_char. now rewrite string_app_assoc.
      - intros Hl. apply Hesc. destruct cs1; [discriminate | exact Hl]. }
    change ((c :: cs1) ++ cs2) with (c :: (cs1 ++ cs2)).
    cbn [scan]. rewrite Hc'.
    destruct (cs1 ++ cs2) as [|c' rest] eqn:Happ; [exact Hstep |].
    assert (Hno : Ascii.eqb c "\" && Ascii.eqb c' "$" = false).
    { destruct (Ascii.eqb_spec c "\") as [->|]; [| reflexivity].
      destruct (Ascii.eqb_spec c' "$") as [->|]; [| reflexivity].
      exfalso. destruct cs1 as [|c1 cs1].
      - simpl in Happ. subst cs2. now apply Hesc.
      - simpl in Happ. injection Happ as -> _. simpl in Hcs. discriminate. }
    rewrite Hno. exact Hstep.
Qed.

Lemma scan_paren_open (w : word) (cs : list ascii) (fv : string)
    (frs : list variable_substitution_fragment) (hv : bool) :
  existsb (Ascii.eqb ")") cs = false ->
  scan w InParen cs fv frs hv
  = Raise (SyntaxError ("missing " +:+ dquote +:+ ")" +:+ dquote +:+ ": ") w).
Proof.
  revert fv. induction cs as [|c cs IH]; intros fv Hcs; [reflexivity |].
  cbn [existsb] in Hcs. apply orb_false_iff in Hcs as [Hc Hcs].
  cbn [scan]. rewrite (Ascii.eqb_sym c ")"), Hc. now apply IH.
Qed.

Lemma scan_name_run (w : word) (cs : list ascii) (fv : string)
    (frs : list variable_substitution_fragment) (hv : bool) :
  forallb (fun x => standard_identifier_continuation_characters x
                    && negb (Ascii.eqb x ".")) cs = true ->
  scan w InName cs fv frs hv
  = Ok (frs ++ [mk_fragment true (fv +:+ String.string_of_list_ascii cs)], hv).
Proof.
  revert fv. induction cs as [|c cs IH]; intros fv Hcs.
  - simpl. now rewrite string_app_nil_r.
  - cbn [forallb] in Hcs. apply andb_true_iff in Hcs as [Hc Hcs].
    apply andb_true_iff in Hc as [Hcont Hdot]. apply negb_true_iff in Hdot.
    cbn [scan]. rewrite Hdot, Hcont. cbn [negb orb].
    rewrite IH by exact Hcs. unfold append_char.
    now rewrite string_app_assoc.
Qed.

Lemma flush_literal_nonempty (c : ascii) (s : string)
    (frs : list variable_substitution_fragment) :
  flush_literal (String c s) frs = frs ++ [mk_fragment false (String c s)].
Proof. reflexivity. Qed.

(** X6: a [$] that follows a backslash is not a variable reference: a word
    whose only [$] is escaped scans to a single literal fragment holding
    the whole text, backslash included, and substitution returns the word
    itself. *)
Theorem escaped_dollar_is_literal (w : word) (a b : string) :
  value w = a +:+ "\$" +:+ b ->
  no_dollar a = true -> no_dollar b = true ->
  exists p,
    variable_substitution_proxy w = Ok p
    /\ have_variables p = false
    /\ fragments p = [mk_fragment false (value w)]
    /\ forall rs, get_new_words p rs = Ok [w].
Proof.
  clear heap environ.
  intros Hv Ha Hb. unfold no_dollar, contains_char in *.
  apply negb_true_iff in Ha, Hb.
  unfold variable_substitution_proxy. rewrite Hv, list_ascii_app.
  rewrite scan_text_run; [| exact Ha | intros _; simpl; discriminate].
  rewrite string_of_list_ascii_of_string.
  change (String.list_ascii_of_string ("\$" +:+ b))
    with ("\"%char :: "$"%char :: String.list_ascii_of_string b).
  cbn [scan Ascii.eqb Bool.eqb andb].
  rewrite <- (app_nil_r (String.list_ascii_of_string b)).
  rewrite scan_text_run; [| exact Hb | discriminate].
  rewrite string_of_list_ascii_of_string. cbn [scan bind].
  unfold append_char. rewrite !string_app_assoc. cbn [String.append].
  assert (Hne : exists c s, a +:+ String "\" (String "$" b) = String c s).
  { destruct a as [|c a]; [now exists "\"%char, (String "$" b) |].
    now exists c, (a +:+ String "\" (String "$" b)). }
  destruct Hne as [c [s Hcs]]. rewrite Hcs, flush_literal_nonempty.
  eexists. split; [reflexivity |]. cbn [have_variables fragments app].
  split; [reflexivity |]. split; [reflexivity |].
  intros rs. reflexivity.
Qed.

(** X7: the three syntax errors of a variable reference. After text without
    [$] that does not end in a backslash, a [$] at the end of the word, a
    [$(] that is never closed, and a [$] before a character that starts no
    identifier each make the scanner raise a syntax error at the word. *)
Theorem variable_reference_syntax_errors (w : word) (a rest : string) :
  value w = a +:+ "$" +:+ rest ->
  no_dollar a = true -> endswith a "\" = false ->
  (rest = "" ->
   variable_substitution_proxy w
   = Raise (SyntaxError "$ must be followed by an identifier: " w))
  /\ (forall b, rest = "(" +:+ b -> contains_char ")" b = false ->
      variable_substitution_proxy w
      = Raise (SyntaxError ("missing " +:+ dquote +:+ ")" +:+ dquote +:+ ": ") w))
  /\ (forall c r, rest = String c r -> c <> "("%char ->
      standard_identifier_start_characters c = false ->
      variable_substitution_proxy w
      = Raise (SyntaxError "improper variable name " w)).
Proof.
  clear heap environ.
  intros Hv Ha Hend. unfold no_dollar, contains_char in *.
  apply negb_true_iff in Ha.
  assert (Hlast : last (String.list_ascii_of_string a) <> Some "\"%char).
  { intros Hl. assert (He : endswith a "\" = true); [| congruence].
    apply endswith_spec. clear -Hl.
    induction a as [|c a IH]; [discriminate |].
    destruct a as [|c' a].
    - simpl in Hl. injection Hl as ->. now exists "".
    - destruct IH as [r Hr]; [exact Hl |]. exists (String c r).
      rewrite string_app_cons. now rewrite <- Hr. }
  assert (Hscan : forall fv frs,
            scan w InText (String.list_ascii_of_string (value w)) fv frs false
            = scan w AfterDollar (String.list_ascii_of_string rest) ""
                (flush_literal (fv +:+ a) frs) true).
  { intros fv frs. rewrite Hv, list_ascii_app.
    rewrite scan_text_run; [| exact Ha | intros Hl; now contradiction Hlast].
    rewrite string_of_list_ascii_of_string. reflexivity. }
  unfold variable_substitution_proxy. rewrite Hscan.
  split; [| split].
  - intros ->. reflexivity.
  - intros b -> Hb.
    change (String.list_ascii_of_string ("(" +:+ b))
      with ("("%char :: String.list_ascii_of_string b).
    cbn [scan Ascii.eqb Bool.eqb andb].
    rewrite scan_paren_open by exact Hb. reflexivity.
  - intros c r -> Hc Hstart.
    cbn [String.list_ascii_of_string scan].
    apply Ascii.eqb_neq in Hc. rewrite Hc, Hstart. reflexivity.
Qed.

(** ** Variable substitution *)

Lemma def_set_same (d : definition conv) :
  def_set_name_words d (def_name d) (def_words d) = d.
Proof. destruct d; reflexivity. Qed.

(** X8: a definition whose words are all single-quoted or free of [$] is
    returned unchanged by [resolve_variables], apart from [is_template]
    being reset: nothing is looked up, whatever the tree and the
    environment hold. *)
Theorem resolve_variables_keeps_resolved_words
    (fuel : nat) (d : definition conv) (diff_mode : bool) :
  definition_init d = Ok d ->
  forallb is_resolved (def_words d) = true ->
  resolve_variables heap environ fuel d diff_mode = Ok (def_set_is_template d 0%Z).
Proof.
  intros Hinit Hres. rewrite resolve_variables_eq.
  rewrite resolve_words_resolved by exact Hres. cbn [bind].
  unfold definition_customized_copy, definition_copy. rewrite Hinit.
  cbn [bind]. now rewrite def_set_same.
Qed.

(** X9: an unquoted word that is one variable reference [$v], for which the
    lexical lookup finds nothing. In diff mode the reference is kept as the
    double-quoted text [$v]; otherwise the word becomes the value of the
    environment variable [v], as one double-quoted word that records its
    origin, and without such a variable the error Undefined variable is
    raised at the word. *)
Theorem lone_variable_reference (fuel : nat) (d : definition conv)
    (w : word) (v : string) :
  def_words d = [w] ->
  quote_token w = None ->
  value w = "$" +:+ v ->
  simple_variable_name v = true ->
  lookup_variable heap fuel d v = Ok None ->
  definition_init d = Ok d ->
  resolve_variables heap environ fuel d true
  = Ok (def_set_is_template
          (def_set_name_words d (def_name d) [environment_word v ("$" +:+ v)]) 0%Z)
  /\ match environ v with
     | Some e =>
         resolve_variables heap environ fuel d false
         = Ok (def_set_is_template
                 (def_set_name_words d (def_name d) [environment_word v e]) 0%Z)
     | None =>
         resolve_variables heap environ fuel d false
         = Raise (UndefinedVariable v w)
     end.
Proof.
  intros Hw Hq Hv Hname Hlex Hinit.
  assert (Hproxy : variable_substitution_proxy w
                   = Ok (mk_proxy w false true [mk_fragment true v])).
  { unfold variable_substitution_proxy. rewrite Hv, Hq.
    destruct v as [|c r]; [discriminate |].
    cbn [simple_variable_name] in Hname. apply andb_true_iff in Hname as [Hc Hr].
    change (String.list_ascii_of_string ("$" +:+ String c r))
      with ("$"%char :: c :: String.list_ascii_of_string r).
    cbn [scan Ascii.eqb Bool.eqb andb flush_literal String.length Nat.ltb Nat.leb].
    assert (Hparen : Ascii.eqb c "(" = false).
    { destruct (Ascii.eqb_spec c "(") as [->|]; [discriminate | reflexivity]. }
    rewrite Hparen, Hc. cbn [negb].
    rewrite scan_name_run by exact Hr.
    rewrite string_of_list_ascii_of_string. reflexivity. }
  assert (Hstep : forall diff_mode,
            resolve_variables heap environ fuel d diff_mode
            = (ws <- match (if diff_mode then Some ("$" +:+ v) else environ v) with
                     | Some e => Ok [environment_word v e]
                     | None => Raise (UndefinedVariable v w)
                     end;;
               definition_customized_copy d None (Some ws))).
  { intros diff_mode. rewrite resolve_variables_eq, Hw.
    unfold resolve_words, resolve_word. rewrite Hq, Hproxy. cbn [bind fragments].
    unfold resolve_fragments, resolve_fragment.
    cbn [is_variable negb fragment_value force_string]. rewrite Hlex. cbn [bind].
    destruct (if diff_mode then Some ("$" +:+ v) else environ v) as [e|];
      reflexivity. }
  split.
  - rewrite Hstep. cbn [bind].
    unfold definition_customized_copy, definition_copy. now rewrite Hinit.
  - rewrite Hstep. destruct (environ v) as [e|]; cbn [bind]; [| reflexivity].
    unfold definition_customized_copy, definition_copy. now rewrite Hinit.
Qed.

(** ** Lexical lookup *)

Lemma lexical_candidates_before (objs : list (object conv)) (path : string)
    (stop : nat) (cands l : list (object conv)) :
  lexical_candidates objs path (Some stop) cands = Ok l ->
  Forall (declared_before stop) cands ->
  Forall (declared_before stop) l.
Proof.
  revert cands. induction objs as [|o objs IH]; intros cands Hl Hc.
  - simpl in Hl. now injection Hl as <-.
  - cbn [lexical_candidates] in Hl.
    assert (Ho : (forall i, primary_id o = Some i -> i < stop) ->
                 Forall (declared_before stop) (cands ++ [o])).
    { intros Hi. apply Forall_app. split; [exact Hc |].
      constructor; [exact Hi | constructor]. }
    destruct (primary_id o) as [i|] eqn:Hid.
    + destruct (stop <=? i) eqn:Hs; [now injection Hl as <- |].
      apply Nat.leb_gt in Hs.
      destruct (is_definition o);
        [destruct (String.eqb (name o) path)
        | destruct (String.eqb (name o) path || startswith path (name o +:+ "."))];
        (eapply IH; [exact Hl |]); try exact Hc;
        apply Ho; intros ? [= <-]; exact Hs.
    + destruct (is_definition o);
        [destruct (String.eqb (name o) path)
        | destruct (String.eqb (name o) path || startswith path (name o +:+ "."))];
        (eapply IH; [exact Hl |]); try exact Hc;
        apply Ho; intros ? [=].
Qed.

(** X10: a variable only sees what was declared before its point of use:
    whatever [lexical_get] returns, from the scope itself, from a nested
    scope or from an enclosing one, has a [primary_id] below [stop_id]. *)
Theorem lexical_get_respects_stop_id (fuel : nat) (self : object conv)
    (path : string) (stop : nat) (search_up : bool) (o : object conv) :
  lexical_get heap fuel self path (Some stop) search_up = Ok (Some o) ->
  declared_before stop o.
Proof.
  revert self path search_up o.
  induction fuel as [|fuel IH]; intros self path search_up o Hget; [discriminate |].
  cbn [lexical_get] in Hget.
  destruct (if startswith path "."
            then r <- root_scope heap fuel self;; Ok (r, str_drop 1 path)
            else Ok (self, path)) as [[self' path']|e]; [| discriminate].
  cbn [bind] in Hget.
  destruct (lexical_candidates (objects self') path' (Some stop) [])
    as [cands|e] eqn:Hc; [| discriminate].
  cbn [bind] in Hget.
  apply lexical_candidates_before in Hc; [| constructor].
  apply Forall_rev in Hc.
  match type of Hget with
  | (x <- ?pop (rev cands);; _) = _ =>
      assert (Hpop : forall l r, Forall (declared_before stop) l ->
                                 pop l = Ok (Some r) -> declared_before stop r)
  end.
  { induction l as [|c l IHl]; intros r Hl Hr; [discriminate |].
    inversion Hl as [|? ? Hcb Hl']; subst.
    destruct (String.eqb (name c) path').
    - now injection Hr as <-.
    - destruct (lexical_get heap fuel c _ (Some stop) false) as [[x|]|e] eqn:Hx;
        cbn [bind] in Hr; [| | discriminate].
      + injection Hr as <-. exact (IH _ _ _ _ Hx).
      + exact (IHl r Hl' Hr). }
  match type of Hget with
  | (x <- ?pop (rev cands);; _) = _ =>
      destruct (pop (rev cands)) as [[x|]|e] eqn:Hfound
  end; cbn [bind] in Hget; [| | discriminate].
  - injection Hget as <-. exact (Hpop _ _ Hc Hfound).
  - destruct (negb search_up); [discriminate |].
    destruct (deref heap (primary_parent_scope self')) as [[s|]|e];
      cbn [bind] in Hget; try discriminate.
    exact (IH _ _ _ _ Hget).
Qed.

(** ** Lookup by path *)

Lemma get_children_active (fuel : nat) (objs : list (object conv))
    (path : string) (alias_path : option string) (l : list (object conv)) :
  Forall (fun o => forall l,
            get_without_substitution heap fuel o path alias_path = Ok l ->
            Forall (fun x => is_disabled x = false) l) objs ->
  (fix extend (l : list (object conv)) : result (list (object conv)) :=
     match l with
     | [] => Ok []
     | o :: l' =>
         if is_disabled o then extend l'
         else
           r <- get_without_substitution heap fuel o path alias_path;;
           rs <- extend l';;
           Ok (r ++ rs)
     end) objs = Ok l ->
  Forall (fun x => is_disabled x = false) l.
Proof.
  intros Hall. revert l. induction Hall as [|o objs Ho _ IH]; intros l Hl.
  - injection Hl as <-. constructor.
  - destruct (is_disabled o); [exact (IH l Hl) |].
    destruct (get_without_substitution heap fuel o path alias_path) as [r|e];
      [| discriminate].
    cbn [bind] in Hl.
    match type of Hl with
    | (rs <- ?ext objs;; _) = _ => destruct (ext objs) as [rs|e]; [| discriminate]
    end.
    cbn [bind] in Hl. injection Hl as <-.
    apply Forall_app. split; [now apply Ho | now apply IH].
Qed.

Lemma get_named_active (fuel : nat) (o : object conv) :
  named o = true ->
  forall path alias_path l,
    get_without_substitution heap fuel o path alias_path = Ok l ->
    Forall (fun x => is_disabled x = false) l.
Proof.
  induction o as [d|h objs IH] using object_nested_ind; intros Hn path ap l Hl.
  - cbn [get_without_substitution] in Hl.
    destruct (def_is_disabled d) eqn:Hd; cbn [orb] in Hl.
    + injection Hl as <-. constructor.
    + destruct (_ && _); injection Hl as <-; constructor; [exact Hd | constructor].
  - cbn [named] in Hn. apply andb_true_iff in Hn as [Hname Hobjs].
    apply negb_true_iff, String.eqb_neq in Hname.
    assert (Hchildren : forall path,
              Forall (fun o => forall l,
                        get_without_substitution heap fuel o path ap = Ok l ->
                        Forall (fun x => is_disabled x = false) l) objs).
    { intros p. rewrite forallb_forall in Hobjs.
      rewrite Forall_forall in IH. apply Forall_forall. intros o Ho l' Hl'.
      apply (IH o Ho) with (path := p) (alias_path := ap); [| exact Hl'].
      apply Hobjs. now apply list_elem_of_In. }
    cbn [get_without_substitution] in Hl.
    destruct (scope_is_disabled h) eqn:Hdis; [injection Hl as <-; constructor |].
    assert (Hlen : (String.length (scope_name h) =? 0) = false).
    { apply Nat.eqb_neq. destruct (scope_name h); [congruence | discriminate]. }
    rewrite Hlen in Hl.
    destruct (_ || _).
    { injection Hl as <-. constructor; [exact Hdis | constructor]. }
    destruct (startswith path (scope_name h +:+ ".")).
    { exact (get_children_active fuel objs _ ap l (Hchildren _) Hl). }
    destruct ap as [a|]; [| injection Hl as <-; constructor].
    destruct (full_path heap fuel (Scope h objs)) as [fp|e]; [| discriminate].
    cbn [bind] in Hl.
    destruct (startswith fp a);
      exact (get_children_active fuel objs _ (Some a) l (Hchildren _) Hl).
Qed.

(** X11: in a tree whose scopes below the top all have names, a lookup that
    is not the empty path on an unnamed top scope never returns a disabled
    object. *)
Theorem get_without_substitution_returns_active (fuel : nat) (self : object conv)
    (path : string) (alias_path : option string) (l : list (object conv)) :
  forallb named (objects self) = true ->
  name self <> "" \/ path <> "" ->
  get_without_substitution heap fuel self path alias_path = Ok l ->
  Forall (fun x => is_disabled x = false) l.
Proof.
  intros Hobjs Hne Hl.
  destruct self as [d|h objs].
  { exact (get_named_active fuel (Def d) eq_refl path alias_path l Hl). }
  cbn [objects name] in *.
  destruct (String.eqb_spec (scope_name h) "") as [Hempty|Hname].
  - destruct Hne as [Hne|Hne]; [congruence |].
    cbn [get_without_substitution] in Hl.
    destruct (scope_is_disabled h); [injection Hl as <-; constructor |].
    rewrite Hempty in Hl. cbn [String.length Nat.eqb] in Hl.
    assert (Hlen : (String.length path =? 0) = false).
    { apply Nat.eqb_neq. destruct path; [congruence | discriminate]. }
    rewrite Hlen in Hl.
    apply (get_children_active fuel objs path alias_path l); [| exact Hl].
    rewrite forallb_forall in Hobjs. apply Forall_forall. intros o Ho l' Hl'.
    apply (get_named_active fuel o) with (path := path) (alias_path := alias_path);
      [| exact Hl'].
    apply Hobjs. now apply list_elem_of_In.
  - apply (get_named_active fuel (Scope h objs)) with (path := path)
                                                      (alias_path := alias_path);
      [| exact Hl].
    cbn [named]. apply andb_true_iff. split; [| exact Hobjs].
    apply negb_true_iff. now apply String.eqb_neq.
Qed.

(** ** Iterating a master *)

Lemma active_with_positions_snd (i : nat) (objs : list (object conv)) :
  map snd (active_with_positions i objs)
  = filter (fun o => is_disabled o = false) objs.
Proof.
  revert i. induction objs as [|o objs IH]; intros i; [reflexivity |].
  cbn [active_with_positions]. rewrite filter_cons.
  destruct (is_disabled o) eqn:Hd.
  - rewrite decide_False by congruence. apply IH.
  - rewrite decide_True by reflexivity. cbn [map snd]. now rewrite IH.
Qed.

Lemma active_with_positions_lookup (i : nat) (objs : list (object conv)) :
  Forall (fun p => i <= p.1 /\ objs !! (p.1 - i) = Some p.2)
         (active_with_positions i objs).
Proof.
  revert i. induction objs as [|o objs IH]; intros i; [constructor |].
  cbn [active_with_positions].
  assert (Hrest : Forall (fun p => i <= p.1 /\ (o :: objs) !! (p.1 - i) = Some p.2)
                         (active_with_positions (S i) objs)).
  { eapply Forall_impl; [apply IH |]. intros [j x] [Hle Hx]. cbn [fst snd] in *.
    split; [lia |]. replace (j - i) with (S (j - S i)) by lia. exact Hx. }
  destruct (is_disabled o); [exact Hrest |].
  constructor; [| exact Hrest]. cbn [fst snd]. split; [lia |].
  now rewrite Nat.sub_diag.
Qed.

Lemma master_active_fold_collect_distinct (fuel : nat) (rest : list (object conv))
    (i : nat) (names : gmap string (nat * object conv))
    (acc : list (nat * object conv)) :
  NoDup (map name (filter (fun o => is_disabled o = false) rest)) ->
  Forall (fun o => is_disabled o = false -> names !! name o = None) rest ->
  master_active_fold heap (@bind) (fun _ r => r) fuel
    (fun i o acc => Ok (acc ++ [(i, o)])) rest i names acc
  = Ok (acc ++ active_with_positions i rest).
Proof.
  revert i names acc. induction rest as [|o rest IH]; intros i names acc Hnd Hfresh.
  - simpl. now rewrite app_nil_r.
  - apply Forall_cons in Hfresh as [Ho Hfresh].
    cbn [master_active_fold active_with_positions].
    rewrite filter_cons in Hnd.
    destruct (is_disabled o) eqn:Hd.
    + rewrite decide_False in Hnd by congruence. now apply IH.
    + rewrite decide_True in Hnd by reflexivity.
      cbn [map] in Hnd. apply NoDup_cons in Hnd as [Hnotin Hnd].
      rewrite (Ho eq_refl). cbn [default]. rewrite Nat.eqb_refl. cbn [negb bind].
      rewrite IH; [now rewrite <- app_assoc | exact Hnd |].
      apply Forall_forall. intros o' Ho' Hact.
      rewrite Forall_forall in Hfresh.
      rewrite lookup_insert_ne; [now apply Hfresh |].
      intros Heq. apply Hnotin. rewrite Heq.
      apply list_elem_of_fmap. exists o'. split; [reflexivity |].
      apply list_elem_of_filter. auto.
Qed.

(** X12: when the active children of a master carry pairwise different names,
    iterating it raises nothing and yields exactly its active objects, in
    order, each at its position among the children. *)
Theorem master_active_objects_distinct_names (fuel : nat) (self : object conv) :
  NoDup (map name (active_objects self)) ->
  master_active_objects heap fuel self
  = Ok (active_with_positions 0 (objects self))
  /\ map snd (active_with_positions 0 (objects self)) = active_objects self
  /\ Forall (fun p => objects self !! p.1 = Some p.2)
            (active_with_positions 0 (objects self)).
Proof.
  intros Hnd. split; [| split].
  - unfold master_active_objects.
    rewrite master_active_fold_collect_distinct; [reflexivity | exact Hnd |].
    apply Forall_forall. intros o _ _. apply lookup_empty.
  - apply active_with_positions_snd.
  - eapply Forall_impl; [apply (active_with_positions_lookup 0) |].
    intros [j x] [_ Hx]. cbn [fst snd] in *. now rewrite Nat.sub_0_r in Hx.
Qed.

(** ** The value graph *)







(** ** extract *)




(** ** Removing overridden duplicates *)

Lemma unique_selection_kept (l : list (object conv)) (i : nat)
    (sel : gmap string nat) (m : string) :
  overridden m l = false -> unique_selection l i sel !! m = sel !! m.
Proof.
  revert i sel. induction l as [|o l IH]; intros i sel Hov; [reflexivity |].
  cbn [overridden existsb] in Hov. fold (overridden m l) in Hov.
  apply orb_false_iff in Hov as [Ho Hov].
  cbn [unique_selection].
  destruct (is_disabled o); [now apply IH |].
  cbn [negb andb] in Ho. rewrite IH by exact Hov.
  apply lookup_insert_ne. now apply String.eqb_neq.
Qed.

Lemma unique_selection_overridden (l : list (object conv)) (i : nat)
    (sel : gmap string nat) (m : string) :
  overridden m l = true ->
  exists k, unique_selection l i sel !! m = Some k /\ i <= k.
Proof.
  revert i sel. induction l as [|o l IH]; intros i sel Hov; [discriminate |].
  cbn [overridden existsb] in Hov. fold (overridden m l) in Hov.
  cbn [unique_selection].
  destruct (is_disabled o); [cbn [negb andb orb] in Hov; now apply IH |].
  cbn [negb andb] in Hov.
  destruct (overridden m l) eqn:Hl.
  - destruct (IH (S i) (<[name o := i]> sel) eq_refl) as [k [Hk Hle]].
    exists k. split; [exact Hk | lia].
  - rewrite orb_false_r in Hov. apply String.eqb_eq in Hov as <-.
    exists i. split; [| lia].
    rewrite unique_selection_kept by exact Hl. apply lookup_insert_eq.
Qed.

Lemma unique_objects_last (f : object conv -> result (object conv))
    (l : list (object conv)) (i : nat) (sel : gmap string nat) :
  unique_objects f (unique_selection l i sel) l i
  = map_result f (last_occurrences l).
Proof.
  revert i sel. induction l as [|o l IH]; intros i sel; [reflexivity |].
  cbn [unique_objects unique_selection last_occurrences].
  destruct (is_disabled o); cbn [orb]; [apply IH |].
  destruct (overridden (name o) l) eqn:Hov.
  - destruct (unique_selection_overridden l (S i) (<[name o := i]> sel) _ Hov)
      as [k [Hk Hle]].
    rewrite bool_decide_eq_false_2; [apply IH |].
    rewrite Hk. intros [= ->]. lia.
  - rewrite bool_decide_eq_true_2.
    + cbn [map_result]. now rewrite IH.
    + rewrite unique_selection_kept by exact Hov. apply lookup_insert_eq.
Qed.

Lemma unique_scope_eq (h : scope_header) (objs : list (object conv)) :
  unique (Scope h objs)
  = (rs <- map_result unique (last_occurrences objs);;
     scope_customized_copy h objs None (Some rs)).
Proof. cbn [unique]. now rewrite unique_objects_last. Qed.

(** X17: [unique] of a scope is a copy of the scope that holds, each made
    unique in turn and in their order, the active children that no later
    active sibling of the same name overrides: of the objects that share a
    name the last one stays. *)
Theorem unique_keeps_last_occurrences (h : scope_header)
    (objs : list (object conv)) :
  unique (Scope h objs)
  = (rs <- map_result unique (last_occurrences objs);;
     scope_customized_copy h objs None (Some rs)).
Proof. apply unique_scope_eq. Qed.

Lemma scope_customized_copy_objects (h : scope_header)
    (objs new : list (object conv)) (r : object conv) :
  scope_customized_copy h objs None (Some new) = Ok r ->
  r = Scope (scope_set_is_template h 0%Z) new
  /\ forall objs', scope_init h (Some objs') = Ok (Scope h objs').
Proof.
  unfold scope_customized_copy, scope_copy, scope_init.
  destruct (is_reserved_identifier _); [discriminate |].
  destruct (str_in _ _); [discriminate |].
  destruct (scope_sequential_format h) as [f|].
  - destruct (format_int f); [| discriminate].
    cbn [bind]. intros [= <-]. split; reflexivity.
  - cbn [bind]. intros [= <-]. split; reflexivity.
Qed.

Lemma scope_init_set_is_template (h : scope_header) (t : Z)
    (objs : list (object conv)) :
  scope_init h (Some objs) = Ok (Scope h objs) ->
  scope_init (scope_set_is_template h t) (Some objs)
  = Ok (Scope (scope_set_is_template h t) objs).
Proof.
  unfold scope_init. cbn [scope_set_is_template scope_name scope_where_str
                          scope_sequential_format].
  destruct (is_reserved_identifier _); [discriminate |].
  destruct (str_in _ _); [discriminate |].
  destruct (scope_sequential_format h) as [f|]; [| reflexivity].
  destruct (format_int f); [reflexivity | discriminate].
Qed.

Lemma unique_header (o r : object conv) :
  unique o = Ok r -> name r = name o /\ is_disabled r = is_disabled o.
Proof.
  destruct o as [d|h objs].
  - intros [= <-]. split; reflexivity.
  - rewrite unique_scope_eq.
    destruct (map_result unique (last_occurrences objs)) as [rs|e]; [| discriminate].
    cbn [bind]. intros Hr. apply scope_customized_copy_objects in Hr as [-> _].
    split; reflexivity.
Qed.

Lemma map_result_Forall2 {A B : Type} (f : A -> result B) (l : list A)
    (rs : list B) :
  map_result f l = Ok rs <-> Forall2 (fun a r => f a = Ok r) l rs.
Proof.
  revert rs. induction l as [|a l IH]; intros rs; cbn [map_result].
  - split.
    + intros [= <-]. constructor.
    + intros Hf. inversion Hf. reflexivity.
  - split.
    + destruct (f a) as [r|e] eqn:Hr; [| discriminate]. cbn [bind].
      destruct (map_result f l) as [rs'|e]; [| discriminate]. cbn [bind].
      intros [= <-]. constructor; [exact Hr | now apply IH].
    + intros Hf. inversion Hf as [|? r ? rs' Hr Hrest]; subst.
      rewrite Hr. cbn [bind]. apply IH in Hrest. now rewrite Hrest.
Qed.

Lemma overridden_spec (n : string) (l : list (object conv)) :
  overridden n l = true
  <-> n ∈ map name (filter (fun o => is_disabled o = false) l).
Proof.
  clear heap environ.
  unfold overridden. induction l as [|o l IH]; cbn [existsb].
  - split; [discriminate |]. intros Hn. now apply elem_of_nil in Hn.
  - rewrite filter_cons, orb_true_iff, IH.
    destruct (is_disabled o) eqn:Hd; cbn [negb andb].
    + rewrite decide_False by congruence.
      split; [intros [?|?]; [discriminate | assumption] | now right].
    + rewrite decide_True by reflexivity. cbn [map]. rewrite elem_of_cons.
      rewrite String.eqb_eq. split; intros [?|?]; auto.
Qed.

Lemma last_occurrences_names (l : list (object conv)) :
  NoDup (map name (last_occurrences l))
  /\ (forall n, n ∈ map name (last_occurrences l)
                <-> n ∈ map name (filter (fun o => is_disabled o = false) l))
  /\ Forall (fun o => is_disabled o = false /\ o ∈ l) (last_occurrences l).
Proof.
  clear heap environ.
  induction l as [|o l [Hnd [Hnames Hact]]]; cbn [last_occurrences].
  - split; [constructor |]. split; [reflexivity | constructor].
  - assert (Hact' : Forall (fun x => is_disabled x = false /\ x ∈ o :: l)
                           (last_occurrences l)).
    { eapply Forall_impl; [exact Hact |]. intros x [Hx Hin].
      split; [exact Hx | now apply list_elem_of_further]. }
    rewrite filter_cons.
    destruct (is_disabled o) eqn:Hd; cbn [orb].
    + rewrite decide_False by congruence. auto.
    + rewrite decide_True by reflexivity.
      destruct (overridden (name o) l) eqn:Hov.
      * split; [exact Hnd |]. split; [| exact Hact'].
        intros n. rewrite Hnames. cbn [map]. rewrite elem_of_cons.
        split; [now right |]. intros [->|Hn]; [| exact Hn].
        now apply overridden_spec.
      * split; [| split].
        -- cbn [map]. apply NoDup_cons. split; [| exact Hnd].
           rewrite Hnames, <- overridden_spec. congruence.
        -- intros n. cbn [map]. rewrite !elem_of_cons, Hnames. reflexivity.
        -- constructor; [| exact Hact']. split; [exact Hd | apply list_elem_of_here].
Qed.

Lemma Forall2_elem_of_r {A B : Type} (P : A -> B -> Prop) (l : list A)
    (rs : list B) (r : B) :
  Forall2 P l rs -> r ∈ rs -> exists a, a ∈ l /\ P a r.
Proof.
  intros Hf. induction Hf as [|a b l rs Hab _ IH]; intros Hr.
  - now apply elem_of_nil in Hr.
  - apply elem_of_cons in Hr as [->|Hr].
    + exists a. split; [apply list_elem_of_here | exact Hab].
    + destruct (IH Hr) as [a' [Ha' Hp]]. exists a'.
      split; [now apply list_elem_of_further | exact Hp].
Qed.

Lemma unique_all_active (o : object conv) :
  forall r, unique o = Ok r -> is_disabled o = false -> all_active r = true.
Proof.
  induction o as [d|h objs IH] using object_nested_ind; intros r Hr Hact.
  - injection Hr as <-. cbn [all_active is_disabled] in *. now rewrite Hact.
  - rewrite unique_scope_eq in Hr.
    destruct (map_result unique (last_occurrences objs)) as [rs|e] eqn:Hrs;
      [| discriminate].
    cbn [bind] in Hr. apply scope_customized_copy_objects in Hr as [-> _].
    cbn [all_active is_disabled scope_set_is_template scope_is_disabled] in *.
    rewrite Hact. cbn [negb andb].
    apply map_result_Forall2 in Hrs.
    destruct (last_occurrences_names objs) as [_ [_ Hin]].
    apply forallb_forall. intros x Hx. apply list_elem_of_In in Hx.
    destruct (Forall2_elem_of_r _ _ _ _ Hrs Hx) as [o [Ho Hu]].
    rewrite Forall_forall in Hin, IH.
    destruct (Hin o Ho) as [Hoact Hoin].
    exact (IH o Hoin x Hu Hoact).
Qed.

(** X18: the children of what [unique] returns carry pairwise different
    names, the names of the active children of the scope it was applied
    to, and no disabled object is left at any depth. *)
Theorem unique_names_are_distinct (self r : object conv) :
  unique self = Ok r ->
  NoDup (map name (objects r))
  /\ (forall n, n ∈ map name (objects r) <-> n ∈ map name (active_objects self))
  /\ Forall (fun o => all_active o = true) (objects r).
Proof.
  clear heap environ.
  destruct self as [d|h objs].
  { intros [= <-]. cbn [objects map]. split; [constructor |].
    split; [reflexivity | constructor]. }
  rewrite unique_scope_eq.
  destruct (map_result unique (last_occurrences objs)) as [rs|e] eqn:Hrs;
    [| discriminate].
  cbn [bind]. intros Hr. apply scope_customized_copy_objects in Hr as [-> _].
  cbn [objects]. apply map_result_Forall2 in Hrs.
  assert (Hnames : map name rs = map name (last_occurrences objs)).
  { clear -Hrs. induction Hrs as [|o r l rs Hr _ IH]; [reflexivity |].
    cbn [map]. apply unique_header in Hr as [-> _]. now rewrite IH. }
  destruct (last_occurrences_names objs) as [Hnd [Hsame Hin]].
  rewrite Hnames. split; [exact Hnd |]. split; [exact Hsame |].
  apply Forall_forall. intros x Hx.
  destruct (Forall2_elem_of_r _ _ _ _ Hrs Hx) as [o [Ho Hu]].
  rewrite Forall_forall in Hin.
  destruct (Hin o Ho) as [Hoact _].
  exact (unique_all_active o x Hu Hoact).
Qed.

Lemma last_occurrences_fixed (l : list (object conv)) :
  NoDup (map name l) -> Forall (fun o => is_disabled o = false) l ->
  last_occurrences l = l.
Proof.
  clear heap environ.
  induction l as [|o l IH]; intros Hnd Hact; [reflexivity |].
  cbn [map] in Hnd. apply NoDup_cons in Hnd as [Hnotin Hnd].
  apply Forall_cons in Hact as [Ho Hact].
  cbn [last_occurrences]. rewrite Ho. cbn [orb].
  destruct (overridden (name o) l) eqn:Hov.
  - exfalso. apply Hnotin. apply overridden_spec in Hov.
    apply list_elem_of_fmap in Hov as [x [-> Hx]].
    apply list_elem_of_filter in Hx as [_ Hx].
    apply list_elem_of_fmap. eauto.
  - now rewrite IH.
Qed.

Lemma Forall2_same {A : Type} (P : A -> A -> Prop) (l : list A) :
  Forall (fun x => P x x) l -> Forall2 P l l.
Proof. induction 1; constructor; assumption. Qed.

(** X19: [unique] is idempotent: applied to its own result it returns that
    result. *)
Theorem unique_idempotent (o r : object conv) :
  unique o = Ok r -> unique r = Ok r.
Proof.
  clear heap environ.
  revert r. induction o as [d|h objs IH] using object_nested_ind; intros r Hr.
  - now injection Hr as <-.
  - rewrite unique_scope_eq in Hr.
    destruct (map_result unique (last_occurrences objs)) as [rs|e] eqn:Hrs;
      [| discriminate].
    cbn [bind] in Hr. apply scope_customized_copy_objects in Hr as [-> Hinit].
    apply map_result_Forall2 in Hrs.
    destruct (last_occurrences_names objs) as [Hnd [_ Hin]].
    assert (Hnames : map name rs = map name (last_occurrences objs)).
    { clear -Hrs. induction Hrs as [|o r l rs Hr _ IHrs]; [reflexivity |].
      cbn [map]. apply unique_header in Hr as [-> _]. now rewrite IHrs. }
    assert (Hact : Forall (fun x => is_disabled x = false) rs).
    { apply Forall_forall. intros x Hx.
      destruct (Forall2_elem_of_r _ _ _ _ Hrs Hx) as [o [Ho Hu]].
      rewrite Forall_forall in Hin. destruct (Hin o Ho) as [Hoact _].
      apply unique_header in Hu as [_ ->]. exact Hoact. }
    assert (Hfix : map_result unique rs = Ok rs).
    { apply map_result_Forall2, Forall2_same. apply Forall_forall. intros x Hx.
      destruct (Forall2_elem_of_r _ _ _ _ Hrs Hx) as [o [Ho Hu]].
      rewrite Forall_forall in Hin, IH. destruct (Hin o Ho) as [_ Hoin].
      exact (IH o Hoin x Hu). }
    rewrite unique_scope_eq, last_occurrences_fixed, Hfix;
      [| now rewrite Hnames | exact Hact].
    cbn [bind]. unfold scope_customized_copy, scope_copy.
    rewrite (scope_init_set_is_template h 0%Z rs (Hinit rs)). reflexivity.
Qed.

(** ** scope.resolve_variables *)

Lemma resolve_objects_active (f : object conv -> result (object conv))
    (l : list (object conv)) :
  resolve_objects f l = map_result f (filter (fun o => is_disabled o = false) l).
Proof.
  clear heap environ.
  induction l as [|o l IH]; [reflexivity |].
  cbn [resolve_objects]. rewrite filter_cons.
  destruct (is_disabled o) eqn:Hd.
  - rewrite decide_False by congruence. exact IH.
  - rewrite decide_True by reflexivity. cbn [map_result]. now rewrite IH.
Qed.

Lemma resolve_variables_header (fuel : nat) (d r : definition conv)
    (diff_mode : bool) :
  resolve_variables heap environ fuel d diff_mode = Ok r ->
  def_name r = def_name d /\ def_is_disabled r = def_is_disabled d
  /\ def_is_template r = 0%Z.
Proof.
  rewrite resolve_variables_eq.
  destruct (resolve_words _ _ _ _ _ _ _) as [ws|e]; [| discriminate].
  cbn [bind]. unfold definition_customized_copy, definition_copy.
  destruct (definition_init d) as [d0|e] eqn:Hinit; [| discriminate].
  apply definition_init_ok in Hinit as ->. cbn [bind].
  intros [= <-]. repeat split.
Qed.

Lemma scope_resolve_variables_header (fuel : nat) (o r : object conv) :
  scope_resolve_variables heap environ fuel o = Ok r ->
  name r = name o /\ is_disabled r = is_disabled o /\ is_template r = 0%Z.
Proof.
  destruct o as [d|h objs]; cbn [scope_resolve_variables].
  - destruct (resolve_variables heap environ fuel d false) as [r'|e] eqn:Hr;
      [| discriminate].
    cbn [bind]. intros [= <-]. now apply resolve_variables_header in Hr.
  - destruct (resolve_objects _ objs) as [rs|e]; [| discriminate].
    cbn [bind]. intros Hr. apply scope_customized_copy_objects in Hr as [-> _].
    repeat split.
Qed.

Lemma scope_resolve_variables_all_active (fuel : nat) (o : object conv) :
  forall r, scope_resolve_variables heap environ fuel o = Ok r ->
            is_disabled o = false -> all_active r = true.
Proof.
  induction o as [d|h objs IH] using object_nested_ind; intros r Hr Hact.
  - apply scope_resolve_variables_header in Hr as Hh.
    destruct Hh as [_ [Hd _]]. cbn [scope_resolve_variables] in Hr.
    destruct (resolve_variables heap environ fuel d false); [| discriminate].
    injection Hr as <-. cbn [all_active is_disabled] in *.
    rewrite Hd, Hact. reflexivity.
  - cbn [scope_resolve_variables] in Hr. rewrite resolve_objects_active in Hr.
    destruct (map_result _ _) as [rs|e] eqn:Hrs; [| discriminate].
    cbn [bind] in Hr. apply scope_customized_copy_objects in Hr as [-> _].
    cbn [all_active is_disabled scope_set_is_template scope_is_disabled] in *.
    rewrite Hact. cbn [negb andb].
    apply map_result_Forall2 in Hrs.
    apply forallb_forall. intros x Hx. apply list_elem_of_In in Hx.
    destruct (Forall2_elem_of_r _ _ _ _ Hrs Hx) as [o [Ho Hu]].
    apply list_elem_of_filter in Ho as [Hoact Hoin].
    rewrite Forall_forall in IH. exact (IH o Hoin x Hu Hoact).
Qed.

(** X20: [scope.resolve_variables] drops the disabled objects and keeps the
    others in place: the result holds one child for each active child of
    the scope, under the same name and in the same order, no disabled
    object is left at any depth, and [is_template] is reset. *)
Theorem scope_resolve_variables_keeps_the_active (fuel : nat)
    (self r : object conv) :
  scope_resolve_variables heap environ fuel self = Ok r ->
  map name (objects r) = map name (active_objects self)
  /\ Forall (fun o => all_active o = true) (objects r)
  /\ name r = name self /\ is_template r = 0%Z.
Proof.
  intros Hr. apply scope_resolve_variables_header in Hr as Hh.
  destruct Hh as [Hname [_ Htpl]].
  destruct self as [d|h objs]; cbn [scope_resolve_variables] in Hr.
  - destruct (resolve_variables heap environ fuel d false); [| discriminate].
    injection Hr as <-. cbn [objects map]. repeat split; auto.
  - rewrite resolve_objects_active in Hr.
    destruct (map_result _ _) as [rs|e] eqn:Hrs; [| discriminate].
    cbn [bind] in Hr. apply scope_customized_copy_objects in Hr as [-> _].
    cbn [objects]. apply map_result_Forall2 in Hrs.
    split; [| split; [| split; [exact Hname | exact Htpl]]].
    + unfold active_objects. cbn [objects].
      clear -Hrs. induction Hrs as [|o r l rs Hr _ IH]; [reflexivity |].
      cbn [map]. apply scope_resolve_variables_header in Hr as [-> _].
      now rewrite IH.
    + apply Forall_forall. intros x Hx.
      destruct (Forall2_elem_of_r _ _ _ _ Hrs Hx) as [o [Ho Hu]].
      apply list_elem_of_filter in Ho as [Hoact _].
      exact (scope_resolve_variables_all_active fuel o x Hu Hoact).
Qed.

(** ** find_scope *)

(** X21: whatever [find_scope] returns has the full path that was asked
    for. *)
Theorem find_scope_finds_the_path (fuel : nat) (current_phil : object conv)
    (scope_name : string) (o : object conv) :
  find_scope heap fuel current_phil scope_name = Ok (Some o) ->
  full_path heap fuel o = Ok scope_name.
Proof.
  revert o.
  induction current_phil as [d|h objs IH] using object_nested_ind; intros o Ho.
  - discriminate.
  - cbn [find_scope] in Ho.
    induction IH as [|c objs Hc _ IHobjs]; [discriminate |].
    cbn [find_scope_loop] in Ho.
    destruct (full_path heap fuel c) as [fp|e] eqn:Hfp; [| discriminate].
    cbn [bind] in Ho.
    destruct (String.eqb_spec fp scope_name) as [->|Hne].
    + now injection Ho as <-.
    + destruct (startswith scope_name (fp +:+ ".")).
      * exact (Hc o Ho).
      * exact (IHobjs Ho).
Qed.

(** ** Fetching from several sources *)

Lemma combine_sources_concat (h : scope_header) (sources : list (object conv))
    (skip : bool) :
  Forall (fun s => name s = scope_name h /\ (is_scope s = true \/ skip = true))
         sources ->
  combine_sources h sources skip = Ok (concat (map objects sources)).
Proof.
  induction 1 as [|s sources [Hname Hkind] _ IH]; [reflexivity |].
  cbn [combine_sources]. rewrite Hname, String.eqb_refl. cbn [negb].
  destruct s as [d|hs objs].
  - destruct Hkind as [Hkind|Hskip]; [discriminate |]. rewrite Hskip in *.
    exact IH.
  - rewrite IH. reflexivity.
Qed.

(** X22: fetching from a list of sources is fetching from one source that
    holds their children one after the other: only the concatenation of
    the sources' objects matters. A definition among the sources counts
    for nothing when incompatible objects are skipped. *)
Theorem fetch_sources_concatenate (fuel : nat) (h hc : scope_header)
    (objs : list (object conv)) (sources : list (object conv))
    (diff skip : bool) :
  Forall (fun s => name s = scope_name h /\ (is_scope s = true \/ skip = true))
         sources ->
  scope_name hc = scope_name h ->
  scope_fetch heap environ fuel (Scope h objs) sources diff skip
  = scope_fetch heap environ fuel (Scope h objs)
      [Scope hc (concat (map objects sources))] diff skip.
Proof.
  intros Hsources Hname. cbn [scope_fetch].
  rewrite (combine_sources_concat h sources skip Hsources).
  cbn [combine_sources name]. rewrite Hname, String.eqb_refl. cbn [negb bind].
  now rewrite app_nil_r.
Qed.

(** ** Fetching without sources *)

Lemma plain_tree_children (fuel : nat) (objs : list (object conv)) :
  (fix all (l : list (object conv)) : Prop :=
     match l with
     | [] => True
     | c :: l' => (is_disabled c = false -> plain_tree heap fuel c) /\ all l'
     end) objs
  <-> Forall (fun c => is_disabled c = false -> plain_tree heap fuel c) objs.
Proof.
  induction objs as [|c objs IH].
  - split; [constructor | trivial].
  - rewrite Forall_cons, <- IH. reflexivity.
Qed.

Lemma eqb_longer (a b : string) : String.eqb a (a +:+ "." +:+ b) = false.
Proof.
  apply String.eqb_neq. intros Heq. apply (f_equal String.length) in Heq.
  rewrite !string_length_app in Heq. simpl in Heq. lia.
Qed.

Lemma startswith_app (a b : string) : startswith (a +:+ b) a = true.
Proof. apply startswith_spec. now exists b. Qed.

(** Looking a child up in a source without objects finds nothing. *)
Lemma get_in_empty_source (fuel : nat) (h : scope_header) (mo : object conv) :
  get heap fuel (Scope h []) (child_path h mo) None
  = Ok (Scope (empty_header "") []).
Proof.
  unfold get. cbn [get_without_substitution].
  assert (Hl : (if scope_is_disabled h then Ok []
                else if String.length (scope_name h) =? 0
                     then if String.length (child_path h mo) =? 0
                          then Ok [] else Ok []
                     else if String.eqb (scope_name h) (child_path h mo) || false
                          then Ok [Scope h []]
                          else if startswith (child_path h mo) (scope_name h +:+ ".")
                               then Ok [] else Ok [])
               = (Ok [] : result (list (object conv)))).
  { destruct (scope_is_disabled h); [reflexivity |].
    unfold child_path.
    destruct (String.length (scope_name h) =? 0) eqn:Hlen.
    - destruct (String.length (name mo) =? 0); reflexivity.
    - rewrite eqb_longer. cbn [orb].
      destruct (startswith _ _); reflexivity. }
  rewrite Hl. reflexivity.
Qed.

(** What the loop of [scope.fetch] appends for one plain master object when
    there is no source. *)
Lemma fetch_plain_master_object (fuel : nat)
    (h : scope_header) (objs : list (object conv)) (i : nat)
    (mo : object conv) (diff skip : bool) :
  plain_tree heap fuel mo ->
  (is_scope mo = true ->
   scope_fetch heap environ fuel mo [] diff skip
   = mkM [] (Ok (plain_result diff mo))) ->
  fetch_master_object heap environ fuel
    (scope_fetch heap environ fuel mo) h objs
    (Scope (scope_set_is_template h 0%Z) []) i mo diff skip
  = mkM [] (Ok (plain_contribution diff mo)).
Proof.
  intros Hplain IH.
  assert (Hhead : truthy (multiple mo) = false
                  /\ alias_path heap fuel mo = Ok None).
  { destruct mo; destruct Hplain as [Hmult [Halias _]]; auto. }
  destruct Hhead as [Hmult Halias].
  unfold fetch_master_object, plain_contribution.
  rewrite Halias, bindM_lift_ok.
  assert (Hpath : child_path h mo
                  = child_path (scope_set_is_template h 0%Z) mo) by reflexivity.
  rewrite Hpath, get_in_empty_source, bindM_lift_ok, Hmult. cbn [negb].
  change (active_objects (Scope (empty_header "") []))
    with (@nil (object conv)).
  destruct mo as [d|hm objsm].
  - destruct Hplain as [_ [_ Hkind]].
    cbn [fetch_last].
    rewrite bindM_ret_l. unfold keep_or_default. cbn [deprecated].
    destruct diff; cbn [negb andb orb]; [reflexivity |].
    destruct (truthy (def_deprecated d)); cbn [negb]; [reflexivity |].
    cbn [object_copy]. unfold definition_copy. rewrite Hkind. cbn [bind].
    rewrite bindM_lift_ok. reflexivity.
  - rewrite (IH eq_refl). unfold plain_result.
    destruct diff; cbn [andb orb deprecated].
    + change (mkM [] (Ok (emptied (Scope hm objsm))))
        with (ret (emptied (Scope hm objsm))).
      rewrite bindM_ret_l. cbn [emptied objects length Nat.eqb].
      rewrite bindM_ret_l. reflexivity.
    + change (mkM [] (Ok (defaults (Scope hm objsm))))
        with (ret (defaults (Scope hm objsm))).
      rewrite !bindM_ret_l. reflexivity.
Qed.

Lemma plain_contributions_defaults (l : list (object conv)) :
  plain_contributions false l = defaults_objects defaults l.
Proof.
  induction l as [|c l IH]; [reflexivity |].
  cbn [plain_contributions defaults_objects]. unfold plain_contribution.
  destruct (is_disabled c); cbn [orb]; [exact IH |].
  destruct (deprecated c); cbn [app]; now rewrite IH.
Qed.

Lemma plain_contributions_diff (l : list (object conv)) :
  plain_contributions true l = [].
Proof.
  induction l as [|c l IH]; [reflexivity |].
  cbn [plain_contributions]. destruct (is_disabled c); exact IH.
Qed.

Lemma master_active_fold_plain (fuel : nat) (diff : bool)
    (body : nat -> object conv -> list (object conv) -> M (list (object conv)))
    (rest : list (object conv)) (i : nat)
    (names : gmap string (nat * object conv)) (acc : list (object conv)) :
  NoDup (map name (filter (fun c => is_disabled c = false) rest)) ->
  Forall (fun c => is_disabled c = false -> names !! name c = None) rest ->
  Forall (fun c => is_disabled c = false ->
                   forall i acc,
                     body i c acc = mkM [] (Ok (acc ++ plain_contribution diff c)))
         rest ->
  master_active_fold heap (@bindM) (@lift) fuel body rest i names acc
  = mkM [] (Ok (acc ++ plain_contributions diff rest)).
Proof.
  revert i names acc.
  induction rest as [|o rest IH]; intros i names acc Hnd Hfresh Hbody.
  - cbn [master_active_fold plain_contributions]. now rewrite app_nil_r.
  - apply Forall_cons in Hfresh as [Ho Hfresh].
    apply Forall_cons in Hbody as [Hb Hbody].
    cbn [master_active_fold plain_contributions].
    rewrite filter_cons in Hnd.
    destruct (is_disabled o) eqn:Hd.
    + rewrite decide_False in Hnd by congruence. now apply IH.
    + rewrite decide_True in Hnd by reflexivity.
      cbn [map] in Hnd. apply NoDup_cons in Hnd as [Hnotin Hnd].
      rewrite (Ho eq_refl). cbn [default]. rewrite Nat.eqb_refl. cbn [negb].
      rewrite (Hb eq_refl).
      change (mkM [] (Ok (acc ++ plain_contribution diff o)))
        with (ret (acc ++ plain_contribution diff o)).
      rewrite bindM_ret_l, IH; [| exact Hnd | | exact Hbody].
      * now rewrite <- app_assoc.
      * apply Forall_forall. intros o' Ho' Hact.
        rewrite Forall_forall in Hfresh.
        rewrite lookup_insert_ne; [now apply Hfresh |].
        intros Heq. apply Hnotin. rewrite Heq.
        apply list_elem_of_fmap. exists o'. split; [reflexivity |].
        apply list_elem_of_filter. auto.
Qed.

Lemma scope_fetch_plain (fuel : nat) (diff skip : bool) (o : object conv) :
  is_scope o = true ->
  plain_tree heap fuel o ->
  scope_fetch heap environ fuel o [] diff skip
  = mkM [] (Ok (plain_result diff o)).
Proof.
  induction o as [d|h objs IH] using object_nested_ind; intros Hscope Hplain.
  - discriminate.
  - destruct Hplain as [_ [_ [Hinit [Hnd Hall]]]].
    apply plain_tree_children in Hall.
    cbn [scope_fetch combine_sources]. rewrite bindM_lift_ok.
    unfold scope_customized_copy at 1, scope_copy. rewrite Hinit. cbn [bind].
    rewrite bindM_lift_ok.
    rewrite (master_active_fold_plain fuel diff _ objs 0 ∅ []); [| exact Hnd | |].
    + change (mkM [] (Ok ([] ++ plain_contributions diff objs)))
        with (ret (plain_contributions diff objs)).
      rewrite bindM_ret_l.
      unfold scope_customized_copy, scope_copy. rewrite Hinit.
      unfold plain_result. destruct diff.
      * now rewrite plain_contributions_diff.
      * now rewrite plain_contributions_defaults.
    + apply Forall_forall. intros c _ _. apply lookup_empty.
    + rewrite Forall_forall in IH, Hall. apply Forall_forall.
      intros c Hc Hact i acc.
      rewrite (fetch_plain_master_object fuel h objs i c diff skip (Hall c Hc Hact)).
      * reflexivity.
      * intros Hcs. exact (IH c Hc Hcs (Hall c Hc Hact)).
Qed.

(** X23: fetching without any source returns the defaults. For a master
    without multiple objects and without aliases whose active siblings
    carry different names, [fetch] with no source warns of nothing and
    returns the master's own tree: its active parameters with their own
    words, the deprecated ones hidden. *)
Theorem fetch_without_sources_returns_defaults (fuel : nat) (skip : bool)
    (self : object conv) :
  is_scope self = true ->
  plain_tree heap fuel self ->
  scope_fetch heap environ fuel self [] false skip = mkM [] (Ok (defaults self)).
Proof. apply (scope_fetch_plain fuel false). Qed.

(** X24: the differences against no source are none. For the same kind of
    master, [fetch] in diff mode with no source warns of nothing and
    returns the scope without any object. *)
Theorem fetch_diff_without_sources_is_empty (fuel : nat) (skip : bool)
    (self : object conv) :
  is_scope self = true ->
  plain_tree heap fuel self ->
  scope_fetch heap environ fuel self [] true skip = mkM [] (Ok (emptied self)).
Proof. apply (scope_fetch_plain fuel true). Qed.

(** ** Copies *)

(** X25: [customized_copy] does not check the new name. The constructor
    checks run on the copy before the name is replaced, so that any name is
    accepted, a reserved one too, and it is the next copy of the result
    that raises. *)
Theorem customized_copy_does_not_check_the_name (d : definition conv)
    (h : scope_header) (objs : list (object conv)) (n : string) :
  (definition_init d = Ok d ->
   exists r, definition_customized_copy d (Some n) None = Ok r
             /\ def_name r = n
             /\ (dunder5 n -> exists e, definition_copy r = Raise e
                                        /\ is_reserved_error e = true))
  /\ (scope_init h (Some objs) = Ok (Scope h objs) ->
      exists r, scope_customized_copy h objs (Some n) None = Ok r
                /\ name r = n
                /\ (dunder5 n -> exists e, object_copy r = Raise e
                                           /\ is_reserved_error e = true)).
Proof.
  split.
  - intros Hinit. unfold definition_customized_copy, definition_copy.
    rewrite Hinit. cbn [bind]. eexists. split; [reflexivity |].
    split; [reflexivity |]. intros Hn. apply dunder5_spec in Hn.
    unfold definition_init. cbn [def_set_is_template def_set_name_words def_name].
    rewrite Hn. eexists. split; reflexivity.
  - intros Hinit. unfold scope_customized_copy, scope_copy.
    rewrite Hinit. cbn [bind]. eexists. split; [reflexivity |].
    split; [reflexivity |]. intros Hn. apply dunder5_spec in Hn.
    cbn [object_copy]. unfold scope_copy, scope_init.
    cbn [scope_set_is_template scope_set_name scope_name]. rewrite Hn.
    eexists. split; reflexivity.
Qed.

(** ** Listing the definitions *)

Lemma get_children_total (fuel : nat) (objs : list (object conv)) (path : string) :
  Forall (fun o => forall path,
            exists l, get_without_substitution heap fuel o path None = Ok l) objs ->
  exists l,
    (fix extend (l : list (object conv)) : result (list (object conv)) :=
       match l with
       | [] => Ok []
       | o :: l' =>
           if is_disabled o then extend l'
           else
             r <- get_without_substitution heap fuel o path None;;
             rs <- extend l';;
             Ok (r ++ rs)
       end) objs = Ok l
    /\ forall c lc x, c ∈ objs -> is_disabled c = false ->
                      get_without_substitution heap fuel c path None = Ok lc ->
                      x ∈ lc -> x ∈ l.
Proof.
  induction 1 as [|o objs Ho _ [l [Hl Hmem]]].
  - exists []. split; [reflexivity |]. intros c lc x Hc. now apply elem_of_nil in Hc.
  - destruct (is_disabled o) eqn:Hd.
    + exists l. split; [exact Hl |]. intros c lc x Hc Hact Hlc Hx.
      apply elem_of_cons in Hc as [->|Hc]; [congruence |].
      exact (Hmem c lc x Hc Hact Hlc Hx).
    + destruct (Ho path) as [r Hr]. exists (r ++ l). rewrite Hr, Hl.
      split; [reflexivity |]. intros c lc x Hc Hact Hlc Hx.
      apply elem_of_app. apply elem_of_cons in Hc as [->|Hc].
      * left. rewrite Hr in Hlc. now injection Hlc as ->.
      * right. exact (Hmem c lc x Hc Hact Hlc Hx).
Qed.

Lemma get_total (fuel : nat) (o : object conv) :
  forall path, exists l, get_without_substitution heap fuel o path None = Ok l.
Proof.
  induction o as [d|h objs IH] using object_nested_ind; intros path.
  - cbn [get_without_substitution]. destruct (_ || _); eauto.
  - cbn [get_without_substitution].
    destruct (scope_is_disabled h); [eauto |].
    destruct (String.length (scope_name h) =? 0).
    + destruct (String.length path =? 0); [eauto |].
      destruct (get_children_total fuel objs path IH) as [l [Hl _]]. eauto.
    + destruct (_ || _); [eauto |].
      destruct (startswith path (scope_name h +:+ ".")); [| eauto].
      destruct (get_children_total fuel objs
                  (str_drop (String.length (scope_name h) + 1) path) IH)
        as [l [Hl _]]. eauto.
Qed.

Lemma str_drop_app (a b : string) : str_drop (String.length a) (a +:+ b) = b.
Proof. induction a as [|c a IH]; [now destruct b | exact IH]. Qed.

Lemma all_definitions_objects_elem (visit : object conv -> list (object_locator conv))
    (s : bool) (l : list (object conv)) (loc : object_locator conv) :
  loc ∈ all_definitions_objects visit s l ->
  exists c, c ∈ l /\ is_disabled c = false /\ loc ∈ visit c.
Proof.
  induction l as [|o l IH]; cbn [all_definitions_objects]; intros Hloc.
  - now apply elem_of_nil in Hloc.
  - assert (Hrest : loc ∈ all_definitions_objects visit s l ->
                    exists c, c ∈ o :: l /\ is_disabled c = false /\ loc ∈ visit c).
    { intros Hl. destruct (IH Hl) as [c [Hc Hrest]]. exists c.
      split; [now apply list_elem_of_further | exact Hrest]. }
    destruct (is_disabled o) eqn:Hd; [now apply Hrest |].
    destruct (s && truthy (multiple o)); [now apply Hrest |].
    apply elem_of_app in Hloc as [Hloc|Hloc]; [| now apply Hrest].
    exists o. split; [apply list_elem_of_here | auto].
Qed.

(** A locator made below a named, active object points to an active
    definition that is no include directive, and the part of its path after
    the parent's is one under which the object is found. *)
Lemma all_definitions_found (fuel : nat) (s : bool) (o : object conv) :
  named o = true -> is_disabled o = false ->
  forall parent pp loc,
    loc ∈ _all_definitions s o parent pp ->
    is_definition (loc_object loc) = true
    /\ is_disabled (loc_object loc) = false
    /\ name (loc_object loc) <> "include"
    /\ exists q, loc_path loc = pp +:+ q
                 /\ (q <> "" \/ loc_object loc = o)
                 /\ exists l, get_without_substitution heap fuel o q None = Ok l
                              /\ loc_object loc ∈ l.
Proof.
  induction o as [d|h objs IH] using object_nested_ind;
    intros Hnamed Hact parent pp loc Hloc.
  - cbn [_all_definitions] in Hloc.
    destruct (s && truthy (def_multiple d)); [now apply elem_of_nil in Hloc |].
    destruct (String.eqb_spec (def_name d) "include") as [|Hinc];
      [now apply elem_of_nil in Hloc |].
    apply list_elem_of_singleton in Hloc as ->. cbn [loc_object loc_path].
    split; [reflexivity |]. split; [exact Hact |]. split; [exact Hinc |].
    exists (def_name d). split; [reflexivity |]. split; [now right |].
    cbn [get_without_substitution]. cbn [is_disabled] in Hact.
    rewrite Hact, String.eqb_refl. cbn [negb andb orb].
    eexists. split; [reflexivity | apply list_elem_of_here].
  - cbn [named] in Hnamed. apply andb_true_iff in Hnamed as [Hname Hobjs].
    apply negb_true_iff, String.eqb_neq in Hname.
    cbn [_all_definitions] in Hloc.
    apply all_definitions_objects_elem in Hloc as [c [Hc [Hcact Hloc]]].
    rewrite Forall_forall in IH. rewrite forallb_forall in Hobjs.
    assert (Hcnamed : named c = true) by (apply Hobjs; now apply list_elem_of_In).
    destruct (IH c Hc Hcnamed Hcact _ _ _ Hloc)
      as [Hdef [Hlact [Hinc [q [Hpath [_ [lc [Hlc Hin]]]]]]]].
    split; [exact Hdef |]. split; [exact Hlact |]. split; [exact Hinc |].
    set (p := scope_name h +:+ "." +:+ q).
    assert (Heqb : String.eqb (scope_name h) p = false) by apply eqb_longer.
    assert (Hsw : startswith p (scope_name h +:+ ".") = true).
    { apply startswith_spec. exists q. unfold p. now rewrite string_app_assoc. }
    assert (Hdrop : str_drop (String.length (scope_name h) + 1) p = q).
    { unfold p. rewrite <- (string_app_assoc (scope_name h) "." q).
      replace (String.length (scope_name h) + 1)
        with (String.length (scope_name h +:+ ".")).
      - apply str_drop_app.
      - rewrite string_length_app. reflexivity. }
    assert (Hp : p <> "").
    { intros Hq. apply (f_equal String.length) in Hq. unfold p in Hq.
      rewrite !string_length_app in Hq. simpl in Hq. lia. }
    exists p.
    split; [unfold p; now rewrite Hpath, !string_app_assoc |].
    split; [now left |].
    cbn [get_without_substitution]. cbn [is_disabled] in Hact. rewrite Hact.
    assert (Hlen : (String.length (scope_name h) =? 0) = false).
    { apply Nat.eqb_neq. destruct (scope_name h); [congruence | discriminate]. }
    rewrite Hlen, Heqb. cbn [orb]. rewrite Hsw, Hdrop.
    destruct (get_children_total fuel objs q) as [l [Hl Hmem]].
    { apply Forall_forall. intros x _. apply get_total. }
    exists l. split; [exact Hl |]. exact (Hmem c lc _ Hc Hcact Hlc Hin).
Qed.

(** X26: every locator that [all_definitions] lists points to an active
    definition that is no include directive, and looking its path up in the
    scope finds that definition: in a tree whose scopes below the top have
    names, the listed paths are paths that [get] understands. *)
Theorem all_definitions_can_be_looked_up (fuel : nat) (suppress_multiple : bool)
    (self : object conv) (loc : object_locator conv) :
  name self = "" -> is_disabled self = false ->
  forallb named (objects self) = true ->
  loc ∈ all_definitions suppress_multiple self ->
  is_definition (loc_object loc) = true
  /\ is_disabled (loc_object loc) = false
  /\ name (loc_object loc) <> "include"
  /\ exists l,
       get_without_substitution heap fuel self (loc_path loc) None = Ok l
       /\ loc_object loc ∈ l.
Proof.
  intros Hname Hact Hobjs Hloc. unfold all_definitions in Hloc.
  apply all_definitions_objects_elem in Hloc as [c [Hc [Hcact Hloc]]].
  rewrite forallb_forall in Hobjs.
  assert (Hcnamed : named c = true) by (apply Hobjs; now apply list_elem_of_In).
  destruct (all_definitions_found fuel suppress_multiple c Hcnamed Hcact _ _ _ Hloc)
    as [Hdef [Hlact [Hinc [q [Hpath [Hq [lc [Hlc Hin]]]]]]]].
  split; [exact Hdef |]. split; [exact Hlact |]. split; [exact Hinc |].
  destruct self as [d|h objs]; [now apply elem_of_nil in Hc |].
  cbn [objects name is_disabled] in *.
  cbn [get_without_substitution]. rewrite Hact, Hname. cbn [String.length Nat.eqb].
  rewrite Hpath. cbn [String.append].
  destruct (String.length q =? 0) eqn:Hlen.
  - exists objs. split; [reflexivity |].
    destruct Hq as [Hq | ->]; [| exact Hc].
    apply Nat.eqb_eq in Hlen. destruct q; [congruence | discriminate].
  - destruct (get_children_total fuel objs q) as [l [Hl Hmem]].
    { apply Forall_forall. intros x _. apply get_total. }
    exists l. split; [exact Hl |]. exact (Hmem c lc _ Hc Hcact Hlc Hin).
Qed.

(** ** Joining value graphs *)


(** ** A reference to another definition *)


(** ** What a fetch can return *)

Tactic Notation "step_outcome" hyp(H) "as" ident(x) ident(Hx) :=
  rewrite outcome_bindM in H;
  match type of H with
  | match outcome ?m with Ok _ => _ | Raise _ => _ end = _ =>
      destruct (outcome m) as [x|] eqn:Hx; [| discriminate]
  end.

Lemma definition_customized_copy_name (d r : definition conv)
    (ws : option (list word)) :
  definition_customized_copy d None ws = Ok r -> def_name r = def_name d.
Proof.
  unfold definition_customized_copy, definition_copy.
  destruct (definition_init d) as [d0|e] eqn:Hinit; [| discriminate].
  apply definition_init_ok in Hinit as ->. cbn [bind]. now intros [= <-].
Qed.

Lemma fetch_words_name (d r : definition conv) (ws : list word) (skip : bool) :
  hooks_keep_names ->
  fetch_words d ws skip = Ok (Some r) -> def_name r = def_name d.
Proof.
  intros Hhooks. unfold fetch_words.
  destruct (def_type d) as [c|].
  - destruct (type_fetch c) as [hook|] eqn:Hhook; cbn [option_map].
    + destruct (String.eqb (phil_type c) "choice"); intros Hr;
        exact (Hhooks _ _ _ _ _ _ Hhook Hr).
    + destruct (definition_customized_copy d None (Some ws)) as [r0|e] eqn:Hc;
        [| discriminate].
      cbn [bind]. intros [= <-]. exact (definition_customized_copy_name _ _ _ Hc).
  - destruct (definition_customized_copy d None (Some ws)) as [r0|e] eqn:Hc;
      [| discriminate].
    cbn [bind]. intros [= <-]. exact (definition_customized_copy_name _ _ _ Hc).
Qed.

Lemma fetch_value_name (fuel : nat) (d r : definition conv) (src : object conv)
    (diff_mode skip : bool) :
  hooks_keep_names ->
  outcome (fetch_value heap environ fuel d src diff_mode skip) = Ok (Some r) ->
  def_name r = def_name d.
Proof.
  intros Hhooks Hr. unfold fetch_value in Hr. destruct src as [s|sh objs].
  - step_outcome Hr as src' Hsrc. step_outcome Hr as proceed Hproceed.
    destruct proceed; cbn [negb ret lift outcome] in Hr; [| discriminate].
    exact (fetch_words_name _ _ _ _ Hhooks Hr).
  - destruct skip; cbn [lift outcome] in Hr; [| discriminate].
    unfold definition_copy in Hr.
    destruct (definition_init d) as [d0|e] eqn:Hinit; [| discriminate].
    apply definition_init_ok in Hinit as ->. cbn [bind] in Hr. now injection Hr as <-.
Qed.

Lemma definition_fetch_name (fuel : nat) (d r : definition conv)
    (src : object conv) (diff skip : bool) :
  hooks_keep_names ->
  outcome (definition_fetch heap environ fuel d src diff skip) = Ok (Some r) ->
  def_name r = def_name d.
Proof.
  intros Hhooks Hr. unfold definition_fetch in Hr. destruct diff.
  - unfold fetch_diff in Hr. step_outcome Hr as r0 Hr0.
    step_outcome Hr as s1 Hs1. step_outcome Hr as s2 Hs2.
    destruct (String.eqb s1 s2); cbn [ret outcome] in Hr; [discriminate |].
    injection Hr as ->. exact (fetch_value_name _ _ _ _ _ _ Hhooks Hr0).
  - exact (fetch_value_name _ _ _ _ _ _ Hhooks Hr).
Qed.

Lemma scope_customized_copy_name (h : scope_header) (objs new : list (object conv))
    (r : object conv) :
  scope_customized_copy h objs None (Some new) = Ok r ->
  name r = scope_name h /\ objects r = new.
Proof.
  intros Hr. apply scope_customized_copy_objects in Hr as [-> _].
  split; reflexivity.
Qed.

Lemma scope_fetch_name (fuel : nat) (mo r : object conv) (ss : list (object conv))
    (diff skip : bool) :
  outcome (scope_fetch heap environ fuel mo ss diff skip) = Ok r ->
  name r = name mo.
Proof.
  destruct mo as [d|h objs]; cbn [scope_fetch]; intros Hr; [discriminate |].
  step_outcome Hr as c Hc. step_outcome Hr as src Hsrc. step_outcome Hr as res Hres.
  cbn [lift outcome] in Hr. now apply scope_customized_copy_name in Hr as [-> _].
Qed.

Lemma object_copy_name (o r : object conv) :
  object_copy o = Ok r -> name r = name o.
Proof.
  destruct o as [d|h objs]; cbn [object_copy].
  - unfold definition_copy.
    destruct (definition_init d) as [d0|e] eqn:Hinit; [| discriminate].
    apply definition_init_ok in Hinit as ->. cbn [bind]. now intros [= <-].
  - unfold scope_copy, scope_init.
    destruct (is_reserved_identifier _); [discriminate |].
    destruct (str_in _ _); [discriminate |].
    destruct (scope_sequential_format h) as [f|];
      [destruct (format_int f); [| discriminate] |]; now intros [= <-].
Qed.

Lemma name_set_is_template (o : object conv) (t : Z) :
  name (set_is_template o t) = name o.
Proof. destruct o; reflexivity. Qed.

Lemma object_fetch_name (fuel : nat) (mo c src : object conv) (diff skip : bool) :
  hooks_keep_names ->
  outcome (object_fetch heap environ fuel (scope_fetch heap environ fuel mo)
             mo src diff skip) = Ok (Some c) ->
  name c = name mo.
Proof.
  intros Hhooks Hc. unfold object_fetch in Hc. destruct mo as [d|h objs].
  - step_outcome Hc as x Hx. cbn [ret outcome] in Hc.
    destruct x as [r|]; [| discriminate]. injection Hc as <-.
    exact (definition_fetch_name _ _ _ _ _ _ Hhooks Hx).
  - step_outcome Hc as x Hx. cbn [ret outcome] in Hc. injection Hc as <-.
    exact (scope_fetch_name _ _ _ _ _ _ Hx).
Qed.

Lemma fetch_candidate_names (fuel : nat) (mo : object conv)
    (master_as_str : string) (diff skip from_master : bool)
    (st st' : gmap string Z * list (option (object conv))) (src : object conv) :
  hooks_keep_names ->
  Forall (fun x => forall o, x = Some o -> name o = name mo) st.2 ->
  outcome (fetch_candidate heap environ fuel (scope_fetch heap environ fuel mo)
             mo master_as_str diff skip from_master st src) = Ok st' ->
  Forall (fun x => forall o, x = Some o -> name o = name mo) st'.2.
Proof.
  intros Hhooks Hinv Hst. unfold fetch_candidate in Hst.
  step_outcome Hst as x Hx.
  assert (Hcand : forall o, x = Some o -> name o = name mo).
  { intros o ->. exact (object_fetch_name _ _ _ _ _ _ Hhooks Hx). }
  destruct (diff && _); [cbn [ret outcome] in Hst; now injection Hst as <- |].
  step_outcome Hst as x0 Hx0.
  destruct (String.eqb x0 master_as_str);
    [cbn [ret outcome] in Hst; now injection Hst as <- |].
  assert (Hins : forall (i : nat),
            Forall (fun x => forall o, x = Some o -> name o = name mo)
                   (<[i := None]> st.2)).
  { intros i. apply Forall_insert; [exact Hinv | discriminate]. }
  assert (Hpush : forall l,
            Forall (fun x => forall o, x = Some o -> name o = name mo) l ->
            Forall (fun x => forall o, x = Some o -> name o = name mo) (l ++ [x])).
  { intros l Hl. apply Forall_app. split; [exact Hl |].
    constructor; [exact Hcand | constructor]. }
  destruct (st.1 !! x0) as [z|].
  - destruct z as [|p|p].
    + step_outcome Hst as x2 Hx2. cbn [lift outcome] in Hx2.
      destruct (_ <? _); [| discriminate]. injection Hx2 as <-.
      destruct (diff && from_master); cbn [ret outcome] in Hst;
        injection Hst as <-; cbn [snd]; auto.
    + step_outcome Hst as x2 Hx2. cbn [lift outcome] in Hx2.
      destruct (_ <? _); [| discriminate]. injection Hx2 as <-.
      destruct (diff && from_master); cbn [ret outcome] in Hst;
        injection Hst as <-; cbn [snd]; auto.
    + destruct p; try (cbn [ret outcome] in Hst; now injection Hst as <-);
        (step_outcome Hst as x2 Hx2; cbn [lift outcome] in Hx2;
         destruct (_ <? _); [| discriminate]; injection Hx2 as <-;
         destruct (diff && from_master); cbn [ret outcome] in Hst;
         injection Hst as <-; cbn [snd]; auto).
  - step_outcome Hst as x2 Hx2. cbn [lift outcome] in Hx2. injection Hx2 as <-.
    destruct (diff && from_master); cbn [ret outcome] in Hst;
      injection Hst as <-; cbn [snd]; auto.
Qed.

Lemma fetch_candidates_names (fuel : nat) (mo : object conv)
    (master_as_str : string) (diff skip from_master : bool)
    (matching : list (object conv))
    (st st' : gmap string Z * list (option (object conv))) :
  hooks_keep_names ->
  Forall (fun x => forall o, x = Some o -> name o = name mo) st.2 ->
  outcome (fetch_candidates heap environ fuel (scope_fetch heap environ fuel mo)
             mo master_as_str diff skip from_master matching st) = Ok st' ->
  Forall (fun x => forall o, x = Some o -> name o = name mo) st'.2.
Proof.
  intros Hhooks. revert st.
  induction matching as [|src matching IH]; intros st Hinv Hst.
  - cbn [fetch_candidates ret outcome] in Hst. now injection Hst as <-.
  - cbn [fetch_candidates] in Hst. step_outcome Hst as x Hx.
    apply (IH x); [| exact Hst].
    exact (fetch_candidate_names _ _ _ _ _ _ _ _ _ Hhooks Hinv Hx).
Qed.

Lemma fetch_last_name (fuel : nat) (d : definition conv)
    (matching : list (object conv)) (diff skip : bool)
    (r0 r : option (object conv)) :
  hooks_keep_names ->
  (forall o, r0 = Some o -> name o = def_name d) ->
  outcome (fetch_last heap environ fuel d matching diff skip r0) = Ok r ->
  forall o, r = Some o -> name o = def_name d.
Proof.
  intros Hhooks. revert r0.
  induction matching as [|src matching IH]; intros r0 Hr0 Hr.
  - cbn [fetch_last ret outcome] in Hr. now injection Hr as <-.
  - cbn [fetch_last] in Hr. step_outcome Hr as x Hx.
    apply (IH (option_map Def x)); [| exact Hr].
    intros o Ho. destruct x as [r1|]; [| discriminate].
    injection Ho as <-. exact (definition_fetch_name _ _ _ _ _ _ Hhooks Hx).
Qed.

(** Whatever the loop of [scope.fetch] appends for a master object carries
    the name of that object. *)
Lemma fetch_master_object_names (fuel : nat) (h : scope_header)
    (objs : list (object conv)) (source : object conv) (i : nat)
    (mo : object conv) (diff skip : bool) (new : list (object conv)) :
  hooks_keep_names ->
  outcome (fetch_master_object heap environ fuel
             (scope_fetch heap environ fuel mo) h objs source i mo diff skip)
  = Ok new ->
  Forall (fun o => name o = name mo) new.
Proof.
  intros Hhooks Hnew. unfold fetch_master_object in Hnew.
  step_outcome Hnew as ap Hap. step_outcome Hnew as matching Hmatching.
  destruct (negb (truthy (multiple mo))).
  - step_outcome Hnew as x1 Hx1.
    assert (Hres : forall o, x1 = Some o -> name o = name mo).
    { destruct mo as [d|hm objsm].
      - assert (Hnone : forall o : object conv,
                  @None (object conv) = Some o -> name o = def_name d)
          by (intros o [=]).
        exact (fetch_last_name _ _ _ _ _ _ _ Hhooks Hnone Hx1).
      - step_outcome Hx1 as x2 Hx2. intros o Ho.
        destruct (diff && _); cbn [ret outcome] in Hx1; [congruence |].
        injection Hx1 as <-. injection Ho as <-.
        exact (scope_fetch_name _ _ _ _ _ _ Hx2). }
    unfold keep_or_default in Hnew. destruct x1 as [r|].
    + cbn [ret outcome] in Hnew. injection Hnew as <-.
      constructor; [now apply Hres | constructor].
    + destruct (negb diff && negb (deprecated mo)).
      * step_outcome Hnew as x2 Hx2. cbn [ret outcome] in Hnew. injection Hnew as <-.
        cbn [lift outcome] in Hx2.
        constructor; [exact (object_copy_name _ _ Hx2) | constructor].
      * cbn [ret outcome] in Hnew. injection Hnew as <-. constructor.
  - step_outcome Hnew as x1 Hx1. step_outcome Hnew as x2 Hx2.
    step_outcome Hnew as x3 Hx3. step_outcome Hnew as x4 Hx4.
    step_outcome Hnew as x5 Hx5. cbn [ret outcome] in Hnew. injection Hnew as <-.
    apply fetch_candidates_names in Hx3; [| exact Hhooks | constructor].
    apply fetch_candidates_names in Hx4; [| exact Hhooks | exact Hx3].
    apply Forall_app. split.
    + destruct (negb diff); [| cbn [ret outcome] in Hx5; injection Hx5 as <-; constructor].
      step_outcome Hx5 as x6 Hx6. cbn [ret outcome] in Hx5. injection Hx5 as <-.
      cbn [lift outcome] in Hx6. unfold template_marker in Hx6.
      destruct (object_copy mo) as [c|e] eqn:Hc; [| discriminate].
      cbn [bind] in Hx6. injection Hx6 as <-.
      constructor; [| constructor].
      rewrite name_set_is_template. exact (object_copy_name _ _ Hc).
    + apply Forall_forall. intros o Ho.
      apply list_elem_of_omap in Ho as [[o'|] [Hin Ho']]; [| discriminate].
      cbn [id] in Ho'. injection Ho' as ->.
      rewrite Forall_forall in Hx4. exact (Hx4 _ Hin o eq_refl).
Qed.

Lemma master_active_fold_names (fuel : nat)
    (body : nat -> object conv -> list (object conv) -> M (list (object conv)))
    (P : object conv -> Prop)
    (rest : list (object conv)) (i : nat)
    (names : gmap string (nat * object conv)) (acc res : list (object conv)) :
  Forall (fun o => is_disabled o = false ->
                   forall i acc acc',
                     outcome (body i o acc) = Ok acc' ->
                     Forall P acc -> Forall P acc') rest ->
  Forall P acc ->
  outcome (master_active_fold heap (@bindM) (@lift) fuel body rest i names acc)
  = Ok res ->
  Forall P res.
Proof.
  intros Hbody. revert i names acc.
  induction Hbody as [|o rest Ho _ IH]; intros i names acc Hacc Hres.
  - cbn [master_active_fold lift outcome] in Hres. now injection Hres as <-.
  - cbn [master_active_fold] in Hres.
    destruct (is_disabled o) eqn:Hd; [exact (IH _ _ _ Hacc Hres) |].
    destruct (default (i, o) (names !! name o)) as [mi master].
    assert (Hyield :
      outcome (bindM (body i o acc)
                 (fun st' =>
                    master_active_fold heap (@bindM) (@lift) fuel body rest (S i)
                      match names !! name o with
                      | Some _ => names
                      | None => <[name o := (i, o)]> names
                      end st')) = Ok res ->
      Forall P res).
    { intros Hy. step_outcome Hy as x Hx.
      exact (IH _ _ _ (Ho eq_refl _ _ _ Hx Hacc) Hy). }
    destruct (negb (mi =? i)); [| exact (Hyield Hres)].
    destruct (truthy (multiple master)); [exact (IH _ _ _ Hacc Hres) |].
    destruct (is_definition o); [| exact (Hyield Hres)].
    cbn [lift outcome] in Hres.
    destruct (full_path heap fuel master); [| discriminate].
    cbn [bind] in Hres. destruct (full_path heap fuel o); discriminate.
Qed.

(** X29: a fetch returns nothing that the master does not declare. Every
    child of the scope that [fetch] returns, in either mode and whatever
    the sources hold, carries the name of an active child of the master;
    the fetch hooks of the converters are taken to keep the name of the
    master definition. *)
Theorem fetch_returns_master_names (fuel : nat) (h : scope_header)
    (objs sources : list (object conv)) (diff skip : bool) (r : object conv) :
  hooks_keep_names ->
  outcome (scope_fetch heap environ fuel (Scope h objs) sources diff skip) = Ok r ->
  name r = scope_name h
  /\ Forall (fun o => exists m, m ∈ objs /\ is_disabled m = false
                                /\ name o = name m) (objects r).
Proof.
  intros Hhooks Hr.
  split; [exact (scope_fetch_name _ _ _ _ _ _ Hr) |].
  cbn [scope_fetch] in Hr.
  step_outcome Hr as x Hx. step_outcome Hr as x0 Hx0. step_outcome Hr as x1 Hx1.
  cbn [lift outcome] in Hr. apply scope_customized_copy_name in Hr as [_ ->].
  refine (master_active_fold_names fuel _
            (fun o => exists m, m ∈ objs /\ is_disabled m = false /\ name o = name m)
            objs 0 ∅ [] x1 _ (List.Forall_nil _) Hx1).
  apply Forall_forall. intros mo Hmo Hact i acc acc' Hbody Hacc.
  step_outcome Hbody as x2 Hx2. cbn [ret outcome] in Hbody. injection Hbody as <-.
  apply Forall_app. split; [exact Hacc |].
  apply fetch_master_object_names in Hx2; [| exact Hhooks].
  eapply Forall_impl; [exact Hx2 |]. intros o Ho. exists mo. auto.
Qed.


End MoreProperties.

(** * The scenarios, evaluated *)

Import Scenario.

(** C1: with master "a.b=1 / a.c=2" and source "a.b=5", fetch returns a tree
    in which a.b has the value 5 of the source and a.c keeps the default 2. *)
Theorem fetch_takes_source_value_and_keeps_default (fuel : nat) :
  scope_fetch heap no_environ (S (S fuel)) master [source] false false
    = mkM [] (Ok fetched)
  /\ get_without_substitution heap fuel fetched "a.b" None = Ok [Def fetched_b]
  /\ map value (def_words fetched_b) = ["5"]
  /\ get_without_substitution heap fuel fetched "a.c" None = Ok [Def fetched_c]
  /\ map value (def_words fetched_c) = ["2"]
  /\ as_str fetched = Ok ("a.b = 5" +:+ newline +:+ "a.c = 2" +:+ newline).
Proof. repeat split; reflexivity. Qed.

(** C9: the specified property fails for the include directive, a definition whose whole
    name is the reserved word: its construction succeeds. *)
Lemma include_directive_is_constructed :
  definition_init include_directive = Ok include_directive.
Proof. reflexivity. Qed.

Lemma reserved_include_component_witness :
  In "include" (split dot "a.include")
  /\ (exists e, scope_init (conv:=Empty_set) (empty_header "a.include") None = Raise e
               /\ is_reserved_error e = true).
Proof.
  assert (Hin : In "include" (split dot "a.include")) by (simpl; auto).
  split; [exact Hin |].
  exact (proj1 (reserved_include_component (conv:=Empty_set) "a.include" Hin)
           (empty_header "a.include") None eq_refl).
Defined.


(** C7: the specified property fails where a resolved word still holds a [$]: b resolves
    to the double-quoted text of a, which is $x, and resolving that again
    looks x up and yields 7. *)
Lemma resolve_variables_twice_differs :
  resolve_variables subst_heap no_environ 3 subst_b false = Ok subst_b1
  /\ resolve_variables subst_heap no_environ 3 subst_b1 false = Ok subst_b2
  /\ map value (def_words subst_b1) = ["$x"]
  /\ map value (def_words subst_b2) = ["7"].
Proof. repeat split. Qed.

Lemma resolve_variables_idempotent_without_dollar_witness :
  resolve_variables subst_heap no_environ 3 subst_b1 false = Ok subst_b2
  /\ forallb is_resolved (def_words subst_b2) = true
  /\ resolve_variables subst_heap no_environ 3 subst_b2 false = Ok subst_b2.
Proof.
  assert (H1 : resolve_variables subst_heap no_environ 3 subst_b1 false = Ok subst_b2)
    by reflexivity.
  split; [exact H1 | split; [reflexivity |]].
  exact (resolve_variables_idempotent_without_dollar subst_heap no_environ 3 3 false
           subst_b1 subst_b2 H1 eq_refl).
Defined.





(** C3: the specified property fails for entries whose canonical form is the master's
    own: with master "x=1 .multiple=True" and two sources "x=1", both entries
    fetch to the form of the master and the result holds the template marker
    only, without any realized copy. *)
Lemma default_valued_entries_are_not_realized :
  canonical_form multiple_heap 3 (Def multiple_x) None = Ok (form_of "1")
  /\ fetches_to multiple_heap no_environ 3
       (scope_fetch multiple_heap no_environ 3 (Def multiple_x))
       (Def multiple_x) false (form_of "1") (Def (top "x" [wd "1" 1] 1 10))
  /\ fetches_to multiple_heap no_environ 3
       (scope_fetch multiple_heap no_environ 3 (Def multiple_x))
       (Def multiple_x) false (form_of "1") (Def (top "x" [wd "1" 1] 1 20))
  /\ scope_fetch multiple_heap no_environ 3 multiple_master
       [entry "1" 10; entry "1" 20] false false
     = mkM [] (Ok (Scope root [template_x 1])).
Proof.
  split; [reflexivity |].
  split; [eexists; split; reflexivity |].
  split; [eexists; split; reflexivity | reflexivity].
Qed.

Lemma multiple_entry_is_realized_once_witness :
  (exists realized,
     outcome (fetch_master_object multiple_heap no_environ 3
                (scope_fetch multiple_heap no_environ 3 (Def multiple_x))
                root [Def multiple_x]
                (Scope root [Def (top "x" [wd "2" 1] 1 30);
                             Def (top "x" [wd "2" 1] 1 40)])
                0 (Def multiple_x) false false)
     = Ok (template_x (-1) :: realized)
     /\ realized_copies multiple_heap 3 (Def multiple_x) (form_of "2") realized = 1)
  /\ scope_fetch multiple_heap no_environ 3 multiple_master
       [entry "2" 30; entry "2" 40] false false
     = mkM [] (Ok (Scope root [template_x (-1); fetched_entry "2"])).
Proof.
  split; [| reflexivity].
  assert (Hall :
    Forall (fun src => exists s',
              fetches_to multiple_heap no_environ 3
                (scope_fetch multiple_heap no_environ 3 (Def multiple_x))
                (Def multiple_x) false s' src)
           (active_objects (Scope (empty_header "") [])
            ++ active_objects (Scope (empty_header "")
                 [Def (top "x" [wd "2" 1] 1 30); Def (top "x" [wd "2" 1] 1 40)]))).
  { repeat constructor; eexists; eexists; split; reflexivity. }
  assert (Hex :
    Exists (fetches_to multiple_heap no_environ 3
              (scope_fetch multiple_heap no_environ 3 (Def multiple_x))
              (Def multiple_x) false (form_of "2"))
           (active_objects (Scope (empty_header "")
              [Def (top "x" [wd "2" 1] 1 30); Def (top "x" [wd "2" 1] 1 40)]))).
  { left. eexists. split; reflexivity. }
  assert (Hne : form_of "2" <> form_of "1") by discriminate.
  exact (multiple_entry_is_realized_once multiple_heap no_environ 3
           (scope_fetch multiple_heap no_environ 3 (Def multiple_x))
           root [Def multiple_x]
           (Scope root [Def (top "x" [wd "2" 1] 1 30); Def (top "x" [wd "2" 1] 1 40)])
           0 (Def multiple_x) (Def multiple_x) false None
           (Scope (empty_header "")
              [Def (top "x" [wd "2" 1] 1 30); Def (top "x" [wd "2" 1] 1 40)])
           (Scope (empty_header "") [])
           (form_of "1") (form_of "2")
           eq_refl eq_refl eq_refl eq_refl eq_refl eq_refl Hall Hex Hne).
Defined.



(** * The further properties at concrete inputs *)

Import MoreScenario.

(** The class [_A] mangles the name [__x] to [_A__x]. *)
Lemma mangle_shape_witness :
  mangle "__x" "_A" <> "__x"
  /\ exists u k rest,
       "_A" = u +:+ k +:+ rest
       /\ all_underscores u = true
       /\ startswith k "_" = false /\ k <> ""
       /\ mangle "__x" "_A" = "_" +:+ k +:+ "__x"
       /\ String.length (mangle "__x" "_A") <= MANGLE_LEN + 1
       /\ (rest <> "" -> String.length (mangle "__x" "_A") = MANGLE_LEN + 1).
Proof.
  assert (H : mangle "__x" "_A" <> "__x") by (vm_compute; discriminate).
  split; [exact H |]. exact (mangle_shape "__x" "_A" H).
Defined.

(** In the master "a.b=1 / a.c=2" the definition b has the full path a.b. *)
Lemma full_path_extends_parent_witness :
  primary_parent_scope (Def (dfn "b" [wd "1" 1] 1 1)) = Some 1
  /\ heap 1 = Some master_a1
  /\ full_path heap 1 master_a1 = Ok "a"
  /\ full_path heap 2 (Def (dfn "b" [wd "1" 1] 1 1)) = Ok "a.b".
Proof.
  split; [reflexivity |]. split; [reflexivity |]. split; [reflexivity |].
  exact (proj2 (full_path_extends_parent heap 1 (Def (dfn "b" [wd "1" 1] 1 1))
                  master_a1 1 eq_refl eq_refl)
               ltac:(discriminate) "a" eq_refl).
Defined.

(** Under the scope t with the alias u the definition y has the alias path
    u.y. *)
Lemma alias_path_extends_parent_witness :
  alias (Def aliased_y) = None
  /\ alias_path aliased_heap 0 aliased_t = Ok (Some "u")
  /\ alias_path aliased_heap 1 (Def aliased_y) = Ok (Some "u.y").
Proof.
  split; [reflexivity |]. split; [reflexivity |].
  assert (Hs : name aliased_t <> "" \/ alias aliased_t <> None)
    by (left; discriminate).
  exact (proj2 (alias_path_extends_parent aliased_heap 0 (Def aliased_y)
                  aliased_t 1 eq_refl eq_refl eq_refl)
               Hs (Some "u") eq_refl).
Defined.

(** The word [\$x] is a literal. *)
Lemma escaped_dollar_is_literal_witness :
  exists p,
    variable_substitution_proxy escaped_word = Ok p
    /\ have_variables p = false
    /\ fragments p = [mk_fragment false (value escaped_word)]
    /\ forall rs, get_new_words p rs = Ok [escaped_word].
Proof.
  exact (escaped_dollar_is_literal escaped_word "" "x" eq_refl eq_refl eq_refl).
Defined.

(** The word [a$] is a syntax error. *)
Lemma variable_reference_syntax_errors_witness :
  variable_substitution_proxy dangling_word
  = Raise (SyntaxError "$ must be followed by an identifier: " dangling_word).
Proof.
  exact (proj1 (variable_reference_syntax_errors dangling_word "a" ""
                  eq_refl eq_refl eq_refl) eq_refl).
Defined.

(** The single-quoted word '$x' of "a = '$x'" is kept as it is. *)
Lemma resolve_variables_keeps_resolved_words_witness :
  forallb is_resolved (def_words subst_a) = true
  /\ resolve_variables subst_heap no_environ 0 subst_a false
     = Ok (def_set_is_template subst_a 0%Z).
Proof.
  split; [reflexivity |].
  exact (resolve_variables_keeps_resolved_words subst_heap no_environ 0 subst_a
           false eq_refl eq_refl).
Defined.

(** "x=$nope" with nothing named nope in sight and an empty environment. *)
Lemma lone_variable_reference_witness :
  lookup_variable plain_heap 3 x_nope "nope" = Ok None
  /\ resolve_variables plain_heap no_environ 3 x_nope true
     = Ok (def_set_is_template
             (def_set_name_words x_nope "x" [environment_word "nope" "$nope"]) 0%Z)
  /\ resolve_variables plain_heap no_environ 3 x_nope false
     = Raise (UndefinedVariable "nope" (wd "$nope" 1)).
Proof.
  split; [reflexivity |].
  exact (lone_variable_reference plain_heap no_environ 3 x_nope (wd "$nope" 1)
           "nope" eq_refl eq_refl eq_refl eq_refl eq_refl eq_refl).
Defined.

(** In "x = 7 / a = '$x' / b = $a" the definition b, the third, sees x, the
    first. *)
Lemma lexical_get_respects_stop_id_witness :
  lexical_get subst_heap 2 subst_root "x" (Some 3) true = Ok (Some (Def subst_x))
  /\ declared_before 3 (Def subst_x).
Proof.
  split; [reflexivity |].
  exact (lexical_get_respects_stop_id subst_heap 2 subst_root "x" 3 true
           (Def subst_x) eq_refl).
Defined.

(** Looking up a.b in the master "a.b=1 / a.c=2". *)
Lemma get_without_substitution_returns_active_witness :
  forallb named (objects master) = true
  /\ get_without_substitution heap 2 master "a.b" None
     = Ok [Def (dfn "b" [wd "1" 1] 1 1)]
  /\ Forall (fun x : object Empty_set => is_disabled x = false)
            [Def (dfn "b" [wd "1" 1] 1 1)].
Proof.
  split; [reflexivity |]. split; [reflexivity |].
  assert (Hne : name master <> "" \/ "a.b" <> "") by (right; discriminate).
  exact (get_without_substitution_returns_active heap 2 master "a.b" None
           [Def (dfn "b" [wd "1" 1] 1 1)] eq_refl Hne eq_refl).
Defined.

(** Iterating the master "x = a / s.y = b". *)
Lemma master_active_objects_distinct_names_witness :
  NoDup (map name (active_objects single))
  /\ master_active_objects single_heap 1 single
     = Ok [(0, Def single_x); (1, single_s)].
Proof.
  assert (Hnd : NoDup (map name (active_objects single))).
  { apply (bool_decide_unpack _). reflexivity. }
  split; [exact Hnd |].
  exact (proj1 (master_active_objects_distinct_names single_heap 1 single Hnd)).
Defined.




(** Of "x = a / x = b" the second definition stays. *)
Lemma unique_names_are_distinct_witness :
  unique twice = Ok (Scope (scope_set_is_template root 0%Z) [Def twice_2])
  /\ NoDup (map name [Def twice_2])
  /\ (forall n, n ∈ map name [Def twice_2] <-> n ∈ map name (active_objects twice))
  /\ Forall (fun o : object Empty_set => all_active o = true) [Def twice_2].
Proof.
  split; [reflexivity |].
  exact (unique_names_are_distinct twice
           (Scope (scope_set_is_template root 0%Z) [Def twice_2]) eq_refl).
Defined.

Lemma unique_idempotent_witness :
  unique mixed = Ok (Scope (scope_set_is_template root 0%Z) [Def mixed_x3])
  /\ unique (Scope (scope_set_is_template root 0%Z) [Def mixed_x3])
     = Ok (Scope (scope_set_is_template root 0%Z) [Def mixed_x3]).
Proof.
  split; [reflexivity |].
  exact (unique_idempotent mixed
           (Scope (scope_set_is_template root 0%Z) [Def mixed_x3]) eq_refl).
Defined.

(** Resolving "x = 1 / !y = 2 / x = 3": the disabled y is dropped. *)
Lemma scope_resolve_variables_keeps_the_active_witness :
  exists r,
    scope_resolve_variables mixed_heap no_environ 1 mixed = Ok r
    /\ map name (objects r) = ["x"; "x"]
    /\ Forall (fun o : object Empty_set => all_active o = true) (objects r)
    /\ name r = "" /\ is_template r = 0%Z.
Proof.
  eexists. split; [reflexivity |].
  exact (scope_resolve_variables_keeps_the_active mixed_heap no_environ 1 mixed _
           eq_refl).
Defined.

(** Finding a.b in the master "a.b=1 / a.c=2". *)
Lemma find_scope_finds_the_path_witness :
  find_scope heap 2 master "a.b" = Ok (Some (Def (dfn "b" [wd "1" 1] 1 1)))
  /\ full_path heap 2 (Def (dfn "b" [wd "1" 1] 1 1)) = Ok "a.b".
Proof.
  split; [reflexivity |].
  exact (find_scope_finds_the_path heap 2 master "a.b"
           (Def (dfn "b" [wd "1" 1] 1 1)) eq_refl).
Defined.

(** The sources "x=2" and "x=5" against the master "x=1" are the one
    source "x=2 / x=5". *)
Lemma fetch_sources_concatenate_witness :
  scope_fetch plain_heap no_environ 3 plain_master
    [Scope root [Def x_2]; Scope root [Def x_5]] false false
  = scope_fetch plain_heap no_environ 3 plain_master [source_2_5] false false.
Proof.
  assert (Hs : Forall (fun s : object Empty_set =>
                         name s = scope_name root
                         /\ (is_scope s = true \/ false = true))
                      [Scope root [Def x_2]; Scope root [Def x_5]]).
  { repeat constructor. }
  exact (fetch_sources_concatenate plain_heap no_environ 3 root root
           [Def plain_x] [Scope root [Def x_2]; Scope root [Def x_5]]
           false false Hs eq_refl).
Defined.

(** The master "x = a / s.y = b" is a plain tree. *)
Lemma single_is_plain : plain_tree single_heap 3 single.
Proof.
  assert (Hnd1 : NoDup (map name (filter (fun c : object Empty_set =>
                                            is_disabled c = false)
                                         [Def single_x; single_s]))).
  { apply (bool_decide_unpack _). reflexivity. }
  assert (Hnd2 : NoDup (map name (filter (fun c : object Empty_set =>
                                            is_disabled c = false)
                                         [Def (dfn "y" [wd "b" 2] 2 1)]))).
  { apply (bool_decide_unpack _). reflexivity. }
  split; [reflexivity |]. split; [reflexivity |].
  split; [intros objs'; reflexivity |]. split; [exact Hnd1 |].
  split.
  { intros _. split; [reflexivity |]. split; reflexivity. }
  split; [| exact I].
  intros _. split; [reflexivity |]. split; [reflexivity |].
  split; [intros objs'; reflexivity |]. split; [exact Hnd2 |].
  split; [| exact I].
  intros _. split; [reflexivity |]. split; reflexivity.
Qed.

(** Fetching nothing into the master "x = a / s.y = b". *)
Lemma fetch_without_sources_returns_defaults_witness :
  plain_tree single_heap 3 single
  /\ scope_fetch single_heap no_environ 3 single [] false false
     = mkM [] (Ok (defaults single)).
Proof.
  split; [exact single_is_plain |].
  exact (fetch_without_sources_returns_defaults single_heap no_environ 3 false
           single eq_refl single_is_plain).
Defined.

Lemma fetch_diff_without_sources_is_empty_witness :
  plain_tree single_heap 3 single
  /\ scope_fetch single_heap no_environ 3 single [] true false
     = mkM [] (Ok (Scope (scope_set_is_template root 0%Z) [])).
Proof.
  split; [exact single_is_plain |].
  exact (fetch_diff_without_sources_is_empty single_heap no_environ 3 false
           single eq_refl single_is_plain).
Defined.

(** The locator of a.b listed for the master "a.b=1 / a.c=2". *)
Lemma all_definitions_can_be_looked_up_witness :
  mk_object_locator master_a1 "a.b" (Def (dfn "b" [wd "1" 1] 1 1))
    ∈ all_definitions false master
  /\ exists l,
       get_without_substitution heap 2 master "a.b" None = Ok l
       /\ Def (dfn "b" [wd "1" 1] 1 1) ∈ l.
Proof.
  assert (Hin : mk_object_locator master_a1 "a.b" (Def (dfn "b" [wd "1" 1] 1 1))
                  ∈ all_definitions false master).
  { apply list_elem_of_here. }
  split; [exact Hin |].
  exact (proj2 (proj2 (proj2
           (all_definitions_can_be_looked_up heap 2 false master _
              eq_refl eq_refl eq_refl Hin)))).
Defined.



(** No converter is loaded in the reference configuration. *)
Lemma reference_hooks_keep_names :
  hooks_keep_names (conv := Empty_set) (pyval := Empty_set).
Proof. intros c. destruct c. Qed.

(** Fetching "a.b=5" into the master "a.b=1 / a.c=2": both children of the
    result are named a. *)
Lemma fetch_returns_master_names_witness :
  outcome (scope_fetch heap no_environ 3 master [source] false false) = Ok fetched
  /\ name fetched = ""
  /\ Forall (fun o => exists m, m ∈ [master_a1; master_a2]
                                /\ is_disabled m = false /\ name o = name m)
            (objects fetched).
Proof.
  split; [reflexivity |].
  exact (fetch_returns_master_names heap no_environ 3 root [master_a1; master_a2]
           [source] false false fetched reference_hooks_keep_names eq_refl).
Defined.
